(** * Subscription-Conversion: link decoders, subscription decoder, merge

    A shallow embedding of [converters.py] and of the core of
    [convert_subscription.py].

    Python [str] values are sequences of Unicode code points ([list Z]),
    [bytes] values sequences of octets.  Python's library calls are
    modelled after CPython 3.12; where a call depends on data outside the
    repository (the Unicode case and digit tables, NFKC normalisation, the
    [ipaddress] and [json] modules, the class names of the YAML engine) it
    is a field of the [runtime] record the decoders are parameterised
    over. *)

From Stdlib Require Import ZArith List String Ascii Bool Lia.
Import ListNotations.
Local Open Scope Z_scope.
Set Warnings "-register-all".

(** ** Python strings *)

Module Py.

Definition str := list Z.
Definition bytes := list Z.

(** An ASCII literal as a [str]. *)
Definition lit (s : string) : str :=
  map (fun a => Z.of_N (N_of_ascii a)) (list_ascii_of_string s).

Fixpoint str_eqb (a b : str) : bool :=
  match a, b with
  | [], [] => true
  | x :: a', y :: b' => (x =? y) && str_eqb a' b'
  | _, _ => false
  end.

(** [s.startswith(p)], returning what follows the prefix. *)
Fixpoint strip_prefix (p s : str) : option str :=
  match p with
  | [] => Some s
  | x :: p' =>
      match s with
      | [] => None
      | y :: s' => if x =? y then strip_prefix p' s' else None
      end
  end.

Definition startswith (s p : str) : bool :=
  match strip_prefix p s with Some _ => true | None => false end.

(** The text before and after the first occurrence of [sep]
    ([s.partition(sep)] when [sep] occurs). *)
Fixpoint cut (sep s : str) : option (str * str) :=
  match strip_prefix sep s with
  | Some rest => Some ([], rest)
  | None =>
      match s with
      | [] => None
      | c :: s' =>
          match cut sep s' with
          | Some (a, b) => Some (c :: a, b)
          | None => None
          end
      end
  end.

(** [sub in s] *)
Definition contains (sub s : str) : bool :=
  match cut sub s with Some _ => true | None => false end.

(** [s.split(sep, maxsplit)] for a non-empty [sep]. *)
Fixpoint split_n (sep : str) (maxsplit : nat) (s : str) : list str :=
  match maxsplit with
  | O => [s]
  | S n =>
      match cut sep s with
      | Some (a, b) => a :: split_n sep n b
      | None => [s]
      end
  end.

(** [s.split(sep)]: every cut consumes a character, so [length s] cuts
    are as good as no limit. *)
Definition split (sep s : str) : list str := split_n sep (List.length s) s.

(** [sep.join(parts)] *)
Fixpoint join (sep : str) (parts : list str) : str :=
  match parts with
  | [] => []
  | [p] => p
  | p :: ps => p ++ sep ++ join sep ps
  end.

(** [s.replace(old, new)] for a one-character [old]. *)
Definition replace_char (old : Z) (new : str) (s : str) : str :=
  flat_map (fun c => if c =? old then new else [c]) s.

(** [str.isspace] of one character: bidirectional type WS, B or S, or
    category Zs. *)
Definition is_space (c : Z) : bool :=
  ((9 <=? c) && (c <=? 13)) || ((28 <=? c) && (c <=? 32))
  || (c =? 133) || (c =? 160) || (c =? 5760)
  || ((8192 <=? c) && (c <=? 8202))
  || (c =? 8232) || (c =? 8233) || (c =? 8239) || (c =? 8287)
  || (c =? 12288).

(** The line boundaries of [str.splitlines]. *)
Definition is_linebreak (c : Z) : bool :=
  ((10 <=? c) && (c <=? 13)) || ((28 <=? c) && (c <=? 30))
  || (c =? 133) || (c =? 8232) || (c =? 8233).

Fixpoint lstrip (s : str) : str :=
  match s with
  | [] => []
  | c :: s' => if is_space c then lstrip s' else s
  end.

Definition rstrip (s : str) : str := rev (lstrip (rev s)).

(** [s.strip()] *)
Definition strip (s : str) : str := rstrip (lstrip s).

(** Put a character in front of the first line. *)
Definition cons_line (c : Z) (ls : list str) : list str :=
  match ls with
  | [] => [[c]]
  | l :: ls' => (c :: l) :: ls'
  end.

(** [s.splitlines()]: a carriage return directly followed by a line feed
    is one boundary. *)
Fixpoint splitlines (s : str) : list str :=
  match s with
  | [] => []
  | c :: s' =>
      if is_linebreak c then
        [] :: match s' with
              | d :: s'' =>
                  if (c =? 13) && (d =? 10) then splitlines s''
                  else splitlines s'
              | [] => []
              end
      else cons_line c (splitlines s')
  end.

(** [s.split()]: the maximal runs of characters that are not white
    space. *)
Fixpoint split_ws (s : str) : list str :=
  match s with
  | [] => []
  | c :: s' =>
      if is_space c then split_ws s'
      else match s' with
           | [] => [[c]]
           | d :: _ => if is_space d then [c] :: split_ws s'
                       else cons_line c (split_ws s')
           end
  end.

(** Truth value of a string. *)
Definition nonempty (s : str) : bool :=
  match s with [] => false | _ => true end.

Definition is_ascii (s : str) : bool := forallb (fun c => c <? 128) s.

(** [str.lower] restricted to the ASCII letters. *)
Definition ascii_lower_char (c : Z) : Z :=
  if (65 <=? c) && (c <=? 90) then c + 32 else c.

Definition ascii_lower (s : str) : str := map ascii_lower_char s.

End Py.

(** ** UTF-8 *)

Module Utf8.
Import Py.

(** The [errors] argument of [bytes.decode]. *)
Inductive errors := Strict | Replace.

Definition is_cont (b : Z) : bool := (128 <=? b) && (b <? 192).

(** A decoded character followed by the rest of the decoding. *)
Definition good (c : Z) (k : option str) : option str :=
  option_map (cons c) k.

(** An undecodable range: an exception under [Strict], one U+FFFD under
    [Replace]. *)
Definition bad (e : errors) (k : option str) : option str :=
  match e with
  | Strict => None
  | Replace => option_map (cons 65533) k
  end.

(** [bs.decode("utf-8", errors)]; [None] is [UnicodeDecodeError].  An
    invalid start byte is a range of its own; an invalid continuation
    byte ends the range before it; a sequence cut short by the end of the
    data is one range. *)
Fixpoint decode (e : errors) (bs : bytes) : option str :=
  match bs with
  | [] => Some []
  | b1 :: r1 =>
      if b1 <? 128 then good b1 (decode e r1)
      else if b1 <? 194 then bad e (decode e r1)
      else if b1 <? 224 then
        match r1 with
        | [] => bad e (Some [])
        | b2 :: r2 =>
            if is_cont b2
            then good (Z.shiftl b1 6 + b2 - (Z.shiftl 192 6 + 128))
                      (decode e r2)
            else bad e (decode e r1)
        end
      else if b1 <? 240 then
        match r1 with
        | [] => bad e (Some [])
        | b2 :: r2 =>
            if negb (is_cont b2)
               || (if b2 <? 160 then b1 =? 224 else b1 =? 237)
            then bad e (decode e r1)
            else
              match r2 with
              | [] => bad e (Some [])
              | b3 :: r3 =>
                  if is_cont b3
                  then good (Z.shiftl b1 12 + Z.shiftl b2 6 + b3
                             - (Z.shiftl 224 12 + Z.shiftl 128 6 + 128))
                            (decode e r3)
                  else bad e (decode e r2)
              end
        end
      else if b1 <? 245 then
        match r1 with
        | [] => bad e (Some [])
        | b2 :: r2 =>
            if negb (is_cont b2)
               || (if b2 <? 144 then b1 =? 240 else b1 =? 244)
            then bad e (decode e r1)
            else
              match r2 with
              | [] => bad e (Some [])
              | b3 :: r3 =>
                  if negb (is_cont b3) then bad e (decode e r2)
                  else
                    match r3 with
                    | [] => bad e (Some [])
                    | b4 :: r4 =>
                        if is_cont b4
                        then good (Z.shiftl b1 18 + Z.shiftl b2 12
                                   + Z.shiftl b3 6 + b4
                                   - (Z.shiftl 240 18 + Z.shiftl 128 12
                                      + Z.shiftl 128 6 + 128))
                                  (decode e r4)
                        else bad e (decode e r3)
                    end
              end
        end
      else bad e (decode e r1)
  end.

(** [errors="replace"] never raises. *)
Definition decode_replace (bs : bytes) : str :=
  match decode Replace bs with Some s => s | None => [] end.

(** A code point [str.encode("utf-8")] accepts: a Unicode scalar
    value. *)
Definition is_scalar (c : Z) : bool :=
  ((0 <=? c) && (c <? 55296)) || ((57344 <=? c) && (c <? 1114112)).

Definition encode_char (c : Z) : bytes :=
  if c <? 128 then [c]
  else if c <? 2048 then [192 + c / 64; 128 + c mod 64]
  else if c <? 65536 then
    [224 + c / 4096; 128 + (c / 64) mod 64; 128 + c mod 64]
  else
    [240 + c / 262144; 128 + (c / 4096) mod 64; 128 + (c / 64) mod 64;
     128 + c mod 64].

(** [s.encode("utf-8")]; [None] is [UnicodeEncodeError] (a surrogate). *)
Fixpoint encode (s : str) : option bytes :=
  match s with
  | [] => Some []
  | c :: s' =>
      if is_scalar c
      then option_map (app (encode_char c)) (encode s')
      else None
  end.

End Utf8.

(** ** Base64 *)

Module Base64.
Import Py.

(** [table_a2b_base64]: the value of a base64 digit, 64 for any other
    octet. *)
Definition table_a2b (c : Z) : Z :=
  if (65 <=? c) && (c <=? 90) then c - 65
  else if (97 <=? c) && (c <=? 122) then c - 71
  else if (48 <=? c) && (c <=? 57) then c + 4
  else if c =? 43 then 62
  else if c =? 47 then 63
  else 64.

(** The loop of [binascii.a2b_base64] outside strict mode, over the
    input that is left; the state is the position in the quad, the bits
    carried over and the count of pad characters seen.  [None] is
    [binascii.Error]. *)
Fixpoint a2b_loop (quad_pos leftchar pads : Z) (s : bytes) : option bytes :=
  match s with
  | [] => if quad_pos =? 0 then Some [] else None
  | ch :: s' =>
      if ch =? 61 then
        if quad_pos >=? 2 then
          if quad_pos + (pads + 1) >=? 4 then Some []
          else a2b_loop quad_pos leftchar (pads + 1) s'
        else a2b_loop quad_pos leftchar pads s'
      else
        let this_ch := table_a2b ch in
        if this_ch >=? 64 then a2b_loop quad_pos leftchar pads s'
        else if quad_pos =? 0 then a2b_loop 1 this_ch 0 s'
        else if quad_pos =? 1 then
          option_map
            (cons (Z.land (Z.lor (Z.shiftl leftchar 2) (Z.shiftr this_ch 4)) 255))
            (a2b_loop 2 (Z.land this_ch 15) 0 s')
        else if quad_pos =? 2 then
          option_map
            (cons (Z.land (Z.lor (Z.shiftl leftchar 4) (Z.shiftr this_ch 2)) 255))
            (a2b_loop 3 (Z.land this_ch 3) 0 s')
        else
          option_map
            (cons (Z.land (Z.lor (Z.shiftl leftchar 6) this_ch) 255))
            (a2b_loop 0 0 0 s')
  end.

Definition a2b_base64 (s : bytes) : option bytes := a2b_loop 0 0 0 s.

(** [base64.b64decode(s)] of a [str]: the text has to be ASCII
    ([ValueError] otherwise). *)
Definition b64decode (s : str) : option bytes :=
  if is_ascii s then a2b_base64 s else None.

(** [base64.urlsafe_b64decode(s)]: [-] and [_] stand for [+] and [/]. *)
Definition urlsafe_translate (c : Z) : Z :=
  if c =? 45 then 43 else if c =? 95 then 47 else c.

Definition urlsafe_b64decode (s : str) : option bytes :=
  if is_ascii s then a2b_base64 (map urlsafe_translate s) else None.

(** The base64 digit of a 6-bit value, in the standard or in the
    URL-safe alphabet. *)
Definition digit (urlsafe : bool) (v : Z) : Z :=
  if v <? 26 then v + 65
  else if v <? 52 then v + 71
  else if v <? 62 then v - 4
  else if v =? 62 then (if urlsafe then 45 else 43)
  else (if urlsafe then 95 else 47).

(** Base64 text of octets: three octets give four digits; the last
    group is padded with [=] when [pad] is set. *)
Fixpoint encode (urlsafe pad : bool) (bs : bytes) : str :=
  match bs with
  | [] => []
  | [a] =>
      digit urlsafe (a / 4) :: digit urlsafe ((a mod 4) * 16)
      :: (if pad then [61; 61] else [])
  | [a; b] =>
      digit urlsafe (a / 4) :: digit urlsafe ((a mod 4) * 16 + b / 16)
      :: digit urlsafe ((b mod 16) * 4)
      :: (if pad then [61] else [])
  | a :: b :: c :: rest =>
      digit urlsafe (a / 4) :: digit urlsafe ((a mod 4) * 16 + b / 16)
      :: digit urlsafe ((b mod 16) * 4 + c / 64) :: digit urlsafe (c mod 64)
      :: encode urlsafe pad rest
  end.

(** [base64.b64encode(bs)], as text. *)
Definition b64encode (bs : bytes) : str := encode false true bs.

(** Octets: [bytes] holds nothing else. *)
Definition is_octets (bs : bytes) : bool :=
  forallb (fun b => (0 <=? b) && (b <? 256)) bs.

End Base64.

(** ** Python values, dictionaries, exceptions *)

Module Val.
Import Py.

(** Key lookup in an insertion-ordered dictionary. *)
Fixpoint assoc {A : Type} (k : str) (d : list (str * A)) : option A :=
  match d with
  | [] => None
  | (k', v) :: d' => if str_eqb k k' then Some v else assoc k d'
  end.

(** [d[k] = v]: an existing key keeps its place, a new one goes last. *)
Fixpoint assoc_set {A : Type} (k : str) (v : A) (d : list (str * A))
  : list (str * A) :=
  match d with
  | [] => [(k, v)]
  | (k', v') :: d' =>
      if str_eqb k k' then (k, v) :: d' else (k', v') :: assoc_set k v d'
  end.

(** [if c: d[k] = v] *)
Definition set_if {A : Type} (c : bool) (k : str) (v : A)
    (d : list (str * A)) : list (str * A) :=
  if c then assoc_set k v d else d.

(** The values that JSON and YAML documents and the proxy records are
    made of; mapping keys are strings.  Floating-point scalars are left
    out. *)
Inductive pyval :=
| VNone
| VBool (b : bool)
| VInt (n : Z)
| VStr (s : str)
| VList (l : list pyval)
| VDict (d : list (str * pyval)).

Definition dict := list (str * pyval).

(** Python's [==]: [True] and [False] are the integers 1 and 0, lists
    compare element by element, dictionaries key by key whatever the
    order. *)
Fixpoint py_eqb (a b : pyval) {struct a} : bool :=
  match a, b with
  | VNone, VNone => true
  | VBool x, VBool y => Bool.eqb x y
  | VBool x, VInt n => n =? (if x then 1 else 0)
  | VInt n, VBool x => n =? (if x then 1 else 0)
  | VInt m, VInt n => m =? n
  | VStr s, VStr t => str_eqb s t
  | VList l, VList m =>
      (fix go (l m : list pyval) : bool :=
         match l, m with
         | [], [] => true
         | x :: l', y :: m' => py_eqb x y && go l' m'
         | _, _ => false
         end) l m
  | VDict d, VDict e =>
      Nat.eqb (List.length d) (List.length e)
      && (fix go (d : dict) : bool :=
            match d with
            | [] => true
            | (k, v) :: d' =>
                match assoc k e with
                | Some w => py_eqb v w
                | None => false
                end && go d'
            end) d
  | _, _ => false
  end.

(** [x in l] *)
Definition py_in (x : pyval) (l : list pyval) : bool :=
  existsb (fun y => py_eqb y x) l.

(** Truth value. *)
Definition truthy (v : pyval) : bool :=
  match v with
  | VNone => false
  | VBool b => b
  | VInt n => negb (n =? 0)
  | VStr s => nonempty s
  | VList l => match l with [] => false | _ => true end
  | VDict d => match d with [] => false | _ => true end
  end.

(** [a or b] *)
Definition py_or (a b : pyval) : pyval := if truthy a then a else b.

Definition of_opt_str (o : option str) : pyval :=
  match o with Some s => VStr s | None => VNone end.

(** The exceptions the code can meet, by the class an [except] clause
    sees: decoding errors of [binascii], [bytes.decode] and [json] are
    [ValueError]s; [YAMLError] is what [yaml.load] raises for a text that
    is no YAML. *)
Inductive exn :=
| IndexError
| ValueError
| AttributeError
| KeyError
| TypeError (msg : str)
| OSError
| YAMLError.

Inductive outcome (A : Type) :=
| Ret (a : A)
| Raise (e : exn).
Arguments Ret {A} a.
Arguments Raise {A} e.

Definition bind {A B : Type} (m : outcome A) (f : A -> outcome B)
  : outcome B :=
  match m with
  | Ret a => f a
  | Raise e => Raise e
  end.

(** A library call that raises [e] when it has no result. *)
Definition orelse {A : Type} (o : option A) (e : exn) : outcome A :=
  match o with Some a => Ret a | None => Raise e end.

(** [try: ... except Exception: return None] *)
Definition except_none {A : Type} (m : outcome (option A))
  : outcome (option A) :=
  match m with
  | Ret r => Ret r
  | Raise _ => Ret None
  end.

End Val.

Declare Scope py_scope.
Delimit Scope py_scope with py.
Notation "x <- m ;; f" := (Val.bind m (fun x => f))
  (at level 61, m at next level, right associativity) : py_scope.
Notation "' p <- m ;; f" := (Val.bind m (fun p => f))
  (at level 61, p pattern, m at next level, right associativity) : py_scope.

(** ** The part of the Python runtime that lies outside the repository *)

Record runtime := {
  (** [str.lower] *)
  str_lower : Py.str -> Py.str;
  (** the decimal digit value of a code point from 127 on *)
  unicode_decimal : Z -> option Z;
  (** [urllib.parse._check_bracketed_host] accepts the host *)
  bracketed_host_ok : Py.str -> bool;
  (** [urllib.parse._checknetloc] accepts a netloc that is not ASCII *)
  nfkc_ok : Py.str -> bool;
  (** [json.loads]; [None] when it raises *)
  json_loads : Py.str -> option Val.pyval;
  (** [type(v).__name__] of a node the YAML engine has loaded *)
  type_name : Val.pyval -> Py.str;
  (** [str(v)] of such a node when it is not a string *)
  str_of : Val.pyval -> Py.str
}.

(** ** [int], [urllib.parse] *)

Module Lib.
Import Py Val.
Local Open Scope py_scope.

Section WithRuntime.
Variable rt : runtime.

(** *** [int(s)] *)

(** [_PyUnicode_TransformDecimalAndSpaceToASCII]: ASCII stays, other
    white space becomes a blank, other decimal digits their ASCII digit;
    the text ends with a [?] at the first other character. *)
Fixpoint to_ascii_decimal (s : str) : str :=
  match s with
  | [] => []
  | c :: s' =>
      if c <? 127 then c :: to_ascii_decimal s'
      else if is_space c then 32 :: to_ascii_decimal s'
      else match unicode_decimal rt c with
           | Some d => (48 + d) :: to_ascii_decimal s'
           | None => [63]
           end
  end.

(** C's [isspace] *)
Definition c_isspace (c : Z) : bool :=
  ((9 <=? c) && (c <=? 13)) || (c =? 32).

Fixpoint skip_c_space (s : str) : str :=
  match s with
  | [] => []
  | c :: s' => if c_isspace c then skip_c_space s' else s
  end.

Definition is_digit (c : Z) : bool := (48 <=? c) && (c <=? 57).

(** The digits of a decimal literal, with single underscores between
    them: the value so far, the number of digits so far, the previous
    character, and what is left.  [None]: two underscores in a row. *)
Fixpoint scan_digits (acc : Z) (digits : Z) (prev : Z) (s : str)
  : option (Z * Z * Z * str) :=
  match s with
  | [] => Some (acc, digits, prev, [])
  | c :: s' =>
      if is_digit c then scan_digits (10 * acc + (c - 48)) (digits + 1) c s'
      else if c =? 95 then
        if prev =? 95 then None else scan_digits acc digits c s'
      else Some (acc, digits, prev, s)
  end.

(** [sys.get_int_max_str_digits()] *)
Definition int_max_str_digits : Z := 4300.

(** [int(s)] of a [str]; [None] is [ValueError]. *)
Definition int_of_str (s : str) : option Z :=
  let t := skip_c_space (to_ascii_decimal s) in
  let '(sign, t) :=
    match t with
    | c :: t' =>
        if c =? 43 then (1, t') else if c =? 45 then (-1, t') else (1, t)
    | [] => (1, t)
    end in
  match t with
  | c :: _ =>
      if c =? 95 then None
      else match scan_digits 0 0 0 t with
           | Some (n, digits, prev, rest) =>
               if (prev =? 95) || (digits =? 0)
                  || (int_max_str_digits <? digits) then None
               else match skip_c_space rest with
                    | [] => Some (sign * n)
                    | _ => None
                    end
           | None => None
           end
  | [] => None
  end.

(** *** [urllib.parse.unquote] *)

Definition hex_value (c : Z) : option Z :=
  if (48 <=? c) && (c <=? 57) then Some (c - 48)
  else if (65 <=? c) && (c <=? 70) then Some (c - 55)
  else if (97 <=? c) && (c <=? 102) then Some (c - 87)
  else None.

(** [unquote_to_bytes] of an ASCII run: [%XX] is one octet, any other
    [%] stands for itself. *)
Fixpoint unquote_to_bytes (s : str) : bytes :=
  match s with
  | [] => []
  | c :: s' =>
      if c =? 37 then
        match s' with
        | h1 :: h2 :: s'' =>
            match hex_value h1, hex_value h2 with
            | Some a, Some b => (16 * a + b) :: unquote_to_bytes s''
            | _, _ => c :: unquote_to_bytes s'
            end
        | _ => c :: unquote_to_bytes s'
        end
      else c :: unquote_to_bytes s'
  end.

(** The maximal ASCII runs are unquoted and decoded one by one, the
    characters between them are kept; [run] is the current run,
    reversed. *)
Fixpoint unquote_runs (run : str) (s : str) : str :=
  match s with
  | [] => Utf8.decode_replace (unquote_to_bytes (rev run))
  | c :: s' =>
      if c <? 128 then unquote_runs (c :: run) s'
      else Utf8.decode_replace (unquote_to_bytes (rev run))
           ++ c :: unquote_runs [] s'
  end.

(** [unquote(s)], with its defaults [encoding="utf-8"],
    [errors="replace"]. *)
Definition unquote (s : str) : str :=
  if contains [37] s then unquote_runs [] s else s.

(** *** [urllib.parse.parse_qs] *)

(** [parse_qsl(qs)] with its defaults: fields are separated by [&], a
    field without [=] or with a blank value is dropped. *)
Definition parse_qsl (qs : str) : list (str * str) :=
  if nonempty qs then
    flat_map
      (fun name_value =>
         match split_n [61] 1 name_value with
         | [name; value] =>
             if nonempty value
             then [(unquote (replace_char 43 [32] name),
                    unquote (replace_char 43 [32] value))]
             else []
         | _ => []
         end)
      (split [38] qs)
  else [].

(** The result of [parse_qs]: each name with the list of its values,
    which is never empty; here its first value and the others. *)
Definition query_dict := list (str * (str * list str)).

Fixpoint parse_qs_add (pairs : list (str * str)) (d : query_dict)
  : query_dict :=
  match pairs with
  | [] => d
  | (name, value) :: pairs' =>
      parse_qs_add pairs'
        (match assoc name d with
         | Some (v0, vs) => assoc_set name (v0, vs ++ [value]) d
         | None => assoc_set name (value, []) d
         end)
  end.

Definition parse_qs (qs : str) : query_dict := parse_qs_add (parse_qsl qs) [].

(** *** [urllib.parse.urlparse] *)

(** The components of a [ParseResult] the decoders read. *)
Record parse_result := {
  scheme : str;
  netloc : str;
  query : str;
  fragment : str
}.

(** [url.lstrip(_WHATWG_C0_CONTROL_OR_SPACE)] *)
Fixpoint lstrip_c0 (s : str) : str :=
  match s with
  | [] => []
  | c :: s' => if (0 <=? c) && (c <=? 32) then lstrip_c0 s' else s
  end.

(** [_UNSAFE_URL_BYTES_TO_REMOVE]: tab, carriage return, line feed *)
Definition remove_unsafe (s : str) : str :=
  filter (fun c => negb ((c =? 9) || (c =? 13) || (c =? 10))) s.

Definition is_ascii_alpha (c : Z) : bool :=
  ((65 <=? c) && (c <=? 90)) || ((97 <=? c) && (c <=? 122)).

Definition is_scheme_char (c : Z) : bool :=
  is_ascii_alpha c || is_digit c || (c =? 43) || (c =? 45) || (c =? 46).

(** [_splitnetloc(url, 2)]: the netloc ends before the first of [/], [?]
    and [#]. *)
Fixpoint splitnetloc (s : str) : str * str :=
  match s with
  | [] => ([], [])
  | c :: s' =>
      if (c =? 47) || (c =? 63) || (c =? 35) then ([], s)
      else let '(n, r) := splitnetloc s' in (c :: n, r)
  end.

(** [s.partition(sep)] *)
Definition partition (sep s : str) : str * bool * str :=
  match cut sep s with
  | Some (a, b) => (a, true, b)
  | None => (s, false, [])
  end.

(** [s.rpartition(sep)] *)
Definition rpartition (sep s : str) : str * bool * str :=
  match cut (rev sep) (rev s) with
  | Some (b, a) => (rev a, true, rev b)
  | None => ([], false, s)
  end.

(** [urlsplit(url)]; the path, which the decoders do not read, is left
    out.  [None] is [ValueError]. *)
Definition urlsplit (url : str) : option parse_result :=
  let url := remove_unsafe (lstrip_c0 url) in
  let '(scheme, url) :=
    match cut [58] url with
    | Some (c :: s, rest) =>
        if is_ascii_alpha c && forallb is_scheme_char (c :: s)
        then (ascii_lower (c :: s), rest)
        else ([], url)
    | _ => ([], url)
    end in
  let '(netloc, url, ok) :=
    match url with
    | 47 :: 47 :: url' =>
        let '(netloc, rest) := splitnetloc url' in
        let lb := contains [91] netloc in
        let rb := contains [93] netloc in
        if (lb && negb rb) || (rb && negb lb) then (netloc, rest, false)
        else if lb && rb then
          let '(_, _, after) := partition [91] netloc in
          let '(bracketed_host, _, _) := partition [93] after in
          (netloc, rest, bracketed_host_ok rt bracketed_host)
        else (netloc, rest, true)
    | _ => ([], url, true)
    end in
  let '(url, fragment) :=
    match cut [35] url with
    | Some (a, b) => (a, b)
    | None => (url, [])
    end in
  let '(url, query) :=
    match cut [63] url with
    | Some (a, b) => (a, b)
    | None => (url, [])
    end in
  if ok && (negb (nonempty netloc) || is_ascii netloc || nfkc_ok rt netloc)
  then Some {| scheme := scheme; netloc := netloc; query := query;
               fragment := fragment |}
  else None.

(** [urlparse] splits the parameters off the path and nothing else. *)
Definition urlparse (url : str) : option parse_result := urlsplit url.

(** [u.username] *)
Definition username (u : parse_result) : option str :=
  let '(userinfo, have_info, _) := rpartition [64] (netloc u) in
  if have_info then
    let '(name, _, _) := partition [58] userinfo in Some name
  else None.

(** [u._hostinfo] *)
Definition hostinfo (u : parse_result) : str * option str :=
  let '(_, _, hostinfo) := rpartition [64] (netloc u) in
  let '(_, have_open_br, bracketed) := partition [91] hostinfo in
  let '(hostname, port) :=
    if have_open_br then
      let '(hostname, _, port) := partition [93] bracketed in
      let '(_, _, port) := partition [58] port in (hostname, port)
    else
      let '(hostname, _, port) := partition [58] hostinfo in (hostname, port)
  in
  (hostname, if nonempty port then Some port else None).

(** [u.hostname] *)
Definition hostname (u : parse_result) : option str :=
  let hostname := fst (hostinfo u) in
  if nonempty hostname then
    let '(hostname, percent, zone) := partition [37] hostname in
    Some (str_lower rt hostname ++ (if percent then [37] else []) ++ zone)
  else None.

Fixpoint decimal (acc : Z) (s : str) : Z :=
  match s with
  | [] => acc
  | c :: s' => decimal (10 * acc + (c - 48)) s'
  end.

(** [u.port]: [None] inside is an absent port, [Raise] a port that is
    not a number of ASCII digits in 0..65535 ([int] refuses more than
    [int_max_str_digits] digits). *)
Definition port (u : parse_result) : outcome (option Z) :=
  match snd (hostinfo u) with
  | Some port =>
      if forallb is_digit port
         && (Z.of_nat (List.length port) <=? int_max_str_digits) then
        let n := decimal 0 port in
        if n <=? 65535 then Ret (Some n) else Raise ValueError
      else Raise ValueError
  | None => Ret None
  end.

End WithRuntime.
End Lib.

(** ** converters.py *)

Module Converters.
Import Py Val Lib.
Local Open Scope py_scope.

Section WithRuntime.
Variable rt : runtime.

(** The inner function [q] of [vless_to_clash]:
    [qs.get(key, [default])[0]]. *)
Definition q (qs : query_dict) (key : str) (default : pyval) : pyval :=
  match assoc key qs with
  | Some (v, _) => VStr v
  | None => default
  end.

(** [key in qs] *)
Definition has_key {A : Type} (key : str) (d : list (str * A)) : bool :=
  match assoc key d with Some _ => true | None => false end.

Definition of_opt_int (o : option Z) : pyval :=
  match o with Some n => VInt n | None => VNone end.

(** The [try] block of [vless_to_clash]. *)
Definition vless_body (link : str) : outcome dict :=
  match split_n (lit "#") 1 link with
  | [] => Raise ValueError
  | link :: tag =>
      let name :=
        match tag with
        | t :: _ => unquote t
        | [] => lit "VLESS_Node"
        end in
      u <- orelse (urlparse rt link) ValueError ;;
      let uuid := username u in
      let server := of_opt_str (hostname rt u) in
      port <- port u ;;
      let qs := parse_qs (query u) in
      let q := q qs in
      let proxy : dict :=
        [ (lit "name", VStr name); (lit "type", VStr (lit "vless"));
          (lit "server", server); (lit "port", of_opt_int port);
          (lit "udp", VBool true); (lit "uuid", of_opt_str uuid);
          (lit "network", q (lit "type") (VStr (lit "tcp")));
          (lit "tls",
           VBool (py_in (q (lit "security") VNone)
                        [VStr (lit "tls"); VStr (lit "reality")]));
          (lit "encryption", q (lit "encryption") (VStr (lit "none"))) ] in
      let proxy :=
        set_if (has_key (lit "flow") qs) (lit "flow") (q (lit "flow") VNone)
          proxy in
      let ws_host := q (lit "host") VNone in
      let proxy :=
        set_if match assoc (lit "tls") proxy with
               | Some v => truthy v
               | None => false
               end
          (lit "servername") (py_or ws_host (q (lit "sni") server)) proxy in
      let proxy :=
        set_if (has_key (lit "fp") qs) (lit "client-fingerprint")
          (q (lit "fp") VNone) proxy in
      let proxy :=
        set_if (py_eqb (q (lit "security") VNone) (VStr (lit "reality")))
          (lit "reality-opts")
          (VDict [ (lit "public-key", q (lit "pbk") VNone);
                   (lit "short-id", q (lit "sid") (VStr [])) ]) proxy in
      network <- orelse (assoc (lit "network") proxy) KeyError ;;
      let proxy :=
        set_if (py_eqb network (VStr (lit "ws"))) (lit "ws-opts")
          (VDict [ (lit "path", q (lit "path") (VStr (lit "/")));
                   (lit "headers",
                    VDict [ (lit "Host", py_or ws_host server) ]) ])
          proxy in
      network <- orelse (assoc (lit "network") proxy) KeyError ;;
      let proxy :=
        set_if (py_eqb network (VStr (lit "grpc"))) (lit "grpc-opts")
          (VDict [ (lit "grpc-service-name",
                    q (lit "serviceName") (VStr [])) ]) proxy in
      Ret proxy
  end.

Definition vless_to_clash (link : str) : outcome (option dict) :=
  except_none (p <- vless_body link ;; Ret (Some p)).

(** [vmess_data.get(key, default)]; a value that is not a dictionary has
    no [get]. *)
Definition get (data : pyval) (key : str) (default : pyval)
  : outcome pyval :=
  match data with
  | VDict d =>
      Ret match assoc key d with Some v => v | None => default end
  | _ => Raise AttributeError
  end.

(** The [try] block of [vmess_to_clash]. *)
Definition vmess_body (link : str) : outcome dict :=
  payload <- orelse (nth_error (split (lit "vmess://") link) 1) IndexError ;;
  raw <- orelse (Base64.b64decode payload) ValueError ;;
  decoded_part <- orelse (Utf8.decode Utf8.Strict raw) ValueError ;;
  vmess_data <- orelse (json_loads rt decoded_part) ValueError ;;
  ps <- get vmess_data (lit "ps") (VStr (lit "VMess_Node")) ;;
  add <- get vmess_data (lit "add") VNone ;;
  port <- get vmess_data (lit "port") VNone ;;
  id <- get vmess_data (lit "id") VNone ;;
  aid <- get vmess_data (lit "aid") VNone ;;
  scy <- get vmess_data (lit "scy") (VStr (lit "auto")) ;;
  net <- get vmess_data (lit "net") (VStr (lit "tcp")) ;;
  tls <- get vmess_data (lit "tls") VNone ;;
  let proxy : dict :=
    [ (lit "name", ps); (lit "type", VStr (lit "vmess"));
      (lit "server", add); (lit "port", port); (lit "uuid", id);
      (lit "alterId", aid); (lit "cipher", scy); (lit "udp", VBool true);
      (lit "network", net);
      (lit "tls", VBool (py_eqb tls (VStr (lit "tls")))) ] in
  tls <- orelse (assoc (lit "tls") proxy) KeyError ;;
  proxy <-
    (if truthy tls then
       add <- get vmess_data (lit "add") VNone ;;
       sni <- get vmess_data (lit "sni") add ;;
       Ret (assoc_set (lit "servername") sni proxy)
     else Ret proxy) ;;
  network <- orelse (assoc (lit "network") proxy) KeyError ;;
  proxy <-
    (if py_eqb network (VStr (lit "ws")) then
       path <- get vmess_data (lit "path") (VStr (lit "/")) ;;
       add <- get vmess_data (lit "add") VNone ;;
       host <- get vmess_data (lit "host") add ;;
       Ret (assoc_set (lit "ws-opts")
              (VDict [ (lit "path", path);
                       (lit "headers", VDict [ (lit "Host", host) ]) ])
              proxy)
     else Ret proxy) ;;
  network <- orelse (assoc (lit "network") proxy) KeyError ;;
  proxy <-
    (if py_eqb network (VStr (lit "grpc")) then
       path <- get vmess_data (lit "path") (VStr []) ;;
       Ret (assoc_set (lit "grpc-opts")
              (VDict [ (lit "grpc-service-name", path) ]) proxy)
     else Ret proxy) ;;
  Ret proxy.

Definition vmess_to_clash (link : str) : outcome (option dict) :=
  except_none (p <- vmess_body link ;; Ret (Some p)).

(** The [try] block of [trojan_to_clash]. *)
Definition trojan_body (link : str) : outcome dict :=
  match split_n (lit "#") 1 link with
  | [] => Raise ValueError
  | link :: tag =>
      let name :=
        match tag with
        | t :: _ => unquote t
        | [] => lit "Trojan_Node"
        end in
      u <- orelse (urlparse rt link) ValueError ;;
      let server := of_opt_str (hostname rt u) in
      port <- port u ;;
      let password := of_opt_str (username u) in
      let sni :=
        match assoc (lit "sni") (parse_qs (query u)) with
        | Some (v, _) => VStr v
        | None => of_opt_str (hostname rt u)
        end in
      Ret [ (lit "name", VStr name); (lit "type", VStr (lit "trojan"));
            (lit "server", server); (lit "port", of_opt_int port);
            (lit "password", password); (lit "udp", VBool true);
            (lit "sni", sni) ]
  end.

Definition trojan_to_clash (link : str) : outcome (option dict) :=
  except_none (p <- trojan_body link ;; Ret (Some p)).

(** [a, b = s.split(sep, 1)] *)
Definition unpack2 (parts : list str) : outcome (str * str) :=
  match parts with
  | [a; b] => Ret (a, b)
  | _ => Raise ValueError
  end.

(** The [try] block of [ss_to_clash]. *)
Definition ss_body (link : str) : outcome (option dict) :=
  match strip_prefix (lit "ss://") link with
  | None => Ret None
  | Some uri =>
      '(uri, name) <-
        (if contains (lit "#") uri then
           '(uri, tag) <- unpack2 (split_n (lit "#") 1 uri) ;;
           Ret (uri, unquote tag)
         else Ret (uri, lit "SS_Node")) ;;
      '(method, password, server_port) <-
        (if contains (lit "@") uri then
           '(enc_cred, server_port) <- unpack2 (split_n (lit "@") 1 uri) ;;
           raw <- orelse (Base64.urlsafe_b64decode (enc_cred ++ lit "=="))
                    ValueError ;;
           cred <- orelse (Utf8.decode Utf8.Strict raw) ValueError ;;
           '(method, password) <- unpack2 (split_n (lit ":") 1 cred) ;;
           Ret (method, password, server_port)
         else
           raw <- orelse (Base64.urlsafe_b64decode (uri ++ lit "=="))
                    ValueError ;;
           decoded <- orelse (Utf8.decode Utf8.Strict raw) ValueError ;;
           '(method, rest) <- unpack2 (split_n (lit ":") 1 decoded) ;;
           '(password, server_port) <- unpack2 (split_n (lit "@") 1 rest) ;;
           Ret (method, password, server_port)) ;;
      '(server, port) <- unpack2 (split_n (lit ":") 1 server_port) ;;
      port <- orelse (int_of_str rt port) ValueError ;;
      Ret (Some [ (lit "name", VStr name); (lit "type", VStr (lit "ss"));
                  (lit "server", VStr server); (lit "port", VInt port);
                  (lit "cipher", VStr method);
                  (lit "password", VStr password) ])
  end.

Definition ss_to_clash (link : str) : outcome (option dict) :=
  except_none (ss_body link).

(** The schemes of the [PARSERS] table. *)
Inductive parser := Vless | Vmess | Trojan | Ss.

Definition scheme_name (p : parser) : str :=
  match p with
  | Vless => lit "vless"
  | Vmess => lit "vmess"
  | Trojan => lit "trojan"
  | Ss => lit "ss"
  end.

(** [PARSERS.get(protocol)] *)
Definition PARSERS_get (protocol : str) : option parser :=
  if str_eqb protocol (lit "vless") then Some Vless
  else if str_eqb protocol (lit "vmess") then Some Vmess
  else if str_eqb protocol (lit "trojan") then Some Trojan
  else if str_eqb protocol (lit "ss") then Some Ss
  else None.

Definition run_parser (p : parser) (link : str) : outcome (option dict) :=
  match p with
  | Vless => vless_to_clash link
  | Vmess => vmess_to_clash link
  | Trojan => trojan_to_clash link
  | Ss => ss_to_clash link
  end.

(** [try: ... except IndexError: return None] *)
Definition except_index_error {A : Type} (m : outcome (option A))
  : outcome (option A) :=
  match m with
  | Raise IndexError => Ret None
  | _ => m
  end.

(** [link_to_clash] of a [str]. *)
Definition link_to_clash (link : str) : outcome (option dict) :=
  except_index_error
    (first <- orelse (nth_error (split (lit "://") link) 0) IndexError ;;
     let protocol := str_lower rt first in
     match PARSERS_get protocol with
     | Some parser => run_parser parser link
     | None => Ret None
     end).

End WithRuntime.
End Converters.

(** ** convert_subscription.py *)

Module ConvertSubscription.
Import Py Val Lib Converters.
Local Open Scope py_scope.

(** [[line.strip() for line in text.splitlines() if line.strip()]] *)
Definition stripped_lines (text : str) : list str :=
  map strip (filter (fun line => nonempty (strip line)) (splitlines text)).

(** The [try] block of [parse_subscription]: [Ret (Some lines)] is its
    [return lines], [Ret None] the end of the block. *)
Definition try_base64 (content : str) : outcome (option (list str)) :=
  let normalized := join [] (split_ws content) in
  raw <- orelse (Base64.b64decode normalized) ValueError ;;
  let decoded := Utf8.decode_replace raw in
  let lines := stripped_lines decoded in
  if existsb (fun line => contains (lit "://") line) lines
  then Ret (Some lines)
  else Ret None.

Definition parse_subscription (content : str) : list str :=
  let content := strip content in
  if negb (nonempty content) then []
  else
    match try_base64 content with
    | Ret (Some lines) => lines
    | _ => stripped_lines content
    end.

Section WithRuntime.
Variable rt : runtime.

(** [convert_links_to_proxies]: an exception of [link_to_clash] would
    end the loop. *)
Fixpoint convert_links_to_proxies (links : list str) : outcome (list dict) :=
  match links with
  | [] => Ret []
  | link :: links' =>
      proxy <- link_to_clash rt link ;;
      rest <- convert_links_to_proxies links' ;;
      Ret match proxy with
          | Some p => p :: rest
          | None => rest
          end
  end.

(** [[p["name"] for p in proxies]] *)
Fixpoint names_of (proxies : list dict) : outcome (list pyval) :=
  match proxies with
  | [] => Ret []
  | p :: ps =>
      name <- orelse (assoc (lit "name") p) KeyError ;;
      rest <- names_of ps ;;
      Ret (name :: rest)
  end.

(** The loop that appends the names not already present. *)
Fixpoint append_new (names_to_add : list pyval) (group_proxies : list pyval)
  : list pyval :=
  match names_to_add with
  | [] => group_proxies
  | name :: names' =>
      append_new names'
        (if negb (py_in name group_proxies)
         then group_proxies ++ [name]
         else group_proxies)
  end.

(** [str(v)] *)
Definition py_str (v : pyval) : str :=
  match v with
  | VStr s => s
  | _ => str_of rt v
  end.

Definition is_speed_type (group_type : str) : bool :=
  str_eqb group_type (lit "url-test")
  || str_eqb group_type (lit "fallback")
  || str_eqb group_type (lit "load-balance").

Definition is_manual_type (group_type : str) : bool :=
  str_eqb group_type (lit "select").

(** The body of [for group in groups], giving the group as the loop
    leaves it.  The group is read by value: its list of names is held by
    nothing else.  [Shared.update_group] has the lists as objects. *)
Definition update_group (proxies : list dict)
    (add_to_speedtest add_to_manual : bool) (group : pyval)
  : outcome pyval :=
  match group with
  | VDict g =>
      let group_type :=
        str_lower rt
          (py_str match assoc (lit "type") g with
                  | Some v => v
                  | None => VStr []
                  end) in
      match assoc (lit "proxies") g with
      | Some (VList group_proxies) =>
          let is_speed_group := is_speed_type group_type in
          let is_manual_group := is_manual_type group_type in
          names_to_add <-
            (if add_to_speedtest && is_speed_group then names_of proxies
             else if add_to_manual && is_manual_group then names_of proxies
             else Ret []) ;;
          Ret (VDict (assoc_set (lit "proxies")
                        (VList (append_new names_to_add group_proxies)) g))
      | _ => Ret group
      end
  | _ => Ret group
  end.

Fixpoint update_groups (proxies : list dict)
    (add_to_speedtest add_to_manual : bool) (groups : list pyval)
  : outcome (list pyval) :=
  match groups with
  | [] => Ret []
  | group :: groups' =>
      group <- update_group proxies add_to_speedtest add_to_manual group ;;
      rest <- update_groups proxies add_to_speedtest add_to_manual groups' ;;
      Ret (group :: rest)
  end.

Definition expected_list (key : str) (v : pyval) : exn :=
  TypeError (lit "Expected '" ++ key ++ lit "' to be a list, got "
             ++ type_name rt v).

(** What [update_yaml] does to the loaded document between [yaml.load]
    and [yaml.dump], for a document read by value: no list of it is held
    in two places (no YAML alias).  [Shared.merge] has the lists as
    objects. *)
Definition merge (loaded : pyval) (proxies : list dict)
    (add_to_speedtest add_to_manual : bool) : outcome dict :=
  let data := if truthy loaded then loaded else VDict [] in
  match data with
  | VDict data =>
      let '(data, proxies_section) :=
        match assoc (lit "proxies") data with
        | None | Some VNone =>
            (assoc_set (lit "proxies") (VList []) data, VList [])
        | Some v => (data, v)
        end in
      match proxies_section with
      | VList section =>
          let data :=
            assoc_set (lit "proxies") (VList (section ++ map VDict proxies))
              data in
          if add_to_speedtest || add_to_manual then
            match assoc (lit "proxy-groups") data with
            | None => Ret data
            | Some (VList groups) =>
                groups <- update_groups proxies add_to_speedtest
                            add_to_manual groups ;;
                Ret (assoc_set (lit "proxy-groups") (VList groups) data)
            | Some groups => Raise (expected_list (lit "proxy-groups") groups)
            end
          else Ret data
      | v => Raise (expected_list (lit "proxies") v)
      end
  | _ => Raise AttributeError
  end.

(** [posixpath.splitext] *)
Definition splitext (p : str) : str * str :=
  let '(_, _, name) := rpartition [47] p in
  let dir := firstn (List.length p - List.length name) p in
  match rpartition [46] name with
  | (base, true, ext) =>
      if forallb (fun c => c =? 46) base then (p, [])
      else (dir ++ base, 46 :: ext)
  | _ => (p, [])
  end.

(** The files: a path with the document its text stands for.  Every
    file loads and every path can be written to; [Shared.update_yaml]
    has files that do not load and paths that cannot be written. *)
Definition fs := list (str * pyval).

(** [update_yaml]: the files afterwards and the path returned or the
    exception raised, for such files and a document read by value. *)
Definition update_yaml (files : fs) (config_path : str) (proxies : list dict)
    (add_to_speedtest add_to_manual : bool) (output_path : option str)
  : fs * outcome str :=
  match assoc config_path files with
  | None => (files, Raise OSError)
  | Some loaded =>
      match merge loaded proxies add_to_speedtest add_to_manual with
      | Raise e => (files, Raise e)
      | Ret data =>
          let output_path :=
            match output_path with
            | Some (c :: o) => c :: o
            | _ =>
                let '(base, ext) := splitext config_path in
                base ++ lit "_merged"
                ++ (if nonempty ext then ext else lit ".yaml")
            end in
          (assoc_set output_path (VDict data) files, Ret output_path)
      end
  end.

End WithRuntime.
End ConvertSubscription.

(** ** A runtime to run the code on

    [json.loads] for documents without floating-point numbers, with the
    ASCII part of the Unicode tables and the class names of the built-in
    types.  It agrees with CPython on ASCII links without bracketed
    hosts: a bracketed host and a netloc that is not ASCII, which it has
    no means to check, it refuses, and it knows no digit and no letter
    outside ASCII. *)

Module Reference.
Import Py Val Lib.

Fixpoint json_ws (s : str) : str :=
  match s with
  | [] => []
  | c :: s' =>
      if (c =? 32) || (c =? 9) || (c =? 10) || (c =? 13) then json_ws s'
      else s
  end.

(** Four hexadecimal digits. *)
Definition hex4 (s : str) : option (Z * str) :=
  match s with
  | a :: b :: c :: d :: rest =>
      match hex_value a, hex_value b, hex_value c, hex_value d with
      | Some a, Some b, Some c, Some d =>
          Some (((a * 16 + b) * 16 + c) * 16 + d, rest)
      | _, _, _, _ => None
      end
  | _ => None
  end.

(** The text of a string literal after its opening quote: the string and
    what follows the closing quote. *)
Fixpoint json_string (fuel : nat) (s : str) : option (str * str) :=
  match fuel with
  | O => None
  | S fuel =>
      match s with
      | [] => None
      | 34 :: rest => Some ([], rest)
      | 92 :: e :: rest =>
          let simple (c : Z) :=
            match json_string fuel rest with
            | Some (t, r) => Some (c :: t, r)
            | None => None
            end in
          if e =? 34 then simple 34
          else if e =? 92 then simple 92
          else if e =? 47 then simple 47
          else if e =? 98 then simple 8
          else if e =? 102 then simple 12
          else if e =? 110 then simple 10
          else if e =? 114 then simple 13
          else if e =? 116 then simple 9
          else if e =? 117 then
            match hex4 rest with
            | Some (c, rest) =>
                let single :=
                  match json_string fuel rest with
                  | Some (t, r) => Some (c :: t, r)
                  | None => None
                  end in
                if (55296 <=? c) && (c <=? 56319) then
                  match rest with
                  | 92 :: 117 :: rest2 =>
                      match hex4 rest2 with
                      | Some (c2, rest3) =>
                          if (56320 <=? c2) && (c2 <=? 57343) then
                            match json_string fuel rest3 with
                            | Some (t, r) =>
                                Some (65536 + (c - 55296) * 1024
                                      + (c2 - 56320) :: t, r)
                            | None => None
                            end
                          else single
                      | None => None
                      end
                  | _ => single
                  end
                else single
            | None => None
            end
          else None
      | c :: rest =>
          if c <? 32 then None
          else match json_string fuel rest with
               | Some (t, r) => Some (c :: t, r)
               | None => None
               end
      end
  end.

Fixpoint json_digits (acc digits : Z) (s : str) : Z * Z * str :=
  match s with
  | c :: s' =>
      if is_digit c then json_digits (10 * acc + (c - 48)) (digits + 1) s'
      else (acc, digits, s)
  | [] => (acc, digits, [])
  end.

(** An integer literal; a fraction or an exponent would make it a
    float. *)
Definition json_int (s : str) : option (Z * str) :=
  let '(sign, s) :=
    match s with
    | 45 :: s' => (-1, s')
    | _ => (1, s)
    end in
  match s with
  | 48 :: rest =>
      match rest with
      | c :: _ => if (c =? 46) || (c =? 101) || (c =? 69) then None
                  else Some (0, rest)
      | [] => Some (0, rest)
      end
  | c :: _ =>
      if is_digit c then
        let '(n, digits, rest) := json_digits 0 0 s in
        if int_max_str_digits <? digits then None
        else match rest with
             | c :: _ => if (c =? 46) || (c =? 101) || (c =? 69) then None
                         else Some (sign * n, rest)
             | [] => Some (sign * n, rest)
             end
      else None
  | [] => None
  end.

(** A value, then the members of an object after a key is due, then the
    elements of an array after an element is due. *)
Fixpoint json_value (fuel : nat) (s : str) : option (pyval * str) :=
  match fuel with
  | O => None
  | S fuel =>
      match s with
      | 34 :: rest =>
          match json_string (S (List.length rest)) rest with
          | Some (t, r) => Some (VStr t, r)
          | None => None
          end
      | 123 :: rest =>
          match json_ws rest with
          | 125 :: r => Some (VDict [], r)
          | rest =>
              match json_members fuel [] rest with
              | Some (d, r) => Some (VDict d, r)
              | None => None
              end
          end
      | 91 :: rest =>
          match json_ws rest with
          | 93 :: r => Some (VList [], r)
          | rest =>
              match json_elements fuel rest with
              | Some (l, r) => Some (VList l, r)
              | None => None
              end
          end
      | 110 :: 117 :: 108 :: 108 :: r => Some (VNone, r)
      | 116 :: 114 :: 117 :: 101 :: r => Some (VBool true, r)
      | 102 :: 97 :: 108 :: 115 :: 101 :: r => Some (VBool false, r)
      | _ =>
          match json_int s with
          | Some (n, r) => Some (VInt n, r)
          | None => None
          end
      end
  end
with json_members (fuel : nat) (d : dict) (s : str) : option (dict * str) :=
  match fuel with
  | O => None
  | S fuel =>
      match s with
      | 34 :: rest =>
          match json_string (S (List.length rest)) rest with
          | Some (key, r) =>
              match json_ws r with
              | 58 :: r =>
                  match json_value fuel (json_ws r) with
                  | Some (v, r) =>
                      let d := assoc_set key v d in
                      match json_ws r with
                      | 125 :: r => Some (d, r)
                      | 44 :: r => json_members fuel d (json_ws r)
                      | _ => None
                      end
                  | None => None
                  end
              | _ => None
              end
          | None => None
          end
      | _ => None
      end
  end
with json_elements (fuel : nat) (s : str) : option (list pyval * str) :=
  match fuel with
  | O => None
  | S fuel =>
      match json_value fuel s with
      | Some (v, r) =>
          match json_ws r with
          | 93 :: r => Some ([v], r)
          | 44 :: r =>
              match json_elements fuel (json_ws r) with
              | Some (l, r) => Some (v :: l, r)
              | None => None
              end
          | _ => None
          end
      | None => None
      end
  end.

Definition loads (s : str) : option pyval :=
  match json_value (S (List.length s)) (json_ws s) with
  | Some (v, r) =>
      match json_ws r with
      | [] => Some v
      | _ => None
      end
  | None => None
  end.

Fixpoint decimal_digits (fuel : nat) (n : Z) (acc : str) : str :=
  match fuel with
  | O => acc
  | S fuel =>
      if n <? 10 then (48 + n) :: acc
      else decimal_digits fuel (n / 10) ((48 + n mod 10) :: acc)
  end.

Definition str_of_int (n : Z) : str :=
  if n <? 0 then 45 :: decimal_digits (Z.to_nat (- n)) (- n) []
  else decimal_digits (S (Z.to_nat n)) n [].

Definition rt : runtime := {|
  str_lower := ascii_lower;
  unicode_decimal := fun _ => None;
  bracketed_host_ok := fun _ => false;
  nfkc_ok := fun _ => false;
  json_loads := loads;
  type_name := fun v =>
    match v with
    | VNone => lit "NoneType"
    | VBool _ => lit "bool"
    | VInt _ => lit "int"
    | VStr _ => lit "str"
    | VList _ => lit "list"
    | VDict _ => lit "dict"
    end;
  str_of := fun v =>
    match v with
    | VNone => lit "None"
    | VBool true => lit "True"
    | VBool false => lit "False"
    | VInt n => str_of_int n
    | VStr s => s
    | VList _ => lit "[...]"
    | VDict _ => lit "{...}"
    end
|}.

End Reference.

(** ** What the specification says of the records *)

Module Spec.
Import Py Val Lib Converters.

Definition supported_types : list str :=
  [lit "vless"; lit "vmess"; lit "trojan"; lit "ss"].

Definition nonempty_str (v : option pyval) : bool :=
  match v with
  | Some (VStr s) => nonempty s
  | _ => false
  end.

(** The invariant of the data model: a name and a server that are not
    empty, a port in 1..65535, a supported type. *)
Definition well_formed (p : dict) : bool :=
  nonempty_str (assoc (lit "name") p)
  && nonempty_str (assoc (lit "server") p)
  && match assoc (lit "port") p with
     | Some (VInt n) => (1 <=? n) && (n <=? 65535)
     | _ => false
     end
  && match assoc (lit "type") p with
     | Some (VStr t) => existsb (str_eqb t) supported_types
     | _ => false
     end.

(** The [Host] header of the WebSocket options of a record. *)
Definition ws_host_header (p : dict) : option pyval :=
  match assoc (lit "ws-opts") p with
  | Some (VDict o) =>
      match assoc (lit "headers") o with
      | Some (VDict h) => assoc (lit "Host") h
      | _ => None
      end
  | _ => None
  end.

(** The record [vless_to_clash] builds from the parts of a link. *)
Definition vless_record (name : str) (server port uuid : pyval)
    (qs : query_dict) : dict :=
  let network := q qs (lit "type") (VStr (lit "tcp")) in
  let ws_host := q qs (lit "host") VNone in
  let tls :=
    py_in (q qs (lit "security") VNone)
      [VStr (lit "tls"); VStr (lit "reality")] in
  set_if (py_eqb network (VStr (lit "grpc"))) (lit "grpc-opts")
    (VDict [ (lit "grpc-service-name", q qs (lit "serviceName") (VStr [])) ])
  (set_if (py_eqb network (VStr (lit "ws"))) (lit "ws-opts")
    (VDict [ (lit "path", q qs (lit "path") (VStr (lit "/")));
             (lit "headers", VDict [ (lit "Host", py_or ws_host server) ]) ])
  (set_if (py_eqb (q qs (lit "security") VNone) (VStr (lit "reality")))
     (lit "reality-opts")
     (VDict [ (lit "public-key", q qs (lit "pbk") VNone);
              (lit "short-id", q qs (lit "sid") (VStr [])) ])
  (set_if (has_key (lit "fp") qs) (lit "client-fingerprint")
     (q qs (lit "fp") VNone)
  (set_if tls (lit "servername") (py_or ws_host (q qs (lit "sni") server))
  (set_if (has_key (lit "flow") qs) (lit "flow") (q qs (lit "flow") VNone)
     [ (lit "name", VStr name); (lit "type", VStr (lit "vless"));
       (lit "server", server); (lit "port", port);
       (lit "udp", VBool true); (lit "uuid", uuid);
       (lit "network", network); (lit "tls", VBool tls);
       (lit "encryption", q qs (lit "encryption") (VStr (lit "none"))) ]))))).

(** A text without the character [x]. *)
Definition without (x : Z) (s : str) : bool :=
  forallb (fun c => negb (c =? x)) s.

(** The record [ss_to_clash] builds. *)
Definition ss_record (name server : str) (port : Z) (method password : str)
  : dict :=
  [ (lit "name", VStr name); (lit "type", VStr (lit "ss"));
    (lit "server", VStr server); (lit "port", VInt port);
    (lit "cipher", VStr method); (lit "password", VStr password) ].

End Spec.

(** ** What the specification says of the merge *)

Module MergeSpec.
Import Py Val ConvertSubscription.

(** The top-level mapping of a loaded document ([yaml.load(f) or {}]). *)
Definition top_level (loaded : pyval) : dict :=
  match loaded with
  | VDict d => d
  | _ => []
  end.

(** The groups of a document. *)
Definition groups_of (d : dict) : list pyval :=
  match assoc (lit "proxy-groups") d with
  | Some (VList groups) => groups
  | _ => []
  end.

(** The [proxies] list of a group. *)
Definition group_proxies (group : pyval) : option (list pyval) :=
  match group with
  | VDict g =>
      match assoc (lit "proxies") g with
      | Some (VList l) => Some l
      | _ => None
      end
  | _ => None
  end.

(** How often a name is in a list of names. *)
Definition occurrences (name : str) (l : list pyval) : nat :=
  List.length (filter (fun y => py_eqb y (VStr name)) l).

(** The flags make the group take the new names. *)
Definition eligible (rt : runtime) (add_to_speedtest add_to_manual : bool)
    (group : pyval) : bool :=
  match group with
  | VDict g =>
      let group_type :=
        str_lower rt
          (py_str rt match assoc (lit "type") g with
                     | Some v => v
                     | None => VStr []
                     end) in
      (add_to_speedtest && is_speed_type group_type)
      || (add_to_manual && is_manual_type group_type)
  | _ => false
  end.

(** One of the proxies has the name. *)
Definition has_name (name : str) (proxies : list dict) : bool :=
  existsb (fun p => match assoc (lit "name") p with
                    | Some v => py_eqb v (VStr name)
                    | None => false
                    end) proxies.

(** The arguments of one call of [update_yaml], but for the files and
    the path of the configuration. *)
Record call := {
  call_proxies : list dict;
  call_speedtest : bool;
  call_manual : bool;
  call_output : option str
}.

(** Calls of [update_yaml] in a row, each on the file the one before
    has written. *)
Fixpoint update_yaml_seq (rt : runtime) (files : fs) (config_path : str)
    (calls : list call) : fs * outcome str :=
  match calls with
  | [] => (files, Ret config_path)
  | c :: calls' =>
      match update_yaml rt files config_path (call_proxies c)
              (call_speedtest c) (call_manual c) (call_output c) with
      | (files', Ret path) => update_yaml_seq rt files' path calls'
      | r => r
      end
  end.

(** Data for examples: a group of type [select], a proxy with nothing
    but a name, a call that adds it to the groups of manual choice and
    writes to [config.yaml]. *)
Definition select_group (l : list pyval) : pyval :=
  VDict [ (lit "type", VStr (lit "select")); (lit "proxies", VList l) ].

Definition proxy_named (name : str) : dict := [ (lit "name", VStr name) ].

Definition manual_call (name : str) : call :=
  {| call_proxies := [proxy_named name]; call_speedtest := false;
     call_manual := true; call_output := Some (lit "config.yaml") |}.

(** The keys the merge does not touch. *)
Definition untouched (k : str) : bool :=
  negb (str_eqb k (lit "proxies") || str_eqb k (lit "proxy-groups")).

End MergeSpec.

(** ** What the specification says of subscriptions *)

Module SubscriptionSpec.
Import Py Val ConvertSubscription.

(** Nothing but white space. *)
Definition all_space (s : str) : Prop := forallb is_space s = true.

(** The lines of a text, stripped, without the empty ones. *)
Definition stripped (ls : list str) : list str :=
  map strip (filter (fun line => nonempty (strip line)) ls).

(** How the lines of a text grow when white space is put behind it. *)
Inductive grows : list str -> list str -> Prop :=
| grows_same ls : grows ls ls
| grows_new e : all_space e -> grows [] [e]
| grows_last l e : all_space e -> grows [l] [l ++ e]
| grows_cons l ls ls' : grows ls ls' -> grows (l :: ls) (l :: ls').

(** The pad characters the last group of a text without padding still
    needs. *)
Definition pad_needed (bs : Py.bytes) : nat :=
  match (List.length bs mod 3)%nat with
  | 0%nat => 0%nat
  | 1%nat => 2%nat
  | _ => 1%nat
  end.

(** Without white space, without a line boundary. *)
Definition no_space (s : str) : Prop :=
  forallb (fun c => negb (is_space c)) s = true.

Definition no_linebreak (s : str) : bool :=
  forallb (fun c => negb (is_linebreak c)) s.

(** A line of a subscription: not empty, trimmed, without a line
    boundary, with the delimiter of a scheme. *)
Definition is_uri_line (l : str) : bool :=
  nonempty l && str_eqb (strip l) l && no_linebreak l
  && contains (lit "://") l.

(** The base64 reading of a subscription is taken. *)
Definition base64_accepted (content : str) : bool :=
  match Base64.b64decode (join [] (split_ws (strip content))) with
  | Some raw =>
      existsb (fun line => contains (lit "://") line)
        (stripped_lines (Utf8.decode_replace raw))
  | None => false
  end.

End SubscriptionSpec.

(** ** The records of the decoders, in terms of their input *)
Module RecordSpec.
Import Py Val Lib Converters.

(** [d.get(key, default)] *)
Definition get_or (d : dict) (key : str) (default : pyval) : pyval :=
  match assoc key d with Some v => v | None => default end.

(** The record [vmess_to_clash] builds from the decoded JSON object. *)
Definition vmess_record (d : dict) : dict :=
  let net := get_or d (lit "net") (VStr (lit "tcp")) in
  let tls := py_eqb (get_or d (lit "tls") VNone) (VStr (lit "tls")) in
  let add := get_or d (lit "add") VNone in
  set_if (py_eqb net (VStr (lit "grpc"))) (lit "grpc-opts")
    (VDict [ (lit "grpc-service-name", get_or d (lit "path") (VStr [])) ])
  (set_if (py_eqb net (VStr (lit "ws"))) (lit "ws-opts")
    (VDict [ (lit "path", get_or d (lit "path") (VStr (lit "/")));
             (lit "headers",
              VDict [ (lit "Host", get_or d (lit "host") add) ]) ])
  (set_if tls (lit "servername") (get_or d (lit "sni") add)
     [ (lit "name", get_or d (lit "ps") (VStr (lit "VMess_Node")));
       (lit "type", VStr (lit "vmess"));
       (lit "server", add); (lit "port", get_or d (lit "port") VNone);
       (lit "uuid", get_or d (lit "id") VNone);
       (lit "alterId", get_or d (lit "aid") VNone);
       (lit "cipher", get_or d (lit "scy") (VStr (lit "auto")));
       (lit "udp", VBool true); (lit "network", net);
       (lit "tls", VBool tls) ])).

(** The name a decoder gives a link without a fragment. *)
Definition default_name (k : parser) : str :=
  match k with
  | Vless => lit "VLESS_Node"
  | Vmess => lit "VMess_Node"
  | Trojan => lit "Trojan_Node"
  | Ss => lit "SS_Node"
  end.


(** Sample links and the records they stand for. *)
Definition vless_ws_link : str :=
  lit "vless://u1@h.example:443?type=ws&security=reality&pbk=K&host=cdn.example#n1".

Definition vmess_ws_link : str :=
  lit "vmess://eyJ2IjoiMiIsInBzIjoibjEiLCJhZGQiOiJoLmV4YW1wbGUiLCJwb3J0IjoiNDQzIiwiaWQiOiJ1MSIsImFpZCI6IjAiLCJuZXQiOiJ3cyIsInRscyI6InRscyIsImhvc3QiOiJjZG4uZXhhbXBsZSIsInBhdGgiOiIvcCJ9".

Definition vless_ws_record : dict :=
  [ (lit "name", VStr (lit "n1")); (lit "type", VStr (lit "vless"));
    (lit "server", VStr (lit "h.example")); (lit "port", VInt 443);
    (lit "udp", VBool true); (lit "uuid", VStr (lit "u1"));
    (lit "network", VStr (lit "ws")); (lit "tls", VBool true);
    (lit "encryption", VStr (lit "none"));
    (lit "servername", VStr (lit "cdn.example"));
    (lit "reality-opts",
     VDict [ (lit "public-key", VStr (lit "K")); (lit "short-id", VStr []) ]);
    (lit "ws-opts",
     VDict [ (lit "path", VStr (lit "/"));
             (lit "headers",
              VDict [ (lit "Host", VStr (lit "cdn.example")) ]) ]) ].

Definition vmess_ws_record : dict :=
  [ (lit "name", VStr (lit "n1")); (lit "type", VStr (lit "vmess"));
    (lit "server", VStr (lit "h.example")); (lit "port", VStr (lit "443"));
    (lit "uuid", VStr (lit "u1")); (lit "alterId", VStr (lit "0"));
    (lit "cipher", VStr (lit "auto")); (lit "udp", VBool true);
    (lit "network", VStr (lit "ws")); (lit "tls", VBool true);
    (lit "servername", VStr (lit "h.example"));
    (lit "ws-opts",
     VDict [ (lit "path", VStr (lit "/p"));
             (lit "headers",
              VDict [ (lit "Host", VStr (lit "cdn.example")) ]) ]) ].

(** The text of the JSON object with the one member [net], [ws]:
    brace, quote, n, e, t, quote, colon, quote, w, s, quote, brace. *)
Definition json_ws_text : str :=
  [123; 34; 110; 101; 116; 34; 58; 34; 119; 115; 34; 125].
End RecordSpec.

(** ** What the conversion and the merge do to their input *)
Module PipelineSpec.
Import Py Val Lib Converters ConvertSubscription MergeSpec.

(** The records of the links that [link_to_clash] decodes, in the order
    of the links. *)
Definition decoded (rt : runtime) (links : list str) : list dict :=
  flat_map (fun link => match link_to_clash rt link with
                        | Ret (Some p) => [p]
                        | _ => []
                        end) links.

End PipelineSpec.

Module Shared.
Import Py Val Lib Converters ConvertSubscription.
Local Open Scope py_scope.

(** A value of a document: a scalar, a list of the store, a mapping. *)
Inductive dval :=
| DNone
| DBool (b : bool)
| DInt (n : Z)
| DStr (s : str)
| DList (l : nat)
| DDict (d : list (str * dval)).

Definition ddict := list (str * dval).

(** The list objects, each at its place. *)
Definition store := list (list dval).

Definition list_at (st : store) (l : nat) : list dval := nth l st [].

(** [l.append(x)] for the list at place [l]. *)
Fixpoint append_at (l : nat) (x : dval) (st : store) : store :=
  match st, l with
  | [], _ => []
  | old :: st', O => (old ++ [x]) :: st'
  | old :: st', S l' => old :: append_at l' x st'
  end.

(** A value that is no part of the document, put into a store that
    holds [base] lists: the new lists, which go behind those, and the
    value. *)
Fixpoint inject (base : nat) (v : pyval) {struct v}
  : list (list dval) * dval :=
  match v with
  | VNone => ([], DNone)
  | VBool b => ([], DBool b)
  | VInt n => ([], DInt n)
  | VStr s => ([], DStr s)
  | VList l =>
      let '(new, xs) :=
        (fix go (base : nat) (l : list pyval)
           : list (list dval) * list dval :=
           match l with
           | [] => ([], [])
           | x :: l' =>
               let '(new1, x') := inject base x in
               let '(new2, xs) := go (base + List.length new1)%nat l' in
               (new1 ++ new2, x' :: xs)
           end) base l in
      (new ++ [xs], DList (base + List.length new))
  | VDict d =>
      let '(new, e) :=
        (fix go (base : nat) (d : dict) : list (list dval) * ddict :=
           match d with
           | [] => ([], [])
           | (k, x) :: d' =>
               let '(new1, x') := inject base x in
               let '(new2, e) := go (base + List.length new1)%nat d' in
               (new1 ++ new2, (k, x') :: e)
           end) base d in
      (new, DDict e)
  end.

Fixpoint inject_all (base : nat) (proxies : list dict)
  : list (list dval) * list dval :=
  match proxies with
  | [] => ([], [])
  | p :: proxies' =>
      let '(new1, record) := inject base (VDict p) in
      let '(new2, records) :=
        inject_all (base + List.length new1)%nat proxies' in
      (new1 ++ new2, record :: records)
  end.

(** [a == b] for a value [a] of its own and a value [b] of the
    document. *)
Fixpoint eq_val (st : store) (a : pyval) (b : dval) {struct a} : bool :=
  match a, b with
  | VNone, DNone => true
  | VBool x, DBool y => Bool.eqb x y
  | VBool x, DInt n => n =? (if x then 1 else 0)
  | VInt n, DBool x => n =? (if x then 1 else 0)
  | VInt m, DInt n => m =? n
  | VStr s, DStr t => str_eqb s t
  | VList l, DList place =>
      (fix go (l : list pyval) (m : list dval) : bool :=
         match l, m with
         | [], [] => true
         | x :: l', y :: m' => eq_val st x y && go l' m'
         | _, _ => false
         end) l (list_at st place)
  | VDict d, DDict e =>
      Nat.eqb (List.length d) (List.length e)
      && (fix go (d : dict) : bool :=
            match d with
            | [] => true
            | (k, v) :: d' =>
                match assoc k e with
                | Some w => eq_val st v w
                | None => false
                end && go d'
            end) d
  | _, _ => false
  end.

Definition truthy (st : store) (v : dval) : bool :=
  match v with
  | DNone => false
  | DBool b => b
  | DInt n => negb (n =? 0)
  | DStr s => nonempty s
  | DList l => match list_at st l with [] => false | _ => true end
  | DDict d => match d with [] => false | _ => true end
  end.

(** A value of the class of [v], for the name of the class. *)
Definition kind (v : dval) : pyval :=
  match v with
  | DNone => VNone
  | DBool b => VBool b
  | DInt n => VInt n
  | DStr s => VStr s
  | DList _ => VList []
  | DDict _ => VDict []
  end.

(** [d[key]] of a record in the store. *)
Definition field (key : str) (record : dval) : option dval :=
  match record with
  | DDict e => assoc key e
  | _ => None
  end.

Section WithRuntime.
Variable rt : runtime.

(** [str(v)] for a value of the document that is no string. *)
Variable str_of_node : store -> dval -> str.

(** [[p["name"] for p in proxies]]: each name as a value, to compare it,
    and as the object that the record holds, to append it. *)
Fixpoint names_of (proxies : list (dict * dval))
  : outcome (list (pyval * dval)) :=
  match proxies with
  | [] => Ret []
  | (p, record) :: ps =>
      match assoc (lit "name") p, field (lit "name") record with
      | Some name, Some object =>
          rest <- names_of ps ;;
          Ret ((name, object) :: rest)
      | _, _ => Raise KeyError
      end
  end.

(** The loop that appends the names not already present to the list at
    place [l]. *)
Fixpoint append_new (names_to_add : list (pyval * dval)) (l : nat)
    (st : store) : store :=
  match names_to_add with
  | [] => st
  | (name, object) :: names' =>
      append_new names' l
        (if negb (existsb (eq_val st name) (list_at st l))
         then append_at l object st
         else st)
  end.

(** The body of [for group in groups]: the store as the loop leaves
    it. *)
Definition update_group (proxies : list (dict * dval))
    (add_to_speedtest add_to_manual : bool) (st : store) (group : dval)
  : outcome store :=
  match group with
  | DDict g =>
      let group_type :=
        str_lower rt
          match assoc (lit "type") g with
          | Some (DStr s) => s
          | Some v => str_of_node st v
          | None => []
          end in
      match assoc (lit "proxies") g with
      | Some (DList group_proxies) =>
          let is_speed_group := is_speed_type group_type in
          let is_manual_group := is_manual_type group_type in
          names_to_add <-
            (if add_to_speedtest && is_speed_group then names_of proxies
             else if add_to_manual && is_manual_group then names_of proxies
             else Ret []) ;;
          Ret (append_new names_to_add group_proxies st)
      | _ => Ret st
      end
  | _ => Ret st
  end.

Fixpoint update_groups (proxies : list (dict * dval))
    (add_to_speedtest add_to_manual : bool) (st : store)
    (groups : list dval) : outcome store :=
  match groups with
  | [] => Ret st
  | group :: groups' =>
      st <- update_group proxies add_to_speedtest add_to_manual st group ;;
      update_groups proxies add_to_speedtest add_to_manual st groups'
  end.

(** The two loops of [update_yaml], over the proxies and over the
    groups, for the list under [proxies] at place [section]: the store
    as they leave it. *)
Definition merge_records (st : store) (data : ddict) (section : nat)
    (proxies : list dict) (add_to_speedtest add_to_manual : bool)
  : outcome store :=
  let '(new, records) := inject_all (List.length st) proxies in
  let st := fold_left (fun st p => append_at section p st)
              records (st ++ new) in
  if add_to_speedtest || add_to_manual then
    match assoc (lit "proxy-groups") data with
    | None => Ret st
    | Some (DList groups) =>
        update_groups (combine proxies records) add_to_speedtest
          add_to_manual st (list_at st groups)
    | Some groups =>
        Raise (expected_list rt (lit "proxy-groups") (kind groups))
    end
  else Ret st.

(** What [update_yaml] does to the loaded document between [yaml.load]
    and [yaml.dump]: the store and the top-level mapping afterwards. *)
Definition merge (st : store) (loaded : dval) (proxies : list dict)
    (add_to_speedtest add_to_manual : bool) : outcome (store * ddict) :=
  let data := if truthy st loaded then loaded else DDict [] in
  match data with
  | DDict data =>
      let '(st, data, proxies_section) :=
        match assoc (lit "proxies") data with
        | None | Some DNone =>
            (st ++ [[]],
             assoc_set (lit "proxies") (DList (List.length st)) data,
             DList (List.length st))
        | Some v => (st, data, v)
        end in
      match proxies_section with
      | DList section =>
          st <- merge_records st data section proxies add_to_speedtest
                  add_to_manual ;;
          Ret (st, data)
      | v => Raise (expected_list rt (lit "proxies") (kind v))
      end
  | _ => Raise AttributeError
  end.

(** A file: a YAML text, which stands for the document it loads as, or
    a file that cannot be loaded, with the exception that [open] or
    [yaml.load] raises for it. *)
Inductive file :=
| Yaml (st : store) (loaded : dval)
| Refused (e : exn).

Definition fs := list (str * file).

(** [update_yaml]: the files afterwards and the path returned or the
    exception raised.  A path without a file cannot be opened for
    reading; [writable] tells the paths that [open(path, "w")] accepts. *)
Definition update_yaml (writable : str -> bool) (files : fs)
    (config_path : str) (proxies : list dict)
    (add_to_speedtest add_to_manual : bool) (output_path : option str)
  : fs * outcome str :=
  match assoc config_path files with
  | None => (files, Raise OSError)
  | Some (Refused e) => (files, Raise e)
  | Some (Yaml st loaded) =>
      match merge st loaded proxies add_to_speedtest add_to_manual with
      | Raise e => (files, Raise e)
      | Ret (st, data) =>
          let output_path :=
            match output_path with
            | Some (c :: o) => c :: o
            | _ =>
                let '(base, ext) := splitext config_path in
                base ++ lit "_merged"
                ++ (if nonempty ext then ext else lit ".yaml")
            end in
          if writable output_path
          then (assoc_set output_path (Yaml st (DDict data)) files,
                Ret output_path)
          else (files, Raise OSError)
      end
  end.

End WithRuntime.

(** The value that a value of the document stands for, read through the
    store to the depth [fuel]. *)
Fixpoint value_of (fuel : nat) (st : store) (v : dval) : pyval :=
  match fuel with
  | O => VNone
  | S fuel =>
      match v with
      | DNone => VNone
      | DBool b => VBool b
      | DInt n => VInt n
      | DStr s => VStr s
      | DList l => VList (map (value_of fuel st) (list_at st l))
      | DDict d =>
          VDict (map (fun kv => (fst kv, value_of fuel st (snd kv))) d)
      end
  end.

(** The places of the lists met on the way. *)
Fixpoint lists_of (fuel : nat) (st : store) (v : dval) : list nat :=
  match fuel with
  | O => []
  | S fuel =>
      match v with
      | DList l => l :: flat_map (lists_of fuel st) (list_at st l)
      | DDict d => flat_map (fun kv => lists_of fuel st (snd kv)) d
      | _ => []
      end
  end.

End Shared.

(** ** What the merge does to a document with shared lists *)
Module SharedSpec.
Import Py Val Lib Converters ConvertSubscription Shared.

(** The top-level mapping of a loaded document ([yaml.load(f) or {}]). *)
Definition top_level (loaded : dval) : ddict :=
  match loaded with
  | DDict d => d
  | _ => []
  end.

(** The place of the [proxies] list of a group. *)
Definition group_list (group : dval) : option nat :=
  match group with
  | DDict g =>
      match assoc (lit "proxies") g with
      | Some (DList l) => Some l
      | _ => None
      end
  | _ => None
  end.

(** The groups of a document. *)
Definition groups_of (st : store) (root : ddict) : list dval :=
  match assoc (lit "proxy-groups") root with
  | Some (DList groups) => list_at st groups
  | _ => []
  end.

(** The entries of the list under [proxies]. *)
Definition proxies_of (st : store) (root : ddict) : list dval :=
  match assoc (lit "proxies") root with
  | Some (DList section) => list_at st section
  | _ => []
  end.

(** The places of the lists a merge can append to: the list under
    [proxies] and, with a flag set, the [proxies] lists of the groups. *)
Definition merged_lists (add_to_speedtest add_to_manual : bool)
    (st : store) (root : ddict) : list nat :=
  match assoc (lit "proxies") root with
  | Some (DList section) => [section]
  | _ => []
  end
  ++ (if add_to_speedtest || add_to_manual
      then flat_map (fun group => match group_list group with
                                  | Some l => [l]
                                  | None => []
                                  end) (groups_of st root)
      else []).

(** Every list that [v] holds is a list of a store of [n] lists. *)
Fixpoint closed_val (n : nat) (v : dval) : bool :=
  match v with
  | DList l => (l <? n)%nat
  | DDict d =>
      (fix go (d : ddict) : bool :=
         match d with
         | [] => true
         | (_, x) :: d' => closed_val n x && go d'
         end) d
  | _ => true
  end.

(** A store and a value that a loaded document can be: the lists held,
    by the value and by the lists of the store, are lists of the
    store. *)
Definition closed (st : store) (v : dval) : bool :=
  closed_val (List.length st) v
  && forallb (forallb (closed_val (List.length st))) st.

(** The list of groups is not the list of names of one of its groups. *)
Definition groups_apart (st : store) (loaded : dval) : bool :=
  match assoc (lit "proxy-groups") (top_level loaded) with
  | Some (DList groups) =>
      forallb (fun group => match group_list group with
                            | Some l => negb (l =? groups)%nat
                            | None => true
                            end) (list_at st groups)
  | _ => true
  end.

(** The documents of the model. *)
Definition document (st : store) (loaded : dval) : bool :=
  closed st loaded && groups_apart st loaded.




(** From [st] to [st'] the lists have got entries behind their old ones
    at most, and the list at place [l] only entries [x] with
    [may l x]. *)
Definition gains (may : nat -> dval -> Prop) (st st' : store) : Prop :=
  forall l old, nth_error st l = Some old ->
    exists added,
      nth_error st' l = Some (old ++ added)
      /\ forall x, In x added -> may l x.

(** The same when only the lists of [changed] have got entries. *)
Definition grows (changed : nat -> Prop) (st st' : store) : Prop :=
  gains (fun l _ => changed l) st st'.

(** [x] is the name that one of the records holds. *)
Definition name_of (records : list dval) (x : dval) : Prop :=
  exists record, In record records /\ field (lit "name") record = Some x.

(** What a merge of [records] may append to the list at place [l] of a
    document: the records to the list under [proxies], and with a flag
    set their names to the list of a group. *)
Definition merged (add_to_speedtest add_to_manual : bool) (st : store)
    (root : ddict) (records : list dval) (l : nat) (x : dval) : Prop :=
  (assoc (lit "proxies") root = Some (DList l) /\ In x records)
  \/ (add_to_speedtest || add_to_manual = true
      /\ (exists group,
            In group (groups_of st root) /\ group_list group = Some l)
      /\ name_of records x).

(** The entries under the keys the merge does not touch. *)
Definition others (root : ddict) : ddict :=
  filter (fun kv => MergeSpec.untouched (fst kv)) root.

(** What a key reads as, to the depth [fuel]. *)
Definition reading (fuel : nat) (st : store) (root : ddict) (k : str)
  : option pyval :=
  option_map (value_of fuel st) (assoc k root).

(** The path [update_yaml] writes to. *)
Definition output_file (config_path : str) (output_path : option str)
  : str :=
  match output_path with
  | Some (c :: o) => c :: o
  | _ =>
      let '(base, ext) := splitext config_path in
      base ++ lit "_merged" ++ (if nonempty ext then ext else lit ".yaml")
  end.





(** A document in which the list of a group is the list under [proxies]
    and under [backup]:
    [proxies: &p [{name: A}]], [proxy-groups: [{name: g, type: select,
    proxies: *p}]], [backup: *p], [port: 7890]. *)
Definition aliased_store : store :=
  [ [ DDict [ (lit "name", DStr (lit "A")) ] ];
    [ DDict [ (lit "name", DStr (lit "g")); (lit "type", DStr (lit "select"));
              (lit "proxies", DList 0) ] ] ].

Definition aliased_root : ddict :=
  [ (lit "proxies", DList 0); (lit "proxy-groups", DList 1);
    (lit "backup", DList 0); (lit "port", DInt 7890) ].

(** The same document when nothing is shared: the group and [backup]
    have lists of their own. *)
Definition plain_store : store :=
  [ [ DDict [ (lit "name", DStr (lit "A")) ] ];
    [ DDict [ (lit "name", DStr (lit "g")); (lit "type", DStr (lit "select"));
              (lit "proxies", DList 2) ] ];
    [ DStr (lit "DIRECT"); DStr (lit "A") ];
    [ DStr (lit "A") ] ].

Definition plain_root : ddict :=
  [ (lit "proxies", DList 0); (lit "proxy-groups", DList 1);
    (lit "backup", DList 3); (lit "port", DInt 7890) ].

Definition sample_files : fs :=
  [ (lit "config.yaml", Yaml aliased_store (DDict aliased_root));
    (lit "plain.yaml", Yaml plain_store (DDict plain_root));
    (lit "broken.yaml", Refused YAMLError) ].

(** [str] for examples: no value that is no string reads as the name of
    a type of group. *)
Definition no_type : store -> dval -> str := fun _ _ => [].

Definition all_writable : str -> bool := fun _ => true.

End SharedSpec.

(** ** The command line of convert_subscription.py *)
Module Cli.
Import Py Val Lib Converters ConvertSubscription Shared.

(** What [parse_args] returns. *)
Record arguments := {
  subscription : str;
  config : str;
  output : option str;
  speedtest : bool;
  manual : bool
}.

(** A run of [main]: the files afterwards, what [main] writes to
    [sys.stderr] and prints, and the value returned or the exception
    raised.  What the functions it calls log is left out. *)
Record run := {
  run_files : fs;
  run_stderr : str;
  run_stdout : str;
  run_result : outcome Z
}.

Definition no_links_message : str :=
  lit "No valid links found in the subscription input." ++ [10].

Definition no_nodes_message : str :=
  lit "No supported nodes were parsed from the subscription." ++ [10].

Section WithRuntime.
Variable rt : runtime.
Variable str_of_node : store -> dval -> str.
Variable writable : str -> bool.

(** The text files: [read_text p] is [None] when [os.path.exists(p)] is
    false, and else what opening and reading [p] as UTF-8 gives. *)
Variable read_text : str -> option (outcome str).

Definition read_subscription_input (path_or_data : str) : outcome str :=
  match read_text path_or_data with
  | Some content => content
  | None => Ret path_or_data
  end.

(** [main] from the parsed arguments on. *)
Definition main (files : fs) (args : arguments) : run :=
  match read_subscription_input (subscription args) with
  | Raise e =>
      {| run_files := files; run_stderr := []; run_stdout := [];
         run_result := Raise e |}
  | Ret sub_content =>
      let links := parse_subscription sub_content in
      match links with
      | [] =>
          {| run_files := files; run_stderr := no_links_message;
             run_stdout := []; run_result := Ret 1 |}
      | _ :: _ =>
          match convert_links_to_proxies rt links with
          | Raise e =>
              {| run_files := files; run_stderr := []; run_stdout := [];
                 run_result := Raise e |}
          | Ret [] =>
              {| run_files := files; run_stderr := no_nodes_message;
                 run_stdout := []; run_result := Ret 1 |}
          | Ret proxies =>
              match update_yaml rt str_of_node writable files (config args)
                      proxies (speedtest args) (manual args) (output args)
              with
              | (files', Raise e) =>
                  {| run_files := files'; run_stderr := [];
                     run_stdout := []; run_result := Raise e |}
              | (files', Ret output_path) =>
                  {| run_files := files'; run_stderr := [];
                     run_stdout :=
                       lit "Merged configuration saved to: "
                       ++ output_path ++ [10];
                     run_result := Ret 0 |}
              end
          end
      end
  end.

End WithRuntime.

(** Text files for examples: none exists. *)
Definition no_text_files : str -> option (outcome str) := fun _ => None.

Definition merge_arguments (sub config : str) : arguments :=
  {| subscription := sub; config := config; output := None;
     speedtest := false; manual := true |}.

End Cli.

(** * Properties *)

(** ** Strings and dictionaries *)

Module PyFacts.
Import Py Val.

Lemma str_eqb_refl (a : str) : str_eqb a a = true.
Proof.
  induction a as [|x a IH]; simpl; [reflexivity|].
  now rewrite Z.eqb_refl.
Qed.

Lemma str_eqb_eq (a b : str) : str_eqb a b = true <-> a = b.
Proof.
  split; [|intros ->; apply str_eqb_refl].
  revert b; induction a as [|x a IH]; intros [|y b]; simpl;
    try discriminate; [reflexivity|].
  intros H. apply andb_true_iff in H as [Hxy Hab].
  apply Z.eqb_eq in Hxy. apply IH in Hab. congruence.
Qed.

Lemma str_eqb_neq (a b : str) : str_eqb a b = false <-> a <> b.
Proof.
  split.
  - intros H E. apply str_eqb_eq in E. congruence.
  - intros H. destruct (str_eqb a b) eqn:E; [|reflexivity].
    apply str_eqb_eq in E. contradiction.
Qed.

Lemma str_eqb_sym (a b : str) : str_eqb a b = str_eqb b a.
Proof.
  destruct (str_eqb b a) eqn:E.
  - apply str_eqb_eq in E. subst. apply str_eqb_refl.
  - apply str_eqb_neq. apply str_eqb_neq in E. congruence.
Qed.

Section Assoc.
Context {A : Type}.

Lemma assoc_set_same (k : str) (v : A) (d : list (str * A)) :
  assoc k (assoc_set k v d) = Some v.
Proof.
  induction d as [|[k' v'] d IH]; simpl.
  - now rewrite str_eqb_refl.
  - destruct (str_eqb k k') eqn:E; simpl.
    + now rewrite str_eqb_refl.
    + now rewrite E.
Qed.

Lemma assoc_set_other (k k' : str) (v : A) (d : list (str * A)) :
  str_eqb k k' = false -> assoc k (assoc_set k' v d) = assoc k d.
Proof.
  intros Hk. induction d as [|[k0 v0] d IH]; simpl.
  - now rewrite Hk.
  - destruct (str_eqb k' k0) eqn:E; simpl.
    + apply str_eqb_eq in E. subst k0. now rewrite Hk.
    + now rewrite IH.
Qed.

(** Setting a key leaves the entries under the other keys as they are,
    in their order. *)
Lemma assoc_set_filter (keep : str -> bool) (k : str) (v : A)
    (d : list (str * A)) :
  keep k = false ->
  filter (fun e => keep (fst e)) (assoc_set k v d)
  = filter (fun e => keep (fst e)) d.
Proof.
  intros Hk. induction d as [|[k0 v0] d IH]; simpl.
  - now rewrite Hk.
  - destruct (str_eqb k k0) eqn:E; simpl.
    + apply str_eqb_eq in E. subst k0. now rewrite Hk.
    + now rewrite IH.
Qed.

End Assoc.

(** Equality with a string is equality. *)
Lemma py_eqb_str (v : pyval) (s : str) :
  py_eqb v (VStr s) = true <-> v = VStr s.
Proof.
  destruct v; simpl; try (split; [discriminate|intros H; discriminate H]).
  rewrite str_eqb_eq. split; congruence.
Qed.

End PyFacts.

Module DictFacts.
Import Py Val PyFacts.

Section Lookup.
Context {A : Type}.

Lemma assoc_set_if_other (c : bool) (k k' : str) (v : A) d :
  str_eqb k k' = false -> assoc k (set_if c k' v d) = assoc k d.
Proof.
  intros H. destruct c; simpl; [now apply assoc_set_other|reflexivity].
Qed.

Lemma assoc_set_if_same (c : bool) (k : str) (v : A) d :
  assoc k (set_if c k v d) = if c then Some v else assoc k d.
Proof. destruct c; simpl; [apply assoc_set_same|reflexivity]. Qed.

Lemma assoc_cons_other (k k' : str) (v : A) d :
  str_eqb k k' = false -> assoc k ((k', v) :: d) = assoc k d.
Proof. intros H. simpl. now rewrite H. Qed.

Lemma assoc_cons_same (k : str) (v : A) d : assoc k ((k, v) :: d) = Some v.
Proof. simpl. now rewrite str_eqb_refl. Qed.

End Lookup.

(** Look a literal key up in a dictionary built by literal keys. *)
Ltac lookup :=
  repeat first
    [ rewrite assoc_set_if_other by reflexivity
    | rewrite assoc_set_other by reflexivity
    | rewrite assoc_cons_other by reflexivity
    | rewrite assoc_cons_same ].

End DictFacts.

(** ** UTF-8 *)

Module Utf8Facts.
Import Py Utf8.

(** Decoding with [errors="replace"] has a result, and one that is not
    empty when the data is not. *)
Lemma decode_replace_some_aux (n : nat) :
  forall bs, (List.length bs <= n)%nat ->
  exists s, decode Replace bs = Some s /\ (bs <> [] -> s <> []).
Proof.
  induction n as [|n IH]; intros bs Hn.
  - destruct bs; [|simpl in Hn; lia].
    exists []. split; [reflexivity|congruence].
  - destruct bs as [|b1 r1]; [exists []; split; [reflexivity|congruence]|].
    simpl in Hn.
    assert (H1 : exists s, decode Replace r1 = Some s)
      by (destruct (IH r1) as (s & E & _); [lia|eauto]).
    assert (H2 : forall b r, r1 = b :: r ->
                 exists s, decode Replace r = Some s).
    { intros b r ->. simpl in Hn.
      destruct (IH r) as (s & E & _); [lia|eauto]. }
    assert (H3 : forall b b' r, r1 = b :: b' :: r ->
                 exists s, decode Replace r = Some s).
    { intros b b' r ->. simpl in Hn.
      destruct (IH r) as (s & E & _); [lia|eauto]. }
    assert (H4 : forall b b' b'' r, r1 = b :: b' :: b'' :: r ->
                 exists s, decode Replace r = Some s).
    { intros b b' b'' r ->. simpl in Hn.
      destruct (IH r) as (s & E & _); [lia|eauto]. }
    destruct H1 as (s1 & E1).
    cbn [decode].
    repeat match goal with
    | |- context [if ?c then _ else _] => destruct c
    | |- context [match ?l with [] => _ | _ :: _ => _ end] =>
        let b := fresh "b" in let r := fresh "r" in destruct l as [|b r]
    end;
    try rewrite E1;
    try (match goal with
         | |- context [decode Replace ?r] =>
             first [ destruct (H2 _ _ eq_refl) as (s2 & E2); rewrite E2
                   | destruct (H3 _ _ _ eq_refl) as (s2 & E2); rewrite E2
                   | destruct (H4 _ _ _ _ eq_refl) as (s2 & E2); rewrite E2 ]
         end);
    cbn [good bad option_map]; eexists; (split; [reflexivity|discriminate]).
Qed.

Lemma decode_replace_some (bs : bytes) :
  decode Replace bs = Some (decode_replace bs).
Proof.
  unfold decode_replace.
  destruct (decode_replace_some_aux (List.length bs) bs) as (s & -> & _);
    [apply Nat.le_refl|reflexivity].
Qed.

Lemma decode_replace_nonempty (bs : bytes) :
  bs <> [] -> decode_replace bs <> [].
Proof.
  unfold decode_replace.
  destruct (decode_replace_some_aux (List.length bs) bs) as (s & -> & H);
    [apply Nat.le_refl|exact H].
Qed.

Ltac decide_tests :=
  repeat first
    [ rewrite (proj2 (Z.ltb_lt _ _)) by (Z.div_mod_to_equations; lia)
    | rewrite (proj2 (Z.ltb_ge _ _)) by (Z.div_mod_to_equations; lia)
    | rewrite (proj2 (Z.leb_le _ _)) by (Z.div_mod_to_equations; lia)
    | rewrite (proj2 (Z.leb_gt _ _)) by (Z.div_mod_to_equations; lia)
    | rewrite (proj2 (Z.eqb_neq _ _)) by (Z.div_mod_to_equations; lia) ].

(** A character comes back from its encoding, whatever follows. *)
Lemma decode_encode_char (e : errors) (c : Z) (rest : bytes) :
  is_scalar c = true ->
  decode e (encode_char c ++ rest) = good c (decode e rest).
Proof.
  intros H. unfold is_scalar in H.
  assert (Hc : 0 <= c < 55296 \/ 57344 <= c < 1114112) by lia.
  clear H. unfold encode_char.
  assert (D1 : c / 4096 = c / 64 / 64) by (now rewrite Z.div_div by lia).
  assert (D2 : c / 262144 = c / 64 / 64 / 64)
    by (now rewrite !Z.div_div by lia).
  rewrite ?D1, ?D2. clear D1 D2.
  destruct (c <? 128) eqn:E1.
  - cbn [app decode]. now rewrite E1.
  - apply Z.ltb_ge in E1. destruct (c <? 2048) eqn:E2;
      [apply Z.ltb_lt in E2|apply Z.ltb_ge in E2].
    + cbn [app decode]. unfold is_cont. rewrite !Z.shiftl_mul_pow2 by lia.
      decide_tests. cbn [andb]. f_equal.
      Z.div_mod_to_equations; lia.
    + destruct (c <? 65536) eqn:E3;
        [apply Z.ltb_lt in E3|apply Z.ltb_ge in E3].
      * cbn [app decode]. unfold is_cont. rewrite !Z.shiftl_mul_pow2 by lia.
        decide_tests. cbn [andb negb orb].
        assert (Hx : (if 128 + (c / 64) mod 64 <? 160
                      then 224 + c / 64 / 64 =? 224
                      else 224 + c / 64 / 64 =? 237) = false).
        { destruct (128 + (c / 64) mod 64 <? 160) eqn:E4;
            [apply Z.ltb_lt in E4|apply Z.ltb_ge in E4];
            apply Z.eqb_neq; Z.div_mod_to_equations; lia. }
        rewrite Hx. decide_tests. cbn [andb negb orb]. f_equal.
        Z.div_mod_to_equations; lia.
      * cbn [app decode]. unfold is_cont. rewrite !Z.shiftl_mul_pow2 by lia.
        decide_tests. cbn [andb negb orb].
        assert (Hx : (if 128 + (c / 64 / 64) mod 64 <? 144
                      then 240 + c / 64 / 64 / 64 =? 240
                      else 240 + c / 64 / 64 / 64 =? 244) = false).
        { destruct (128 + (c / 64 / 64) mod 64 <? 144) eqn:E4;
            [apply Z.ltb_lt in E4|apply Z.ltb_ge in E4];
            apply Z.eqb_neq; Z.div_mod_to_equations; lia. }
        rewrite Hx. decide_tests. cbn [andb negb orb]. decide_tests.
        cbn [andb negb orb]. f_equal.
        Z.div_mod_to_equations; lia.
Qed.

(** A text comes back from its encoding. *)
Lemma utf8_decode_encode (e : errors) (s : str) (bs : bytes) :
  encode s = Some bs -> decode e bs = Some s.
Proof.
  revert bs. induction s as [|c s IH]; intros bs; cbn [encode].
  - intros H; injection H as <-. reflexivity.
  - destruct (is_scalar c) eqn:Ec; [|discriminate].
    destruct (encode s) as [bs'|]; [|discriminate].
    cbn [option_map]. intros H; injection H as <-.
    rewrite decode_encode_char by exact Ec.
    now rewrite (IH bs' eq_refl).
Qed.

Lemma encode_char_octets (c : Z) :
  is_scalar c = true -> Base64.is_octets (encode_char c) = true.
Proof.
  intros H. unfold is_scalar in H.
  assert (Hc : 0 <= c < 1114112) by lia. clear H.
  unfold encode_char, Base64.is_octets.
  destruct (c <? 128) eqn:E1;
    [apply Z.ltb_lt in E1|apply Z.ltb_ge in E1;
     destruct (c <? 2048) eqn:E2;
       [apply Z.ltb_lt in E2|apply Z.ltb_ge in E2;
        destruct (c <? 65536) eqn:E3;
          [apply Z.ltb_lt in E3|apply Z.ltb_ge in E3]]];
    cbn [forallb];
    repeat (apply andb_true_iff; split);
    try reflexivity;
    try (apply Z.leb_le; Z.div_mod_to_equations; lia);
    try (apply Z.ltb_lt; Z.div_mod_to_equations; lia).
Qed.

Lemma utf8_encode_octets (s : str) (bs : bytes) :
  encode s = Some bs -> Base64.is_octets bs = true.
Proof.
  revert bs. induction s as [|c s IH]; intros bs; cbn [encode].
  - intros H; injection H as <-. reflexivity.
  - destruct (is_scalar c) eqn:Ec; [|discriminate].
    destruct (encode s) as [bs'|]; [|discriminate].
    cbn [option_map]. intros H; injection H as <-.
    unfold Base64.is_octets. rewrite forallb_app.
    apply andb_true_iff. split; [now apply encode_char_octets|now apply IH].
Qed.

Lemma utf8_encode_nonempty (s : str) (bs : bytes) :
  encode s = Some bs -> s <> [] -> bs <> [].
Proof.
  destruct s as [|c s]; [congruence|]. cbn [encode]. intros H _.
  destruct (is_scalar c); [|discriminate].
  destruct (encode s) as [bs'|]; [|discriminate].
  cbn [option_map] in H. injection H as <-.
  unfold encode_char.
  destruct (c <? 128); [discriminate|].
  destruct (c <? 2048); [discriminate|].
  destruct (c <? 65536); discriminate.
Qed.
End Utf8Facts.

(** ** Base64 *)

Module Base64Facts.
Import Py Base64 SubscriptionSpec.

(** A property checked on [0 .. n-1] holds there. *)
Lemma forallb_below (f : Z -> bool) (n : nat) :
  forallb f (map Z.of_nat (seq 0 n)) = true ->
  forall v, 0 <= v < Z.of_nat n -> f v = true.
Proof.
  intros H v Hv. rewrite forallb_forall in H. apply H.
  apply in_map_iff. exists (Z.to_nat v). split; [lia|].
  apply in_seq. lia.
Qed.

Lemma forallb2_below (f : Z -> Z -> bool) (n k : nat) :
  forallb (fun a => forallb (f a) (map Z.of_nat (seq 0 k)))
    (map Z.of_nat (seq 0 n)) = true ->
  forall a h, 0 <= a < Z.of_nat n -> 0 <= h < Z.of_nat k -> f a h = true.
Proof.
  intros H a h Ha Hh.
  apply (forallb_below (f a) k); [|exact Hh].
  apply (forallb_below _ n H a Ha).
Qed.

(** The decoder reads a digit as its value; a digit is ASCII, no pad
    character, and the same in the URL-safe translation. *)
Lemma digit_value (u : bool) (v : Z) :
  0 <= v < 64 ->
  table_a2b (urlsafe_translate (digit u v)) = v
  /\ table_a2b (digit false v) = v
  /\ (urlsafe_translate (digit u v) =? 61) = false
  /\ (digit u v <? 128) = true
  /\ is_space (digit u v) = false.
Proof.
  intros Hv.
  assert (H := forallb_below
    (fun v => (table_a2b (urlsafe_translate (digit u v)) =? v)
              && (table_a2b (digit false v) =? v)
              && negb (urlsafe_translate (digit u v) =? 61)
              && (digit u v <? 128)
              && negb (is_space (digit u v))) 64).
  cbv beta in H. specialize (H (ltac:(destruct u; vm_compute; reflexivity)) v Hv).
  repeat (apply andb_true_iff in H as [H ?]).
  repeat split; try (now apply Z.eqb_eq); try assumption;
    now apply negb_true_iff.
Qed.

(** The three octets of a group come back from its four digits. *)
Lemma first_octet (a h : Z) :
  0 <= a < 256 -> 0 <= h < 16 ->
  Z.land (Z.lor (Z.shiftl (a / 4) 2) (Z.shiftr ((a mod 4) * 16 + h) 4)) 255
  = a
  /\ Z.land ((a mod 4) * 16 + h) 15 = h.
Proof.
  intros Ha Hh.
  assert (H := forallb2_below
    (fun a h =>
       (Z.land (Z.lor (Z.shiftl (a / 4) 2)
                      (Z.shiftr ((a mod 4) * 16 + h) 4)) 255 =? a)
       && (Z.land ((a mod 4) * 16 + h) 15 =? h)) 256 16
    (ltac:(vm_compute; reflexivity)) a h Ha Hh).
  apply andb_true_iff in H as [H1 H2]. split; now apply Z.eqb_eq.
Qed.

Lemma second_octet (b k : Z) :
  0 <= b < 256 -> 0 <= k < 4 ->
  Z.land (Z.lor (Z.shiftl (b / 16) 4) (Z.shiftr ((b mod 16) * 4 + k) 2)) 255
  = b
  /\ Z.land ((b mod 16) * 4 + k) 3 = k.
Proof.
  intros Hb Hk.
  assert (H := forallb2_below
    (fun b k =>
       (Z.land (Z.lor (Z.shiftl (b / 16) 4)
                      (Z.shiftr ((b mod 16) * 4 + k) 2)) 255 =? b)
       && (Z.land ((b mod 16) * 4 + k) 3 =? k)) 256 4
    (ltac:(vm_compute; reflexivity)) b k Hb Hk).
  apply andb_true_iff in H as [H1 H2]. split; now apply Z.eqb_eq.
Qed.

Lemma third_octet (c : Z) :
  0 <= c < 256 ->
  Z.land (Z.lor (Z.shiftl (c / 64) 6) (c mod 64)) 255 = c.
Proof.
  intros Hc.
  apply Z.eqb_eq.
  apply (forallb_below
    (fun c => Z.land (Z.lor (Z.shiftl (c / 64) 6) (c mod 64)) 255 =? c) 256
    (ltac:(vm_compute; reflexivity)) c Hc).
Qed.

(** One step of the decoder on a digit. *)
Lemma a2b_loop_digit (u : bool) (v quad_pos leftchar pads : Z) (s : bytes) :
  0 <= v < 64 ->
  a2b_loop quad_pos leftchar pads (urlsafe_translate (digit u v) :: s)
  = if quad_pos =? 0 then a2b_loop 1 v 0 s
    else if quad_pos =? 1 then
      option_map
        (cons (Z.land (Z.lor (Z.shiftl leftchar 2) (Z.shiftr v 4)) 255))
        (a2b_loop 2 (Z.land v 15) 0 s)
    else if quad_pos =? 2 then
      option_map
        (cons (Z.land (Z.lor (Z.shiftl leftchar 4) (Z.shiftr v 2)) 255))
        (a2b_loop 3 (Z.land v 3) 0 s)
    else
      option_map (cons (Z.land (Z.lor (Z.shiftl leftchar 6) v) 255))
        (a2b_loop 0 0 0 s).
Proof.
  intros Hv. destruct (digit_value u v Hv) as (Ht & _ & Hp & _).
  cbn [a2b_loop]. rewrite Hp, Ht.
  replace (v >=? 64) with false
    by (symmetry; rewrite Z.geb_leb; apply Z.leb_gt; lia).
  reflexivity.
Qed.


(** Induction three octets at a time. *)
Lemma list_ind3 {A : Type} (P : list A -> Prop) :
  P [] -> (forall a, P [a]) -> (forall a b, P [a; b]) ->
  (forall a b c l, P l -> P (a :: b :: c :: l)) ->
  forall l, P l.
Proof.
  intros H0 H1 H2 H3. fix IH 1.
  intros [|a [|b [|c l]]]; [exact H0|apply H1|apply H2|apply H3, IH].
Qed.

Lemma encode_pad (u : bool) (bs : bytes) :
  encode u true bs = encode u false bs ++ repeat 61 (pad_needed bs).
Proof.
  induction bs as [|a|a b|a b c bs IH] using list_ind3;
    try reflexivity.
  cbn [encode]. rewrite IH. unfold pad_needed.
  replace (List.length (a :: b :: c :: bs) mod 3)%nat
    with (List.length bs mod 3)%nat; [reflexivity|].
  cbn [List.length].
  change (S (S (S (List.length bs)))) with (3 + List.length bs)%nat.
  rewrite Nat.Div0.add_mod, Nat.Div0.mod_same. cbn [Nat.add].
  now rewrite Nat.Div0.mod_mod.
Qed.

Lemma a2b_loop_pads_0 (n : nat) : a2b_loop 0 0 0 (repeat 61 n) = Some [].
Proof. induction n as [|n IH]; [reflexivity|exact IH]. Qed.

Lemma a2b_loop_pads_2 (leftchar : Z) (n : nat) :
  (2 <= n)%nat -> a2b_loop 2 leftchar 0 (repeat 61 n) = Some [].
Proof. destruct n as [|[|n]]; [lia|lia|reflexivity]. Qed.

Lemma a2b_loop_pads_3 (leftchar : Z) (n : nat) :
  (1 <= n)%nat -> a2b_loop 3 leftchar 0 (repeat 61 n) = Some [].
Proof. destruct n as [|n]; [lia|reflexivity]. Qed.

Lemma octet_parts (b : Z) :
  0 <= b < 256 ->
  0 <= b / 4 < 64 /\ 0 <= b mod 4 < 4 /\ 0 <= b / 16 < 16
  /\ 0 <= b mod 16 < 16 /\ 0 <= b / 64 < 4 /\ 0 <= b mod 64 < 64.
Proof. intros H. repeat split; Z.div_mod_to_equations; lia. Qed.

(** The decoder gives the octets back, from either alphabet, when the
    text has the padding it needs or more. *)
Lemma a2b_encode (u : bool) (bs : bytes) :
  is_octets bs = true ->
  forall n, (pad_needed bs <= n)%nat ->
  a2b_base64 (map urlsafe_translate (encode u false bs ++ repeat 61 n))
  = Some bs.
Proof.
  unfold a2b_base64.
  induction bs as [|a|a b|a b c bs IH] using list_ind3; intros Hb n Hn.
  - cbn [encode app]. rewrite map_repeat. apply a2b_loop_pads_0.
  - cbn [is_octets forallb] in Hb. rewrite andb_true_r in Hb.
    assert (Ha : 0 <= a < 256) by lia.
    destruct (octet_parts a Ha) as (A1 & A2 & _).
    cbn [encode app map].
    rewrite a2b_loop_digit by lia. cbn [Z.eqb Pos.eqb].
    rewrite a2b_loop_digit by lia. cbn [Z.eqb Pos.eqb].
    rewrite map_repeat.
    change (urlsafe_translate 61) with 61.
    rewrite a2b_loop_pads_2 by exact Hn. cbn [option_map].
    replace ((a mod 4) * 16) with ((a mod 4) * 16 + 0) by lia.
    now rewrite (proj1 (first_octet a 0 Ha ltac:(lia))).
  - cbn [is_octets forallb] in Hb. rewrite andb_true_r in Hb.
    assert (Ha : 0 <= a < 256) by lia.
    assert (Hb' : 0 <= b < 256) by lia.
    destruct (octet_parts a Ha) as (A1 & A2 & _).
    destruct (octet_parts b Hb') as (_ & _ & B3 & B4 & _).
    cbn [encode app map].
    rewrite a2b_loop_digit by lia. cbn [Z.eqb Pos.eqb].
    rewrite a2b_loop_digit by lia. cbn [Z.eqb Pos.eqb].
    rewrite a2b_loop_digit by lia. cbn [Z.eqb Pos.eqb].
    rewrite map_repeat.
    change (urlsafe_translate 61) with 61.
    rewrite a2b_loop_pads_3 by exact Hn. cbn [option_map].
    destruct (first_octet a (b / 16) Ha B3) as [-> ->].
    replace ((b mod 16) * 4) with ((b mod 16) * 4 + 0) by lia.
    now rewrite (proj1 (second_octet b 0 Hb' ltac:(lia))).
  - cbn [is_octets forallb] in Hb.
    apply andb_true_iff in Hb as [Ha Hb].
    apply andb_true_iff in Hb as [Hb Hc].
    apply andb_true_iff in Hc as [Hc Hrest].
    assert (Ha' : 0 <= a < 256) by lia.
    assert (Hb' : 0 <= b < 256) by lia.
    assert (Hc' : 0 <= c < 256) by lia.
    destruct (octet_parts a Ha') as (A1 & A2 & _).
    destruct (octet_parts b Hb') as (_ & _ & B3 & B4 & _).
    destruct (octet_parts c Hc') as (_ & _ & _ & _ & C5 & C6).
    cbn [encode app map].
    rewrite a2b_loop_digit by lia. cbn [Z.eqb Pos.eqb].
    rewrite a2b_loop_digit by lia. cbn [Z.eqb Pos.eqb].
    rewrite a2b_loop_digit by lia. cbn [Z.eqb Pos.eqb].
    rewrite a2b_loop_digit by lia. cbn [Z.eqb Pos.eqb].
    rewrite IH; [|exact Hrest|].
    + cbn [option_map].
      destruct (first_octet a (b / 16) Ha' B3) as [-> ->].
      destruct (second_octet b (c / 64) Hb' C5) as [-> ->].
      now rewrite (third_octet c Hc').
    + revert Hn. unfold pad_needed. cbn [List.length].
      change (S (S (S (List.length bs)))) with (3 + List.length bs)%nat.
      rewrite Nat.Div0.add_mod, Nat.Div0.mod_same. cbn [Nat.add].
      now rewrite Nat.Div0.mod_mod.
Qed.

Lemma encode_ascii (u p : bool) (bs : bytes) :
  is_octets bs = true -> is_ascii (encode u p bs) = true.
Proof.
  induction bs as [|a|a b|a b c bs IH] using list_ind3; intros Hb;
    [reflexivity| | |];
    cbn [is_octets forallb] in Hb;
    repeat match goal with
           | H : _ && _ = true |- _ => apply andb_true_iff in H as [? H]
           end.
  - assert (Ha : 0 <= a < 256) by lia.
    destruct (octet_parts a Ha) as (A1 & A2 & _).
    cbn [encode is_ascii forallb].
    rewrite (proj1 (proj2 (proj2 (proj2 (digit_value u _ A1))))).
    rewrite (proj1 (proj2 (proj2 (proj2 (digit_value u ((a mod 4) * 16)
                                           ltac:(lia)))))).
    now destruct p.
  - assert (Ha : 0 <= a < 256) by lia.
    assert (Hb' : 0 <= b < 256) by lia.
    destruct (octet_parts a Ha) as (A1 & A2 & _).
    destruct (octet_parts b Hb') as (_ & _ & B3 & B4 & _).
    cbn [encode is_ascii forallb].
    rewrite (proj1 (proj2 (proj2 (proj2 (digit_value u _ A1))))).
    rewrite (proj1 (proj2 (proj2 (proj2 (digit_value u
               ((a mod 4) * 16 + b / 16) ltac:(lia)))))).
    rewrite (proj1 (proj2 (proj2 (proj2 (digit_value u ((b mod 16) * 4)
                                           ltac:(lia)))))).
    now destruct p.
  - assert (Ha : 0 <= a < 256) by lia.
    assert (Hb' : 0 <= b < 256) by lia.
    assert (Hc' : 0 <= c < 256) by lia.
    destruct (octet_parts a Ha) as (A1 & A2 & _).
    destruct (octet_parts b Hb') as (_ & _ & B3 & B4 & _).
    destruct (octet_parts c Hc') as (_ & _ & _ & _ & C5 & C6).
    cbn [encode is_ascii forallb].
    rewrite (proj1 (proj2 (proj2 (proj2 (digit_value u _ A1))))).
    rewrite (proj1 (proj2 (proj2 (proj2 (digit_value u
               ((a mod 4) * 16 + b / 16) ltac:(lia)))))).
    rewrite (proj1 (proj2 (proj2 (proj2 (digit_value u
               ((b mod 16) * 4 + c / 64) ltac:(lia)))))).
    rewrite (proj1 (proj2 (proj2 (proj2 (digit_value u _ C6))))).
    apply IH. assumption.
Qed.

Lemma digit_standard (v : Z) :
  0 <= v < 64 -> urlsafe_translate (digit false v) = digit false v.
Proof.
  intros Hv. apply Z.eqb_eq.
  apply (forallb_below
           (fun v => urlsafe_translate (digit false v) =? digit false v) 64
           (ltac:(vm_compute; reflexivity)) v Hv).
Qed.

Lemma encode_standard (p : bool) (bs : bytes) :
  is_octets bs = true ->
  map urlsafe_translate (encode false p bs) = encode false p bs.
Proof.
  induction bs as [|a|a b|a b c bs IH] using list_ind3; intros Hb;
    [reflexivity| | |];
    cbn [is_octets forallb] in Hb;
    repeat match goal with
           | H : _ && _ = true |- _ => apply andb_true_iff in H as [? H]
           end.
  - assert (Ha : 0 <= a < 256) by lia.
    destruct (octet_parts a Ha) as (A1 & A2 & _).
    cbn [encode map]. rewrite !digit_standard by lia. now destruct p.
  - assert (Ha : 0 <= a < 256) by lia.
    assert (Hb' : 0 <= b < 256) by lia.
    destruct (octet_parts a Ha) as (A1 & A2 & _).
    destruct (octet_parts b Hb') as (_ & _ & B3 & B4 & _).
    cbn [encode map]. rewrite !digit_standard by lia. now destruct p.
  - assert (Ha : 0 <= a < 256) by lia.
    assert (Hb' : 0 <= b < 256) by lia.
    assert (Hc' : 0 <= c < 256) by lia.
    destruct (octet_parts a Ha) as (A1 & A2 & _).
    destruct (octet_parts b Hb') as (_ & _ & B3 & B4 & _).
    destruct (octet_parts c Hc') as (_ & _ & _ & _ & C5 & C6).
    cbn [encode map]. rewrite !digit_standard by lia.
    now rewrite IH by assumption.
Qed.

(** [b64decode] undoes [b64encode]. *)
Lemma b64decode_b64encode (bs : bytes) :
  is_octets bs = true -> b64decode (b64encode bs) = Some bs.
Proof.
  intros Hb. unfold b64decode, b64encode.
  rewrite encode_ascii by exact Hb.
  rewrite <- (encode_standard true bs Hb), encode_pad.
  now apply a2b_encode.
Qed.

(** [urlsafe_b64decode] undoes either encoding, padded or not, with pad
    characters put behind. *)
Lemma urlsafe_b64decode_encode (u p : bool) (bs : bytes) (n : nat) :
  is_octets bs = true -> (2 <= n)%nat ->
  urlsafe_b64decode (encode u p bs ++ repeat 61 n) = Some bs.
Proof.
  intros Hb Hn. unfold urlsafe_b64decode.
  assert (Ha : is_ascii (encode u p bs ++ repeat 61 n) = true).
  { unfold is_ascii. rewrite forallb_app. apply andb_true_iff. split.
    - now apply encode_ascii.
    - apply forallb_forall. intros x Hx. apply repeat_spec in Hx.
      now subst x. }
  rewrite Ha. destruct p.
  - rewrite encode_pad, <- app_assoc, <- repeat_app.
    apply a2b_encode; [exact Hb|]. unfold pad_needed.
    destruct (List.length bs mod 3)%nat as [|[|]]; lia.
  - apply a2b_encode; [exact Hb|]. unfold pad_needed.
    destruct (List.length bs mod 3)%nat as [|[|]]; lia.
Qed.

(** The text of an encoding has none of the characters of a list that
    has no base64 digit and no pad character. *)
Lemma encode_without (u p : bool) (x : Z) (bs : bytes) :
  is_octets bs = true ->
  table_a2b (urlsafe_translate x) = 64 -> x <> 61 ->
  forallb (fun c => negb (c =? x)) (encode u p bs) = true.
Proof.
  intros Hb Hx H61.
  assert (Hd : forall v, 0 <= v < 64 -> negb (digit u v =? x) = true).
  { intros v Hv. apply negb_true_iff, Z.eqb_neq. intros E.
    destruct (digit_value u v Hv) as (E1 & _). rewrite E, Hx in E1. lia. }
  assert (Hp : negb (61 =? x) = true)
    by (apply negb_true_iff, Z.eqb_neq; congruence).
  induction bs as [|a|a b|a b c bs IH] using list_ind3;
    [reflexivity| | |];
    cbn [is_octets forallb] in Hb;
    repeat match goal with
           | H : _ && _ = true |- _ => apply andb_true_iff in H as [? H]
           end.
  - assert (Ha : 0 <= a < 256) by lia.
    destruct (octet_parts a Ha) as (A1 & A2 & _).
    cbn [encode forallb]. rewrite !Hd by lia.
    destruct p; cbn [forallb]; now rewrite ?Hp.
  - assert (Ha : 0 <= a < 256) by lia.
    assert (Hb' : 0 <= b < 256) by lia.
    destruct (octet_parts a Ha) as (A1 & A2 & _).
    destruct (octet_parts b Hb') as (_ & _ & B3 & B4 & _).
    cbn [encode forallb]. rewrite !Hd by lia.
    destruct p; cbn [forallb]; now rewrite ?Hp.
  - assert (Ha : 0 <= a < 256) by lia.
    assert (Hb' : 0 <= b < 256) by lia.
    assert (Hc' : 0 <= c < 256) by lia.
    destruct (octet_parts a Ha) as (A1 & A2 & _).
    destruct (octet_parts b Hb') as (_ & _ & B3 & B4 & _).
    destruct (octet_parts c Hc') as (_ & _ & _ & _ & C5 & C6).
    cbn [encode forallb]. rewrite !Hd by lia. now apply IH.
Qed.

Lemma encode_no_space (u p : bool) (bs : bytes) :
  is_octets bs = true ->
  forallb (fun c => negb (is_space c)) (encode u p bs) = true.
Proof.
  intros Hb.
  assert (Hd : forall v, 0 <= v < 64 -> negb (is_space (digit u v)) = true).
  { intros v Hv. apply negb_true_iff. apply (digit_value u v Hv). }
  induction bs as [|a|a b|a b c bs IH] using list_ind3;
    [reflexivity| | |];
    cbn [is_octets forallb] in Hb;
    repeat match goal with
           | H : _ && _ = true |- _ => apply andb_true_iff in H as [? H]
           end.
  - assert (Ha : 0 <= a < 256) by lia.
    destruct (octet_parts a Ha) as (A1 & A2 & _).
    cbn [encode forallb]. rewrite !Hd by lia. now destruct p.
  - assert (Ha : 0 <= a < 256) by lia.
    assert (Hb' : 0 <= b < 256) by lia.
    destruct (octet_parts a Ha) as (A1 & A2 & _).
    destruct (octet_parts b Hb') as (_ & _ & B3 & B4 & _).
    cbn [encode forallb]. rewrite !Hd by lia. now destruct p.
  - assert (Ha : 0 <= a < 256) by lia.
    assert (Hb' : 0 <= b < 256) by lia.
    assert (Hc' : 0 <= c < 256) by lia.
    destruct (octet_parts a Ha) as (A1 & A2 & _).
    destruct (octet_parts b Hb') as (_ & _ & B3 & B4 & _).
    destruct (octet_parts c Hc') as (_ & _ & _ & _ & C5 & C6).
    cbn [encode forallb]. rewrite !Hd by lia. now apply IH.
Qed.

Lemma base64_encode_nonempty (u p : bool) (bs : bytes) :
  bs <> [] -> encode u p bs <> [].
Proof. destruct bs as [|a [|b [|c bs]]]; [congruence| | |]; discriminate. Qed.

End Base64Facts.

(** ** Lines and white space *)

Module LineFacts.
Import Py ConvertSubscription SubscriptionSpec.

Lemma linebreak_is_space (c : Z) : is_linebreak c = true -> is_space c = true.
Proof.
  unfold is_linebreak, is_space. intros H.
  repeat (apply orb_true_iff in H as [H|H]);
    repeat (apply andb_true_iff in H as [H ?]);
    repeat match goal with
           | H : (_ <=? _) = true |- _ => apply Z.leb_le in H
           | H : (_ =? _) = true |- _ => apply Z.eqb_eq in H
           end;
    repeat match goal with
           | |- context [?a <=? ?b] =>
               destruct (Z.leb_spec a b); try lia
           | |- context [?a =? ?b] =>
               destruct (Z.eqb_spec a b); try lia
           end; reflexivity.
Qed.

Lemma lstrip_all_space (s : str) : all_space s -> lstrip s = [].
Proof.
  unfold all_space. induction s as [|c s IH]; [reflexivity|].
  cbn [forallb lstrip]. intros H. apply andb_true_iff in H as [-> H]. auto.
Qed.

Lemma lstrip_app_space (ws y : str) :
  all_space ws -> lstrip (ws ++ y) = lstrip y.
Proof.
  unfold all_space. induction ws as [|c ws IH]; [reflexivity|].
  cbn [forallb lstrip app]. intros H. apply andb_true_iff in H as [-> H].
  auto.
Qed.

Lemma lstrip_app (l e : str) :
  lstrip (l ++ e) = match lstrip l with
                    | [] => lstrip e
                    | _ => lstrip l ++ e
                    end.
Proof.
  induction l as [|c l IH]; [reflexivity|].
  cbn [app lstrip]. destruct (is_space c); [exact IH|reflexivity].
Qed.

(** What [lstrip] takes away is white space. *)
Lemma lstrip_split (s : str) :
  exists ws, all_space ws /\ s = ws ++ lstrip s.
Proof.
  induction s as [|c s (ws & Hws & IH)]; [exists []; now split|].
  cbn [lstrip]. destruct (is_space c) eqn:Ec.
  - exists (c :: ws). split.
    + unfold all_space. cbn [forallb]. now rewrite Ec.
    + cbn [app]. now f_equal.
  - exists []. now split.
Qed.

Lemma all_space_rev (s : str) : all_space s -> all_space (rev s).
Proof.
  unfold all_space. rewrite !forallb_forall. intros H x Hx.
  apply H. now apply in_rev.
Qed.

Lemma rstrip_split (s : str) :
  exists ws, all_space ws /\ s = rstrip s ++ ws.
Proof.
  unfold rstrip. destruct (lstrip_split (rev s)) as (ws & Hws & E).
  exists (rev ws). split; [now apply all_space_rev|].
  rewrite <- rev_app_distr, <- E. now rewrite rev_involutive.
Qed.

Lemma rstrip_app_space (x e : str) :
  all_space e -> rstrip (x ++ e) = rstrip x.
Proof.
  intros He. unfold rstrip. rewrite rev_app_distr.
  now rewrite lstrip_app_space by now apply all_space_rev.
Qed.

Lemma strip_all_space (s : str) : all_space s -> strip s = [].
Proof. intros H. unfold strip. now rewrite lstrip_all_space. Qed.

Lemma strip_cons_space (c : Z) (s : str) :
  is_space c = true -> strip (c :: s) = strip s.
Proof. intros H. unfold strip. cbn [lstrip]. now rewrite H. Qed.

Lemma strip_app_space (l e : str) :
  all_space e -> strip (l ++ e) = strip l.
Proof.
  intros He. unfold strip. rewrite lstrip_app.
  destruct (lstrip l) as [|c l'] eqn:El.
  - now rewrite lstrip_all_space.
  - now apply rstrip_app_space.
Qed.

Lemma stripped_lines_eq (s : str) : stripped_lines s = stripped (splitlines s).
Proof. reflexivity. Qed.

Lemma stripped_cons_space (e : str) (ls : list str) :
  all_space e -> stripped (e :: ls) = stripped ls.
Proof.
  intros He. unfold stripped. cbn [filter].
  now rewrite (strip_all_space e He).
Qed.

Lemma stripped_cons_strip (l l' : str) (ls ls' : list str) :
  strip l = strip l' -> stripped ls = stripped ls' ->
  stripped (l :: ls) = stripped (l' :: ls').
Proof.
  unfold stripped. cbn [filter]. intros E1 E. rewrite E1.
  destruct (nonempty (strip l')); cbn [map]; now rewrite ?E1, E.
Qed.

(** A leading white space character changes no line. *)
Lemma stripped_lines_cons_space (c : Z) (s : str) :
  is_space c = true -> stripped_lines (c :: s) = stripped_lines s.
Proof.
  intros Hc. rewrite !stripped_lines_eq. cbn [splitlines].
  destruct (is_linebreak c) eqn:Eb.
  - rewrite stripped_cons_space by reflexivity.
    destruct s as [|d s]; [reflexivity|].
    destruct ((c =? 13) && (d =? 10)) eqn:E; [|reflexivity].
    apply andb_true_iff in E as [_ E]. apply Z.eqb_eq in E. subst d.
    cbn [splitlines]. change (is_linebreak 10) with true. cbv iota.
    rewrite stripped_cons_space by reflexivity.
    destruct s as [|d s]; reflexivity.
  - destruct (splitlines s) as [|l ls]; cbn [cons_line].
    + apply stripped_cons_space. unfold all_space. cbn [forallb].
      now rewrite Hc.
    + apply stripped_cons_strip; [|reflexivity].
      now apply strip_cons_space.
Qed.

Lemma stripped_lines_lstrip (s : str) :
  stripped_lines (lstrip s) = stripped_lines s.
Proof.
  induction s as [|c s IH]; [reflexivity|]. cbn [lstrip].
  destruct (is_space c) eqn:Ec; [|reflexivity].
  now rewrite stripped_lines_cons_space.
Qed.

Lemma grows_stripped (ls ls' : list str) :
  grows ls ls' -> stripped ls' = stripped ls.
Proof.
  induction 1 as [ls|e He|l e He|l ls ls' _ IH].
  - reflexivity.
  - now apply stripped_cons_space.
  - apply stripped_cons_strip; [now apply strip_app_space|reflexivity].
  - now apply stripped_cons_strip.
Qed.

Lemma grows_cons_line (c : Z) (ls ls' : list str) :
  grows ls ls' -> grows (cons_line c ls) (cons_line c ls').
Proof.
  destruct 1 as [ls|e He|l e He|l ls ls' H]; cbn [cons_line].
  - apply grows_same.
  - apply (grows_last [c] e He).
  - apply (grows_last (c :: l) e He).
  - now apply grows_cons.
Qed.

Lemma splitlines_snoc_aux (w : Z) (n : nat) :
  is_space w = true ->
  forall t, (List.length t <= n)%nat ->
  grows (splitlines t) (splitlines (t ++ [w])).
Proof.
  intros Hw. induction n as [|n IH]; intros t Hn.
  - destruct t; [|simpl in Hn; lia]. cbn [app splitlines].
    destruct (is_linebreak w).
    + now apply grows_new.
    + apply grows_new. unfold all_space. cbn [forallb]. now rewrite Hw.
  - destruct t as [|c t]; [apply (IH [] ltac:(simpl; lia))|].
    cbn [List.length] in Hn. cbn [app splitlines].
    destruct (is_linebreak c).
    + apply grows_cons. destruct t as [|d t].
      * cbn [app]. destruct ((c =? 13) && (w =? 10)).
        -- apply grows_same.
        -- apply (IH [] ltac:(simpl; lia)).
      * cbn [app]. cbn [List.length] in Hn.
        destruct ((c =? 13) && (d =? 10)).
        -- apply IH. lia.
        -- apply (IH (d :: t)). cbn [List.length]. lia.
    + apply grows_cons_line, IH. lia.
Qed.

(** Trailing white space changes no line. *)
Lemma stripped_lines_app_space (s ws : str) :
  all_space ws -> stripped_lines (s ++ ws) = stripped_lines s.
Proof.
  revert s. induction ws as [|w ws IH]; intros s H.
  - now rewrite app_nil_r.
  - unfold all_space in H. cbn [forallb] in H.
    apply andb_true_iff in H as [Hw H].
    change (w :: ws) with ([w] ++ ws). rewrite app_assoc, IH by exact H.
    rewrite !stripped_lines_eq. apply grows_stripped.
    now apply (splitlines_snoc_aux w (List.length s)).
Qed.

(** Stripping the text first changes no line. *)
Lemma stripped_lines_strip (s : str) :
  stripped_lines (strip s) = stripped_lines s.
Proof.
  unfold strip.
  destruct (rstrip_split (lstrip s)) as (ws & Hws & E).
  rewrite <- (stripped_lines_lstrip s).
  rewrite <- (stripped_lines_app_space (rstrip (lstrip s)) ws Hws).
  now rewrite <- E.
Qed.

End LineFacts.

(** ** The subscription decoder *)

Module SubscriptionFacts.
Import Py Val ConvertSubscription SubscriptionSpec PyFacts LineFacts.
Import Utf8Facts Base64Facts.

Lemma lstrip_no_space (s : str) : no_space s -> lstrip s = s.
Proof.
  destruct s as [|c s]; [reflexivity|]. unfold no_space. cbn [forallb lstrip].
  intros H. apply andb_true_iff in H as [H _].
  apply negb_true_iff in H. now rewrite H.
Qed.

Lemma no_space_rev (s : str) : no_space s -> no_space (rev s).
Proof.
  unfold no_space. rewrite !forallb_forall. intros H x Hx.
  apply H. now apply in_rev.
Qed.

Lemma strip_no_space (s : str) : no_space s -> strip s = s.
Proof.
  intros H. unfold strip, rstrip. rewrite (lstrip_no_space s H).
  rewrite lstrip_no_space by now apply no_space_rev.
  apply rev_involutive.
Qed.

Lemma split_ws_no_space (s : str) :
  no_space s -> s <> [] -> split_ws s = [s].
Proof.
  unfold no_space. induction s as [|c s IH]; [congruence|].
  cbn [forallb split_ws]. intros H _.
  apply andb_true_iff in H as [Hc H]. apply negb_true_iff in Hc.
  rewrite Hc. destruct s as [|d s]; [reflexivity|].
  assert (Hd : is_space d = false).
  { cbn [forallb] in H. apply andb_true_iff in H as [H _].
    now apply negb_true_iff. }
  rewrite Hd, IH by (assumption || discriminate). reflexivity.
Qed.

Lemma normalized_no_space (s : str) :
  no_space s -> join [] (split_ws s) = s.
Proof.
  intros H. destruct s as [|c s]; [reflexivity|].
  now rewrite split_ws_no_space by (assumption || discriminate).
Qed.

Lemma splitlines_line (l rest : str) :
  no_linebreak l = true -> splitlines (l ++ 10 :: rest) = l :: splitlines rest.
Proof.
  unfold no_linebreak. induction l as [|c l IH]; intros H.
  - cbn [app splitlines]. change (is_linebreak 10) with true. cbv iota.
    destruct rest; reflexivity.
  - cbn [forallb] in H. apply andb_true_iff in H as [Hc H].
    apply negb_true_iff in Hc. cbn [app splitlines]. rewrite Hc.
    now rewrite IH.
Qed.

Lemma splitlines_last (l : str) :
  no_linebreak l = true -> l <> [] -> splitlines l = [l].
Proof.
  unfold no_linebreak. induction l as [|c l IH]; [congruence|].
  intros H _. cbn [forallb] in H. apply andb_true_iff in H as [Hc H].
  apply negb_true_iff in Hc. cbn [splitlines]. rewrite Hc.
  destruct l as [|d l]; [reflexivity|].
  now rewrite IH by (assumption || discriminate).
Qed.

Lemma uri_line_parts (l : str) :
  is_uri_line l = true ->
  l <> [] /\ strip l = l /\ no_linebreak l = true
  /\ contains (lit "://") l = true.
Proof.
  unfold is_uri_line. intros H.
  repeat (apply andb_true_iff in H as [H ?]).
  repeat split; try assumption.
  - intros ->. discriminate.
  - now apply str_eqb_eq.
Qed.

Lemma splitlines_join (lines : list str) :
  forallb is_uri_line lines = true ->
  splitlines (join [10] lines) = lines.
Proof.
  induction lines as [|l lines IH]; [reflexivity|].
  cbn [forallb]. intros H. apply andb_true_iff in H as [Hl H].
  destruct (uri_line_parts l Hl) as (Hne & _ & Hnb & _).
  destruct lines as [|l2 lines].
  - now apply splitlines_last.
  - change (join [10] (l :: l2 :: lines))
      with (l ++ 10 :: join [10] (l2 :: lines)).
    now rewrite splitlines_line, IH.
Qed.

Lemma stripped_uri_lines (lines : list str) :
  forallb is_uri_line lines = true -> stripped lines = lines.
Proof.
  unfold stripped. induction lines as [|l lines IH]; [reflexivity|].
  cbn [forallb filter]. intros H. apply andb_true_iff in H as [Hl H].
  destruct (uri_line_parts l Hl) as (Hne & Hs & _).
  rewrite Hs. destruct l; [congruence|]. cbn [nonempty map].
  now rewrite Hs, IH.
Qed.

Lemma join_nonempty (l : str) (lines : list str) :
  l <> [] -> join [10] (l :: lines) <> [].
Proof.
  intros H. destruct lines; cbn [join]; [exact H|].
  destruct l; [congruence|discriminate].
Qed.

(** C8: the lines of a subscription come back from the base64 text of
    their UTF-8 encoding. *)
Theorem subscription_round_trip (lines : list str) (bs : bytes) :
  forallb is_uri_line lines = true ->
  Utf8.encode (join [10] lines) = Some bs ->
  parse_subscription (Base64.b64encode bs) = lines.
Proof.
  intros Hl He.
  assert (Hb := utf8_encode_octets _ _ He).
  assert (Hns : no_space (Base64.b64encode bs))
    by now apply encode_no_space.
  unfold parse_subscription. rewrite (strip_no_space _ Hns).
  destruct lines as [|l lines].
  - injection He as <-. reflexivity.
  - assert (Hl1 : is_uri_line l = true)
      by (cbn [forallb] in Hl; now apply andb_true_iff in Hl as [Hl _]).
    destruct (uri_line_parts l Hl1) as (Hne & _ & _ & Hc).
    assert (Hbs : bs <> [])
      by (apply (utf8_encode_nonempty _ _ He); now apply join_nonempty).
    assert (Hblob : Base64.b64encode bs <> [])
      by now apply base64_encode_nonempty.
    destruct (Base64.b64encode bs) as [|c blob] eqn:Eb; [congruence|].
    cbn [nonempty negb]. rewrite <- Eb in *.
    unfold try_base64. rewrite (normalized_no_space _ Hns).
    rewrite (b64decode_b64encode bs Hb). cbn [orelse bind].
    unfold Utf8.decode_replace.
    rewrite (utf8_decode_encode Utf8.Replace _ _ He).
    rewrite stripped_lines_eq, (splitlines_join _ Hl).
    rewrite (stripped_uri_lines _ Hl).
    cbn [existsb]. now rewrite Hc.
Qed.

Lemma subscription_round_trip_witness :
  parse_subscription
    (Base64.b64encode
       (lit "vless://a@b:1" ++ [10] ++ lit "trojan://c@d:2"))
  = [lit "vless://a@b:1"; lit "trojan://c@d:2"].
Proof.
  apply (subscription_round_trip
           [lit "vless://a@b:1"; lit "trojan://c@d:2"]
           (lit "vless://a@b:1" ++ [10] ++ lit "trojan://c@d:2"));
    reflexivity.
Defined.

(** C7: a text whose base64 reading fails or is rejected gives its own
    stripped lines, and a text of white space gives no line. *)
Theorem parse_subscription_plain_text (content : str) :
  (base64_accepted content = false ->
   parse_subscription content = stripped_lines content)
  /\ (forallb is_space content = true -> parse_subscription content = []).
Proof.
  split.
  - unfold base64_accepted, parse_subscription, try_base64.
    intros H. rewrite <- (stripped_lines_strip content).
    destruct (strip content) as [|c s] eqn:Es; [reflexivity|].
    cbn [nonempty negb]. rewrite <- Es in *.
    destruct (Base64.b64decode _) as [raw|]; [|reflexivity].
    cbn [orelse bind]. now rewrite H.
  - intros H. unfold parse_subscription.
    now rewrite (strip_all_space content H).
Qed.


Lemma parse_subscription_plain_text_witness :
  parse_subscription
    (lit "  vless://a@b:1" ++ [10] ++ lit "trojan://c@d:2  " ++ [10])
  = [lit "vless://a@b:1"; lit "trojan://c@d:2"]
  /\ parse_subscription [32; 10; 9; 32] = [].
Proof.
  split.
  - apply (proj1 (parse_subscription_plain_text
                    (lit "  vless://a@b:1" ++ [10]
                     ++ lit "trojan://c@d:2  " ++ [10]))).
    reflexivity.
  - apply (proj2 (parse_subscription_plain_text [32; 10; 9; 32])).
    reflexivity.
Defined.

End SubscriptionFacts.

(** ** The link decoders *)

Module ConvertersFacts.
Import Py Val Lib Converters Spec PyFacts DictFacts Utf8Facts.

Section WithRuntime.
Variable rt : runtime.

Lemma except_none_some {A : Type} (m : outcome A) (a : A) :
  except_none (Val.bind m (fun p => Ret (Some p))) = Ret (Some a) ->
  m = Ret a.
Proof. destruct m; simpl; congruence. Qed.

(** The record of a VLESS link in terms of its parts. *)
Lemma vless_body_record link p :
  vless_body rt link = Ret p ->
  exists link' tag u po,
    split_n (lit "#") 1 link = link' :: tag
    /\ urlparse rt link' = Some u
    /\ port u = Ret po
    /\ p = vless_record
             (match tag with t :: _ => unquote t | [] => lit "VLESS_Node" end)
             (of_opt_str (hostname rt u)) (of_opt_int po)
             (of_opt_str (username u)) (parse_qs (query u)).
Proof.
  unfold vless_body.
  destruct (split_n (lit "#") 1 link) as [|link' tag]; [discriminate|].
  destruct (urlparse rt link') as [u|] eqn:Hu; [|discriminate].
  cbn [orelse bind].
  destruct (port u) as [po|] eqn:Hport; [|discriminate].
  cbn [bind]. cbv zeta. lookup. cbn [truthy orelse bind]. lookup.
  cbn [orelse bind]. intros H. injection H as <-.
  exists link', tag, u, po. repeat split; try reflexivity; assumption.
Qed.

Lemma vless_record_fields name server po uuid qs :
  let p := vless_record name server po uuid qs in
  assoc (lit "type") p = Some (VStr (lit "vless"))
  /\ assoc (lit "udp") p = Some (VBool true)
  /\ assoc (lit "network") p = Some (q qs (lit "type") (VStr (lit "tcp"))).
Proof. unfold vless_record. cbv zeta. lookup. repeat split. Qed.

Lemma vmess_body_fields link p :
  vmess_body rt link = Ret p ->
  assoc (lit "type") p = Some (VStr (lit "vmess"))
  /\ assoc (lit "udp") p = Some (VBool true).
Proof.
  unfold vmess_body.
  destruct (nth_error _ 1) as [payload|]; [|discriminate].
  cbn [orelse bind].
  destruct (Base64.b64decode payload) as [raw|]; [|discriminate].
  cbn [orelse bind].
  destruct (Utf8.decode Utf8.Strict raw) as [text|]; [|discriminate].
  cbn [orelse bind].
  destruct (json_loads rt text) as [data|]; [|discriminate].
  cbn [orelse bind].
  destruct data as [| | | | |d]; try discriminate.
  cbn [get bind]. lookup. cbn [orelse bind truthy].
  destruct (py_eqb _ (VStr (lit "tls"))); cbn [bind]; lookup;
    cbn [orelse bind];
    destruct (py_eqb _ (VStr (lit "ws"))); cbn [bind]; lookup;
    cbn [orelse bind];
    destruct (py_eqb _ (VStr (lit "grpc"))); cbn [bind];
    intros H; injection H as <-; lookup; split; reflexivity.
Qed.

Lemma trojan_body_fields link p :
  trojan_body rt link = Ret p ->
  assoc (lit "type") p = Some (VStr (lit "trojan"))
  /\ assoc (lit "udp") p = Some (VBool true).
Proof.
  unfold trojan_body.
  destruct (split_n (lit "#") 1 link) as [|link' tag]; [discriminate|].
  destruct (urlparse rt link') as [u|]; [|discriminate].
  cbn [orelse bind].
  destruct (port u) as [po|]; [|discriminate].
  cbn [bind]. intros H; injection H as <-. lookup. split; reflexivity.
Qed.

Lemma ss_body_fields link p :
  ss_body rt link = Ret (Some p) ->
  assoc (lit "type") p = Some (VStr (lit "ss"))
  /\ assoc (lit "udp") p = None.
Proof.
  unfold ss_body.
  destruct (strip_prefix (lit "ss://") link) as [uri|]; [|discriminate].
  repeat match goal with
         | |- Val.bind ?m _ = _ -> _ =>
             destruct m as [?|?]; [cbn [bind]|discriminate]
         | |- (let '(_, _) := ?x in _) = _ -> _ => destruct x
         end.
  intros H; injection H as <-. split; reflexivity.
Qed.

Lemma except_none_ret {A : Type} (m : outcome (option A)) r :
  except_none m = Ret (Some r) -> m = Ret (Some r).
Proof. destruct m; simpl; congruence. Qed.

End WithRuntime.
(** *** Query values are never empty *)

Lemma unquote_to_bytes_nonempty (s : str) :
  s <> [] -> unquote_to_bytes s <> [].
Proof.
  destruct s as [|c s]; [congruence|]. intros _. cbn [unquote_to_bytes].
  destruct (c =? 37); [|discriminate].
  destruct s as [|h1 [|h2 s]]; try discriminate.
  destruct (hex_value h1), (hex_value h2); discriminate.
Qed.

Lemma unquote_runs_nonempty (s run : str) :
  run <> [] \/ s <> [] -> unquote_runs run s <> [].
Proof.
  revert run. induction s as [|c s IH]; intros run H; cbn [unquote_runs].
  - destruct H as [H|H]; [|congruence].
    apply decode_replace_nonempty, unquote_to_bytes_nonempty.
    intros E. apply H. apply (f_equal (@rev Z)) in E.
    now rewrite rev_involutive in E.
  - destruct (c <? 128).
    + apply IH. left. discriminate.
    + intros E. apply app_eq_nil in E as [_ E]. discriminate.
Qed.

Lemma unquote_nonempty (s : str) : s <> [] -> unquote s <> [].
Proof.
  intros H. unfold unquote. destruct (contains [37] s); [|exact H].
  apply unquote_runs_nonempty. now right.
Qed.

Lemma replace_char_nonempty (old : Z) (new s : str) :
  new <> [] -> s <> [] -> replace_char old new s <> [].
Proof.
  intros Hn Hs. destruct s as [|c s]; [congruence|].
  unfold replace_char. cbn [flat_map].
  destruct (c =? old); [|discriminate].
  intros E. apply app_eq_nil in E as [E _]. contradiction.
Qed.

Lemma parse_qsl_nonempty (qs name value : str) :
  In (name, value) (parse_qsl qs) -> value <> [].
Proof.
  unfold parse_qsl. destruct (nonempty qs); [|intros []].
  intros H. apply in_flat_map in H as (nv & _ & H).
  destruct (split_n [61] 1 nv) as [|n [|v [|]]]; try contradiction.
  destruct (nonempty v) eqn:Hv; [|contradiction].
  destruct H as [H|[]]. injection H as _ <-.
  apply unquote_nonempty, replace_char_nonempty; [discriminate|].
  intros ->. discriminate.
Qed.

Lemma parse_qs_add_nonempty (pairs : list (str * str)) :
  forall d : query_dict,
  (forall k v vs, assoc k d = Some (v, vs) -> v <> []) ->
  (forall n v, In (n, v) pairs -> v <> []) ->
  forall k v vs, assoc k (parse_qs_add pairs d) = Some (v, vs) -> v <> [].
Proof.
  induction pairs as [|[name value] pairs IH]; intros d Hd Hp; [exact Hd|].
  cbn [parse_qs_add]. apply IH.
  - intros k v vs.
    destruct (str_eqb k name) eqn:E.
    + apply str_eqb_eq in E. subst k.
      destruct (assoc name d) as [[v0 vs0]|] eqn:Ha;
        rewrite assoc_set_same; intros H; injection H as <- _.
      * now apply Hd in Ha.
      * apply (Hp name). now left.
    + destruct (assoc name d) as [[v0 vs0]|];
        rewrite assoc_set_other by exact E; apply Hd.
  - intros n v H. apply (Hp n). now right.
Qed.

Lemma parse_qs_nonempty (qs k v : str) (vs : list str) :
  assoc k (parse_qs qs) = Some (v, vs) -> v <> [].
Proof.
  apply parse_qs_add_nonempty.
  - intros k' v' vs'. discriminate.
  - intros n v'. apply parse_qsl_nonempty.
Qed.

(** [ws_host or server], with [ws_host = q("host")]. *)
Lemma host_or_server (qs : str) (server : pyval) :
  py_or (q (parse_qs qs) (lit "host") VNone) server
  = match assoc (lit "host") (parse_qs qs) with
    | Some (h, _) => VStr h
    | None => server
    end.
Proof.
  unfold q. destruct (assoc _ _) as [[h hs]|] eqn:E; [|reflexivity].
  apply parse_qs_nonempty in E. destruct h; [congruence|reflexivity].
Qed.

(** The dispatcher returns, whatever the link. *)
Lemma link_to_clash_returns (rt : runtime) (link : str) :
  exists r, link_to_clash rt link = Ret r.
Proof.
  unfold link_to_clash, split.
  destruct (split_n (lit "://") (List.length link) link) as [|first rest] eqn:E.
  - destruct (List.length link); simpl in E; [discriminate|].
    destruct (cut _ link) as [[a b]|]; discriminate.
  - cbn [nth_error orelse bind].
    destruct (PARSERS_get _) as [k|]; [|eexists; reflexivity].
    assert (H : exists r, run_parser rt k link = Ret r).
    { destruct k; simpl; unfold vless_to_clash, vmess_to_clash,
        trojan_to_clash, ss_to_clash, except_none;
        match goal with |- exists r, match ?m with _ => _ end = _ =>
          destruct m; eexists; reflexivity end. }
    destruct H as (r & ->). exists r. reflexivity.
Qed.

(** A scheme outside the table gives no result. *)
Lemma link_to_clash_unsupported (rt : runtime) (link first : str) :
  nth_error (split (lit "://") link) 0 = Some first ->
  PARSERS_get (str_lower rt first) = None ->
  link_to_clash rt link = Ret None.
Proof.
  intros H1 H2. unfold link_to_clash. rewrite H1. cbn [orelse bind].
  now rewrite H2.
Qed.

(** C10: a record of the VLESS, VMess or Trojan decoder has [udp] set to
    true, a record of the Shadowsocks decoder has no [udp] field. *)
Theorem udp_field (rt : runtime) (k : parser) (link : str) (p : dict) :
  run_parser rt k link = Ret (Some p) ->
  assoc (lit "udp") p
  = match k with Ss => None | _ => Some (VBool true) end.
Proof.
  destruct k; simpl; intros H.
  - apply except_none_some in H. apply vless_body_record in H.
    destruct H as (l & t & u & po & _ & _ & _ & ->).
    apply vless_record_fields.
  - apply except_none_some in H. now apply vmess_body_fields in H.
  - apply except_none_some in H. now apply trojan_body_fields in H.
  - apply except_none_ret in H. now apply ss_body_fields in H.
Qed.

Lemma udp_field_witness :
  assoc (lit "udp")
    [ (lit "name", VStr (lit "Trojan_Node"));
      (lit "type", VStr (lit "trojan"));
      (lit "server", VStr (lit "h.example")); (lit "port", VInt 443);
      (lit "password", VStr (lit "pw")); (lit "udp", VBool true);
      (lit "sni", VStr (lit "h.example")) ]
  = Some (VBool true).
Proof.
  apply (udp_field Reference.rt Trojan (lit "trojan://pw@h.example:443")).
  vm_compute. reflexivity.
Defined.

(** C1, as stated, fails: the Shadowsocks decoder returns a record with
    an empty name, an empty server and the port 0. *)
Lemma record_invariant_counterexample :
  exists p,
    run_parser Reference.rt Ss (lit "ss://YWVzLTI1Ni1nY206cGFzc3dvcmQ@:0#")
    = Ret (Some p)
    /\ assoc (lit "name") p = Some (VStr [])
    /\ assoc (lit "server") p = Some (VStr [])
    /\ assoc (lit "port") p = Some (VInt 0)
    /\ well_formed p = false.
Proof. eexists. vm_compute. repeat split. Qed.

(** C1, amended: a record a decoder returns has the scheme of the decoder
    as its type, which is one of the supported types. *)
Theorem record_type (rt : runtime) (k : parser) (link : str) (p : dict) :
  run_parser rt k link = Ret (Some p) ->
  assoc (lit "type") p = Some (VStr (scheme_name k))
  /\ In (scheme_name k) supported_types.
Proof.
  intros H. split.
  - destruct k; simpl in H |- *.
    + apply except_none_some in H. apply vless_body_record in H.
      destruct H as (l & t & u & po & _ & _ & _ & ->).
      apply vless_record_fields.
    + apply except_none_some in H. now apply vmess_body_fields in H.
    + apply except_none_some in H. now apply trojan_body_fields in H.
    + apply except_none_ret in H. now apply ss_body_fields in H.
  - destruct k; simpl; auto.
Qed.

Lemma record_type_witness :
  assoc (lit "type")
    [ (lit "name", VStr []); (lit "type", VStr (lit "ss"));
      (lit "server", VStr []); (lit "port", VInt 0);
      (lit "cipher", VStr (lit "aes-256-gcm"));
      (lit "password", VStr (lit "password")) ]
  = Some (VStr (lit "ss"))
  /\ In (lit "ss") supported_types.
Proof.
  apply (record_type Reference.rt Ss
           (lit "ss://YWVzLTI1Ni1nY206cGFzc3dvcmQ@:0#")).
  vm_compute. reflexivity.
Defined.

(** C2, where the code departs from it: the link [vless] has no [://],
    and the dispatcher hands it to the VLESS decoder, which returns a
    record. *)
Theorem link_to_clash_without_delimiter (rt : runtime) :
  str_lower rt (lit "vless") = lit "vless" ->
  contains (lit "://") (lit "vless") = false
  /\ link_to_clash rt (lit "vless")
     = Ret (Some [ (lit "name", VStr (lit "VLESS_Node"));
                   (lit "type", VStr (lit "vless"));
                   (lit "server", VNone); (lit "port", VNone);
                   (lit "udp", VBool true); (lit "uuid", VNone);
                   (lit "network", VStr (lit "tcp"));
                   (lit "tls", VBool false);
                   (lit "encryption", VStr (lit "none")) ]).
Proof.
  intros H. split; [reflexivity|].
  unfold link_to_clash.
  change (nth_error (split (lit "://") (lit "vless")) 0)
    with (Some (lit "vless")).
  cbn [orelse bind]. rewrite H. vm_compute. reflexivity.
Qed.

Lemma link_to_clash_without_delimiter_witness :
  contains (lit "://") (lit "vless") = false
  /\ link_to_clash Reference.rt (lit "vless")
     = Ret (Some [ (lit "name", VStr (lit "VLESS_Node"));
                   (lit "type", VStr (lit "vless"));
                   (lit "server", VNone); (lit "port", VNone);
                   (lit "udp", VBool true); (lit "uuid", VNone);
                   (lit "network", VStr (lit "tcp"));
                   (lit "tls", VBool false);
                   (lit "encryption", VStr (lit "none")) ]).
Proof. apply (link_to_clash_without_delimiter Reference.rt). reflexivity. Defined.

(** C3, as stated, fails: with [sni] and no [host] in the query, the
    server name is the [sni] and the [Host] header the server. *)
Lemma ws_host_counterexample :
  exists p,
    vless_to_clash Reference.rt
      (lit "vless://uuid@host:443?type=ws&security=tls&sni=s.example")
    = Ret (Some p)
    /\ assoc (lit "network") p = Some (VStr (lit "ws"))
    /\ assoc (lit "servername") p = Some (VStr (lit "s.example"))
    /\ ws_host_header p = Some (VStr (lit "host")).
Proof. eexists. vm_compute. repeat split. Qed.

(** C3, amended: for a VLESS link whose network is [ws], the record has
    WebSocket options with the [path] of the query, [/] when it has none,
    and as [Host] header the [host] of the query, the server when it has
    none; the [sni] is not looked at. *)
Theorem vless_ws_opts (rt : runtime) (link : str) (p : dict) :
  vless_to_clash rt link = Ret (Some p) ->
  assoc (lit "network") p = Some (VStr (lit "ws")) ->
  exists link' tag u,
    split_n (lit "#") 1 link = link' :: tag
    /\ urlparse rt link' = Some u
    /\ assoc (lit "ws-opts") p
       = Some (VDict
           [ (lit "path",
              match assoc (lit "path") (parse_qs (query u)) with
              | Some (path, _) => VStr path
              | None => VStr (lit "/")
              end);
             (lit "headers",
              VDict [ (lit "Host",
                       match assoc (lit "host") (parse_qs (query u)) with
                       | Some (host, _) => VStr host
                       | None => of_opt_str (hostname rt u)
                       end) ]) ]).
Proof.
  intros H Hnet. apply except_none_some in H.
  apply vless_body_record in H.
  destruct H as (link' & tag & u & po & Hs & Hu & _ & ->).
  exists link', tag, u. split; [exact Hs|]. split; [exact Hu|].
  destruct (vless_record_fields
              (match tag with t :: _ => unquote t | [] => lit "VLESS_Node" end)
              (of_opt_str (hostname rt u)) (of_opt_int po)
              (of_opt_str (username u)) (parse_qs (query u)))
    as (_ & _ & Hn).
  rewrite Hn in Hnet. injection Hnet as Hnet.
  unfold vless_record. cbv zeta. rewrite Hnet.
  lookup. rewrite assoc_set_if_same.
  change (py_eqb (VStr (lit "ws")) (VStr (lit "ws"))) with true.
  cbv iota. rewrite host_or_server. reflexivity.
Qed.

Lemma vless_ws_opts_witness :
  exists link' tag u,
    split_n (lit "#") 1 (lit "vless://uuid@host:443?type=ws&sni=s.example")
    = link' :: tag
    /\ urlparse Reference.rt link' = Some u
    /\ assoc (lit "ws-opts")
         [ (lit "name", VStr (lit "VLESS_Node"));
           (lit "type", VStr (lit "vless"));
           (lit "server", VStr (lit "host")); (lit "port", VInt 443);
           (lit "udp", VBool true); (lit "uuid", VStr (lit "uuid"));
           (lit "network", VStr (lit "ws")); (lit "tls", VBool false);
           (lit "encryption", VStr (lit "none"));
           (lit "ws-opts",
            VDict [ (lit "path", VStr (lit "/"));
                    (lit "headers",
                     VDict [ (lit "Host", VStr (lit "host")) ]) ]) ]
       = Some (VDict
           [ (lit "path",
              match assoc (lit "path") (parse_qs (query u)) with
              | Some (path, _) => VStr path
              | None => VStr (lit "/")
              end);
             (lit "headers",
              VDict [ (lit "Host",
                       match assoc (lit "host") (parse_qs (query u)) with
                       | Some (host, _) => VStr host
                       | None => of_opt_str (hostname Reference.rt u)
                       end) ]) ]).
Proof.
  apply (vless_ws_opts Reference.rt
           (lit "vless://uuid@host:443?type=ws&sni=s.example")).
  - vm_compute. reflexivity.
  - vm_compute. reflexivity.
Defined.

End ConvertersFacts.

(** ** The Shadowsocks decoder *)

Module ShadowsocksFacts.
Import Py Val Lib Converters Spec PyFacts Utf8Facts Base64Facts.

Lemma cut_char_none (x : Z) (s : str) :
  without x s = true -> cut [x] s = None.
Proof.
  unfold without. induction s as [|c s IH]; [reflexivity|].
  cbn [forallb cut strip_prefix]. intros H.
  apply andb_true_iff in H as [Hc H]. apply negb_true_iff in Hc.
  rewrite Z.eqb_sym, Hc. now rewrite IH.
Qed.

Lemma cut_char_app (x : Z) (a b : str) :
  without x a = true -> cut [x] (a ++ x :: b) = Some (a, b).
Proof.
  unfold without. induction a as [|c a IH].
  - intros _. cbn [app cut strip_prefix]. now rewrite Z.eqb_refl.
  - cbn [forallb app cut strip_prefix]. intros H.
    apply andb_true_iff in H as [Hc H]. apply negb_true_iff in Hc.
    rewrite Z.eqb_sym, Hc. now rewrite IH.
Qed.

Lemma without_app (x : Z) (a b : str) :
  without x (a ++ b) = without x a && without x b.
Proof. apply forallb_app. Qed.

Lemma encode_without_char (u p : bool) (x : Z) (bs : bytes) :
  Base64.is_octets bs = true ->
  Base64.table_a2b (Base64.urlsafe_translate x) = 64 -> x <> 61 ->
  without x (Base64.encode u p bs) = true.
Proof. apply encode_without. Qed.

Section WithRuntime.
Variable rt : runtime.

(** The credentials before the [@], in either alphabet, padded or
    not. *)
Lemma ss_credentials_before_at (urlsafe pad : bool)
    (method password server port_text : str) (cred : bytes) (port : Z) :
  Utf8.encode (method ++ lit ":" ++ password) = Some cred ->
  without 58 method = true ->
  without 35 server = true -> without 58 server = true ->
  without 35 port_text = true ->
  int_of_str rt port_text = Some port ->
  ss_to_clash rt
    (lit "ss://" ++ Base64.encode urlsafe pad cred ++ lit "@" ++ server
     ++ lit ":" ++ port_text)
  = Ret (Some (ss_record (lit "SS_Node") server port method password)).
Proof.
  intros He Hm Hs1 Hs2 Hp Hint.
  assert (Hb := utf8_encode_octets _ _ He).
  unfold ss_to_clash, ss_body.
  change (strip_prefix (lit "ss://")
            (lit "ss://" ++ Base64.encode urlsafe pad cred ++ lit "@"
             ++ server ++ lit ":" ++ port_text))
    with (Some (Base64.encode urlsafe pad cred ++ lit "@" ++ server
                ++ lit ":" ++ port_text)).
  cbv iota beta.
  change (lit "@") with [64]. change (lit ":") with [58] in *.
  change (lit "#") with [35]. cbn [app] in *.
  set (enc := Base64.encode urlsafe pad cred).
  assert (H35 : without 35 (enc ++ 64 :: server ++ 58 :: port_text) = true).
  { rewrite without_app. apply andb_true_iff. split.
    - now apply encode_without_char.
    - change (64 :: server ++ 58 :: port_text)
        with ([64] ++ server ++ [58] ++ port_text).
      rewrite !without_app, Hs1, Hp. reflexivity. }
  assert (H64 : without 64 enc = true) by now apply encode_without_char.
  unfold contains. rewrite (cut_char_none 35 _ H35). cbn [bind].
  rewrite (cut_char_app 64 enc _ H64). cbn [split_n].
  rewrite (cut_char_app 64 enc _ H64). cbn [unpack2 bind].
  change (lit "==") with (repeat 61 2).
  unfold enc. rewrite urlsafe_b64decode_encode by (exact Hb || lia).
  cbn [orelse bind].
  rewrite (utf8_decode_encode Utf8.Strict _ _ He). cbn [orelse bind].
  cbn [app split_n].
  rewrite (cut_char_app 58 method _ Hm). cbn [unpack2 bind].
  rewrite (cut_char_app 58 server _ Hs2). cbn [unpack2 bind].
  rewrite Hint. reflexivity.
Qed.

(** The whole of method, password, server and port in one base64
    text. *)
Lemma ss_credentials_whole (urlsafe pad : bool)
    (method password server port_text : str) (whole : bytes) (port : Z) :
  Utf8.encode (method ++ lit ":" ++ password ++ lit "@" ++ server
               ++ lit ":" ++ port_text) = Some whole ->
  without 58 method = true ->
  without 64 password = true ->
  without 58 server = true ->
  int_of_str rt port_text = Some port ->
  ss_to_clash rt (lit "ss://" ++ Base64.encode urlsafe pad whole)
  = Ret (Some (ss_record (lit "SS_Node") server port method password)).
Proof.
  intros He Hm Hpw Hs Hint.
  assert (Hb := utf8_encode_octets _ _ He).
  unfold ss_to_clash, ss_body.
  change (strip_prefix (lit "ss://")
            (lit "ss://" ++ Base64.encode urlsafe pad whole))
    with (Some (Base64.encode urlsafe pad whole)).
  cbv iota beta.
  change (lit "@") with [64] in *. change (lit ":") with [58] in *.
  change (lit "#") with [35]. cbn [app] in *.
  set (enc := Base64.encode urlsafe pad whole).
  assert (H35 : without 35 enc = true) by now apply encode_without_char.
  assert (H64 : without 64 enc = true) by now apply encode_without_char.
  unfold contains. rewrite (cut_char_none 35 _ H35). cbn [bind].
  rewrite (cut_char_none 64 _ H64).
  change (lit "==") with (repeat 61 2).
  unfold enc. rewrite urlsafe_b64decode_encode by (exact Hb || lia).
  cbn [orelse bind].
  rewrite (utf8_decode_encode Utf8.Strict _ _ He). cbn [orelse bind].
  cbn [split_n].
  rewrite (cut_char_app 58 method _ Hm). cbn [unpack2 bind].
  rewrite (cut_char_app 64 password _ Hpw). cbn [unpack2 bind].
  rewrite (cut_char_app 58 server _ Hs). cbn [unpack2 bind].
  rewrite Hint. reflexivity.
Qed.

End WithRuntime.

(** C9: the scenario of the specification, and the credentials read
    from base64 text in either alphabet with or without its padding, in
    both layouts. *)
Theorem ss_scenario_and_padding (rt : runtime) :
  ss_to_clash rt (lit "ss://YWVzLTI1Ni1nY206cGFzc3dvcmQ=@1.2.3.4:8388#Test")
  = Ret (Some (ss_record (lit "Test") (lit "1.2.3.4") 8388
                 (lit "aes-256-gcm") (lit "password")))
  /\ (forall (urlsafe pad : bool) (method password server port_text : str)
             (cred : bytes) (port : Z),
        Utf8.encode (method ++ lit ":" ++ password) = Some cred ->
        without 58 method = true ->
        without 35 server = true -> without 58 server = true ->
        without 35 port_text = true ->
        int_of_str rt port_text = Some port ->
        ss_to_clash rt
          (lit "ss://" ++ Base64.encode urlsafe pad cred ++ lit "@" ++ server
           ++ lit ":" ++ port_text)
        = Ret (Some (ss_record (lit "SS_Node") server port method password)))
  /\ (forall (urlsafe pad : bool) (method password server port_text : str)
             (whole : bytes) (port : Z),
        Utf8.encode (method ++ lit ":" ++ password ++ lit "@" ++ server
                     ++ lit ":" ++ port_text) = Some whole ->
        without 58 method = true ->
        without 64 password = true ->
        without 58 server = true ->
        int_of_str rt port_text = Some port ->
        ss_to_clash rt (lit "ss://" ++ Base64.encode urlsafe pad whole)
        = Ret (Some (ss_record (lit "SS_Node") server port method password))).
Proof.
  split; [vm_compute; reflexivity|]. split.
  - apply ss_credentials_before_at.
  - apply ss_credentials_whole.
Qed.

Lemma ss_scenario_and_padding_witness :
  ss_to_clash Reference.rt
    (lit "ss://YWVzLTI1Ni1nY206cGFzc3dvcmQ@1.2.3.4:8388")
  = Ret (Some (ss_record (lit "SS_Node") (lit "1.2.3.4") 8388
                 (lit "aes-256-gcm") (lit "password")))
  /\ ss_to_clash Reference.rt
       (lit "ss://YWVzLTI1Ni1nY206cGFzc3dvcmRAMS4yLjMuNDo4Mzg4")
     = Ret (Some (ss_record (lit "SS_Node") (lit "1.2.3.4") 8388
                    (lit "aes-256-gcm") (lit "password"))).
Proof.
  split.
  - apply (proj1 (proj2 (ss_scenario_and_padding Reference.rt))
             false false (lit "aes-256-gcm") (lit "password")
             (lit "1.2.3.4") (lit "8388") (lit "aes-256-gcm:password") 8388);
      reflexivity.
  - apply (proj2 (proj2 (ss_scenario_and_padding Reference.rt))
             false false (lit "aes-256-gcm") (lit "password")
             (lit "1.2.3.4") (lit "8388")
             (lit "aes-256-gcm:password@1.2.3.4:8388") 8388);
      reflexivity.
Defined.

End ShadowsocksFacts.

(** ** The merge *)

Module MergeFacts.
Import Py Val ConvertSubscription MergeSpec PyFacts DictFacts.

Lemma occurrences_app (name : str) (l l' : list pyval) :
  occurrences name (l ++ l') = (occurrences name l + occurrences name l')%nat.
Proof. unfold occurrences. now rewrite filter_app, length_app. Qed.

Lemma occurrences_one (name : str) (x : pyval) :
  occurrences name [x] = if py_eqb x (VStr name) then 1%nat else 0%nat.
Proof. unfold occurrences. simpl. now destruct (py_eqb x (VStr name)). Qed.

Lemma py_in_occurrences (name : str) (l : list pyval) :
  py_in (VStr name) l = negb (Nat.eqb (occurrences name l) 0).
Proof.
  unfold py_in, occurrences. induction l as [|y l IH]; simpl; [reflexivity|].
  destruct (py_eqb y (VStr name)); simpl; [reflexivity|exact IH].
Qed.

Section WithRuntime.
Variable rt : runtime.

(** Appending the new names adds a name once when it is new and not at
    all when it is there. *)
Lemma append_new_occurrences (name : str) (names l : list pyval) :
  occurrences name (append_new names l)
  = if existsb (fun x => py_eqb x (VStr name)) names
    then Nat.max 1 (occurrences name l)
    else occurrences name l.
Proof.
  revert l. induction names as [|x names IH]; intros l; [reflexivity|].
  cbn [append_new existsb]. rewrite IH.
  destruct (py_eqb x (VStr name)) eqn:Ex.
  - assert (Hx := proj1 (py_eqb_str _ _) Ex). subst x.
    rewrite py_in_occurrences.
    rewrite negb_involutive.
    destruct (Nat.eqb (occurrences name l) 0) eqn:E0.
    + apply Nat.eqb_eq in E0.
      rewrite occurrences_app, occurrences_one, Ex, E0.
      cbn [orb]. destruct (existsb _ names); reflexivity.
    + apply Nat.eqb_neq in E0. cbn [orb].
      destruct (existsb _ names); lia.
  - cbn [orb]. destruct (negb (py_in x l)); [|reflexivity].
    rewrite occurrences_app, occurrences_one, Ex, Nat.add_0_r.
    reflexivity.
Qed.

Lemma names_of_has_name (name : str) (proxies : list dict) names :
  names_of proxies = Ret names ->
  existsb (fun x => py_eqb x (VStr name)) names = has_name name proxies.
Proof.
  revert names. induction proxies as [|p ps IH]; intros names; cbn [names_of].
  - intros H; injection H as <-. reflexivity.
  - destruct (assoc (lit "name") p) as [v|] eqn:Ea; [|discriminate].
    cbn [orelse bind]. destruct (names_of ps) as [rest|]; [|discriminate].
    cbn [bind]. intros H; injection H as <-.
    unfold has_name in *. cbn [existsb]. rewrite Ea.
    now rewrite (IH rest eq_refl).
Qed.

(** What the loop body does to a group that has a list of names. *)
Lemma update_group_proxies proxies s m g l g' :
  update_group rt proxies s m g = Ret g' ->
  group_proxies g = Some l ->
  exists names,
    (if eligible rt s m g then names_of proxies else Ret []) = Ret names
    /\ group_proxies g' = Some (append_new names l)
    /\ forall s' m', eligible rt s' m' g' = eligible rt s' m' g.
Proof.
  destruct g as [| | | | |gd]; try discriminate.
  unfold group_proxies at 1. cbn [update_group].
  destruct (assoc (lit "proxies") gd) as [[| | | |l0|]|] eqn:Hp;
    try discriminate.
  intros H Hl. injection Hl as ->.
  unfold eligible at 1.
  set (t := str_lower rt _) in *.
  destruct (s && is_speed_type t) eqn:E1;
    [|destruct (m && is_manual_type t) eqn:E2]; cbn [orb];
    (destruct (names_of proxies) as [names|] eqn:En || idtac);
    cbn [bind] in H; try discriminate; injection H as <-;
    eexists; (split; [reflexivity|]); (split;
      [cbn [group_proxies]; now rewrite assoc_set_same
      |intros s' m'; cbn [eligible];
       now rewrite assoc_set_other by reflexivity]).
Qed.

Lemma update_group_other proxies s m g g' :
  update_group rt proxies s m g = Ret g' ->
  group_proxies g = None -> g' = g.
Proof.
  destruct g as [| | | | |gd]; cbn [update_group];
    try (intros H _; now injection H as <-).
  unfold group_proxies.
  destruct (assoc (lit "proxies") gd) as [[| | | |l0|]|];
    try discriminate; intros H _; now injection H as <-.
Qed.

Lemma update_groups_nth proxies s m groups groups' i g :
  update_groups rt proxies s m groups = Ret groups' ->
  nth_error groups i = Some g ->
  exists g', nth_error groups' i = Some g'
             /\ update_group rt proxies s m g = Ret g'.
Proof.
  revert groups' i. induction groups as [|g0 groups IH]; intros groups' i.
  - destruct i; discriminate.
  - cbn [update_groups].
    destruct (update_group rt proxies s m g0) as [g0'|] eqn:E0;
      [|discriminate].
    cbn [bind].
    destruct (update_groups rt proxies s m groups) as [rest|]; [|discriminate].
    cbn [bind]. intros H; injection H as <-.
    destruct i as [|i]; cbn [nth_error].
    + intros H; injection H as <-. eauto.
    + intros H. now apply (IH rest i eq_refl).
Qed.


Lemma falsy_top_level (loaded : pyval) :
  truthy loaded = false -> top_level loaded = [].
Proof. destruct loaded as [| | | | |[|]]; simpl; congruence. Qed.

(** What [merge] returns for a mapping. *)
Lemma merge_dict d proxies s m d' :
  merge rt (VDict d) proxies s m = Ret d' ->
  exists d1,
    (forall k, str_eqb k (lit "proxies") = false -> assoc k d1 = assoc k d)
    /\ filter (fun e => untouched (fst e)) d1
       = filter (fun e => untouched (fst e)) d
    /\ if s || m then
         match assoc (lit "proxy-groups") d with
         | None => d' = d1
         | Some (VList groups) =>
             exists groups',
               update_groups rt proxies s m groups = Ret groups'
               /\ d' = assoc_set (lit "proxy-groups") (VList groups') d1
         | Some _ => False
         end
       else d' = d1.
Proof.
  unfold merge.
  replace (if truthy (VDict d) then VDict d else VDict []) with (VDict d)
    by now destruct d.
  set (init := match assoc (lit "proxies") d with
               | None | Some VNone =>
                   (assoc_set (lit "proxies") (VList []) d, VList [])
               | Some v => (d, v)
               end).
  assert (Hinit :
    (forall k, str_eqb k (lit "proxies") = false ->
               assoc k (fst init) = assoc k d)
    /\ filter (fun e => untouched (fst e)) (fst init)
       = filter (fun e => untouched (fst e)) d).
  { unfold init.
    destruct (assoc (lit "proxies") d) as [[| | | | |]|]; cbn [fst];
      split; try reflexivity; try (apply assoc_set_filter; reflexivity);
      intros k Hk; now apply assoc_set_other. }
  destruct init as [data section]. cbn [fst] in Hinit.
  destruct Hinit as [Hget Hfil].
  destruct section as [| | | |section|]; try discriminate.
  set (d1 := assoc_set (lit "proxies") _ data).
  assert (H1 : forall k, str_eqb k (lit "proxies") = false ->
                         assoc k d1 = assoc k d).
  { intros k Hk. unfold d1. rewrite assoc_set_other by exact Hk.
    now apply Hget. }
  assert (H2 : filter (fun e => untouched (fst e)) d1
               = filter (fun e => untouched (fst e)) d).
  { unfold d1. rewrite assoc_set_filter by reflexivity. exact Hfil. }
  intros H. exists d1. split; [exact H1|]. split; [exact H2|].
  destruct (s || m).
  - rewrite (H1 (lit "proxy-groups") eq_refl) in H.
    destruct (assoc (lit "proxy-groups") d) as [[| | | |groups|]|];
      try discriminate.
    + destruct (update_groups rt proxies s m groups) as [groups'|];
        [|discriminate].
      cbn [bind] in H. injection H as <-. eauto.
    + now injection H as <-.
  - now injection H as <-.
Qed.

(** What [merge] does to a group that has a list of names. *)
Lemma merge_group loaded proxies s m d' i g l :
  merge rt loaded proxies s m = Ret d' ->
  nth_error (groups_of (top_level loaded)) i = Some g ->
  group_proxies g = Some l ->
  exists g' names,
    nth_error (groups_of d') i = Some g'
    /\ (if eligible rt s m g then names_of proxies else Ret []) = Ret names
    /\ group_proxies g' = Some (append_new names l)
    /\ forall s' m', eligible rt s' m' g' = eligible rt s' m' g.
Proof.
  intros H Hg Hl.
  assert (Hd : merge rt (VDict (top_level loaded)) proxies s m = Ret d').
  { destruct (truthy loaded) eqn:Et.
    - destruct loaded; try exact H; unfold merge in H; rewrite Et in H;
        discriminate.
    - rewrite (falsy_top_level _ Et). unfold merge in H |- *.
      rewrite Et in H. exact H. }
  clear H. apply merge_dict in Hd. destruct Hd as (d1 & H1 & _ & H3).
  unfold groups_of in Hg.
  destruct (assoc (lit "proxy-groups") (top_level loaded))
    as [[| | | |groups|]|] eqn:Epg;
    try (destruct i; discriminate).
  destruct (s || m) eqn:Esm.
  - destruct H3 as (groups' & Hu & ->).
    destruct (update_groups_nth _ _ _ _ _ _ _ Hu Hg) as (g' & Hn & Hug).
    destruct (update_group_proxies _ _ _ _ _ _ Hug Hl)
      as (names & Hnames & Hgp & Hel).
    exists g', names. unfold groups_of. rewrite assoc_set_same. auto.
  - subst d'. exists g, []. unfold groups_of.
    rewrite (H1 (lit "proxy-groups") eq_refl), Epg.
    apply orb_false_iff in Esm as [-> ->].
    split; [exact Hg|]. split.
    + destruct g; reflexivity.
    + split; [exact Hl|reflexivity].
Qed.

(** A call that returns has written the merged document. *)
Lemma update_yaml_returns files config_path proxies s m out files' path :
  update_yaml rt files config_path proxies s m out = (files', Ret path) ->
  exists loaded d',
    assoc config_path files = Some loaded
    /\ merge rt loaded proxies s m = Ret d'
    /\ files' = assoc_set path (VDict d') files.
Proof.
  unfold update_yaml.
  destruct (assoc config_path files) as [loaded|]; [|discriminate].
  destruct (merge rt loaded proxies s m) as [d'|] eqn:Em; [|discriminate].
  intros H. injection H as Hf Hp. subst path files'.
  exists loaded, d'. repeat split. exact Em.
Qed.

End WithRuntime.

(** C4: when [proxy-groups] is there and is not a list, and a flag is
    set, [update_yaml] raises the [TypeError] that names the key and the
    class of its value, and writes no file.  (When [proxies] is not a
    list either, that is the key the error names.) *)
Theorem update_yaml_groups_not_a_list (rt : runtime) (files : fs)
    (config_path : str) (d : dict) (groups : pyval) (proxies : list dict)
    (add_to_speedtest add_to_manual : bool) (output_path : option str) :
  assoc config_path files = Some (VDict d) ->
  assoc (lit "proxy-groups") d = Some groups ->
  (forall l, groups <> VList l) ->
  add_to_speedtest || add_to_manual = true ->
  let '(key, v) :=
    match assoc (lit "proxies") d with
    | None | Some VNone | Some (VList _) => (lit "proxy-groups", groups)
    | Some v => (lit "proxies", v)
    end in
  assoc key d = Some v
  /\ (forall l, v <> VList l)
  /\ update_yaml rt files config_path proxies add_to_speedtest add_to_manual
       output_path
     = (files,
        Raise (TypeError (lit "Expected '" ++ key
                          ++ lit "' to be a list, got " ++ type_name rt v))).
Proof.
  intros Hf Hg Hl Hflag.
  unfold update_yaml, merge. rewrite Hf.
  replace (if truthy (VDict d) then VDict d else VDict []) with (VDict d)
    by now destruct d.
  assert (Hgroups :
    forall d1 : dict,
      assoc (lit "proxy-groups") d1 = Some groups ->
      match assoc (lit "proxy-groups") d1 with
      | None => Ret d1
      | Some (VList gs) =>
          Val.bind (update_groups rt proxies add_to_speedtest add_to_manual gs)
            (fun gs' =>
               Ret (assoc_set (lit "proxy-groups") (VList gs') d1))
      | Some g => Raise (expected_list rt (lit "proxy-groups") g)
      end = Raise (expected_list rt (lit "proxy-groups") groups)).
  { intros d1 ->. destruct groups; try reflexivity.
    now destruct (Hl l). }
  destruct (assoc (lit "proxies") d) as [[| | | |section|]|] eqn:Ep;
    cbv iota beta; rewrite ?Hflag;
    try (split; [exact Ep|split; [discriminate|reflexivity]]);
    (split; [exact Hg|split; [exact Hl|]]);
    rewrite Hgroups; try reflexivity;
    rewrite !assoc_set_other by reflexivity; exact Hg.
Qed.

Lemma update_yaml_groups_not_a_list_witness :
  assoc (lit "proxy-groups")
    [ (lit "proxies", VList []); (lit "proxy-groups", VStr (lit "auto")) ]
  = Some (VStr (lit "auto"))
  /\ (forall l, VStr (lit "auto") <> VList l)
  /\ update_yaml Reference.rt
       [ (lit "config.yaml",
          VDict [ (lit "proxies", VList []);
                  (lit "proxy-groups", VStr (lit "auto")) ]) ]
       (lit "config.yaml") [proxy_named (lit "A")] false true None
     = ([ (lit "config.yaml",
           VDict [ (lit "proxies", VList []);
                   (lit "proxy-groups", VStr (lit "auto")) ]) ],
        Raise (TypeError
                 (lit "Expected '" ++ lit "proxy-groups"
                  ++ lit "' to be a list, got "
                  ++ type_name Reference.rt (VStr (lit "auto"))))).
Proof.
  apply (update_yaml_groups_not_a_list Reference.rt
           [ (lit "config.yaml",
              VDict [ (lit "proxies", VList []);
                      (lit "proxy-groups", VStr (lit "auto")) ]) ]
           (lit "config.yaml")
           [ (lit "proxies", VList []);
             (lit "proxy-groups", VStr (lit "auto")) ]
           (VStr (lit "auto")) [proxy_named (lit "A")]
           false true None); try reflexivity.
  discriminate.
Defined.

Lemma existsb_same {A : Type} (f f' : A -> bool) (l : list A) :
  (forall a, f a = f' a) -> existsb f l = existsb f' l.
Proof.
  intros H. induction l as [|a l IH]; simpl; [reflexivity|].
  now rewrite H, IH.
Qed.

(** A row of calls keeps a group where it is, with the names it had, a
    merged name added once when it was not there. *)
Lemma update_yaml_seq_group (rt : runtime) (name : str) (i : nat)
    (calls : list call) :
  forall (files files' : fs) (path path' : str) (loaded g : pyval)
         (l : list pyval),
  assoc path files = Some loaded ->
  nth_error (groups_of (top_level loaded)) i = Some g ->
  group_proxies g = Some l ->
  update_yaml_seq rt files path calls = (files', Ret path') ->
  exists loaded' g' l',
    assoc path' files' = Some loaded'
    /\ nth_error (groups_of (top_level loaded')) i = Some g'
    /\ group_proxies g' = Some l'
    /\ occurrences name l'
       = if existsb (fun c => eligible rt (call_speedtest c) (call_manual c) g
                              && has_name name (call_proxies c)) calls
         then Nat.max 1 (occurrences name l)
         else occurrences name l.
Proof.
  induction calls as [|c calls IH]; intros files files' path path' loaded g l
    Hf Hg Hl H.
  - cbn [update_yaml_seq] in H. injection H as <- <-.
    exists loaded, g, l. auto.
  - cbn [update_yaml_seq] in H.
    destruct (update_yaml rt files path (call_proxies c) (call_speedtest c)
                (call_manual c) (call_output c)) as [files1 [path1|e]] eqn:E;
      [|discriminate].
    apply update_yaml_returns in E.
    destruct E as (loaded0 & d1 & Hf0 & Hm & ->).
    rewrite Hf in Hf0. injection Hf0 as <-.
    destruct (merge_group rt _ _ _ _ _ _ _ _ Hm Hg Hl)
      as (g1 & names & Hg1 & Hnames & Hl1 & Hel).
    destruct (IH _ _ _ _ (VDict d1) g1 (append_new names l)
                (assoc_set_same _ _ _) Hg1 Hl1 H)
      as (loaded' & g' & l' & Hf' & Hg' & Hl' & Hocc).
    exists loaded', g', l'. repeat (split; [assumption|]).
    rewrite (existsb_same _
               (fun c => eligible rt (call_speedtest c) (call_manual c) g
                         && has_name name (call_proxies c))) in Hocc
      by (intros c'; now rewrite Hel).
    rewrite Hocc, append_new_occurrences. cbn [existsb].
    destruct (existsb _ calls);
      destruct (eligible rt (call_speedtest c) (call_manual c) g);
      cbn [andb orb]; cbv iota in Hnames;
      try (rewrite (names_of_has_name name _ _ Hnames);
           destruct (has_name name (call_proxies c)); cbn [orb]; cbv iota;
           lia);
      injection Hnames as <-; reflexivity.
Qed.

(** C5, as stated, fails: a name that is twice in a group before the
    merge is twice in it afterwards. *)
Lemma merge_duplicates_counterexample :
  exists files' d' g' l',
    update_yaml Reference.rt
      [ (lit "config.yaml",
         VDict [ (lit "proxy-groups",
                  VList [ select_group [VStr (lit "A");
                                        VStr (lit "A")] ]) ]) ]
      (lit "config.yaml") [proxy_named (lit "A")] false true
      (Some (lit "out.yaml"))
    = (files', Ret (lit "out.yaml"))
    /\ assoc (lit "out.yaml") files' = Some (VDict d')
    /\ nth_error (groups_of d') 0 = Some g'
    /\ group_proxies g' = Some l'
    /\ occurrences (lit "A") l' = 2%nat.
Proof. do 4 eexists. vm_compute. repeat split. Qed.

(** C5, amended: a name that is at most once in the list of a group is
    at most once in it after any row of merge calls, and exactly once
    when one of the calls has the flag that makes the group eligible and
    a proxy of that name. *)
Theorem merge_keeps_names_unique (rt : runtime) (calls : list call)
    (files files' : fs) (path path' : str) (loaded g : pyval)
    (l : list pyval) (i : nat) (name : str) :
  assoc path files = Some loaded ->
  nth_error (groups_of (top_level loaded)) i = Some g ->
  group_proxies g = Some l ->
  (occurrences name l <= 1)%nat ->
  update_yaml_seq rt files path calls = (files', Ret path') ->
  exists loaded' g' l',
    assoc path' files' = Some loaded'
    /\ nth_error (groups_of (top_level loaded')) i = Some g'
    /\ group_proxies g' = Some l'
    /\ (occurrences name l' <= 1)%nat
    /\ (existsb (fun c => eligible rt (call_speedtest c) (call_manual c) g
                          && has_name name (call_proxies c)) calls = true ->
        occurrences name l' = 1%nat).
Proof.
  intros Hf Hg Hl Hocc H.
  destruct (update_yaml_seq_group rt name i calls _ _ _ _ _ _ _ Hf Hg Hl H)
    as (loaded' & g' & l' & Hf' & Hg' & Hl' & E).
  exists loaded', g', l'. repeat (split; [assumption|]).
  rewrite E. destruct (existsb _ calls); split; try lia; discriminate.
Qed.

Lemma merge_keeps_names_unique_witness :
  exists loaded' g' l',
    assoc (lit "config.yaml")
      [ (lit "config.yaml",
         VDict [ (lit "proxy-groups",
                  VList [ select_group [VStr (lit "DIRECT");
                                        VStr (lit "A")] ]);
                 (lit "proxies",
                  VList [VDict (proxy_named (lit "A"));
                         VDict (proxy_named (lit "A"))]) ]) ]
    = Some loaded'
    /\ nth_error (groups_of (top_level loaded')) 0 = Some g'
    /\ group_proxies g' = Some l'
    /\ (occurrences (lit "A") l' <= 1)%nat
    /\ (existsb
          (fun c =>
             eligible Reference.rt (call_speedtest c) (call_manual c)
               (select_group [VStr (lit "DIRECT")])
             && has_name (lit "A") (call_proxies c))
          [manual_call (lit "A"); manual_call (lit "A")] = true ->
        occurrences (lit "A") l' = 1%nat).
Proof.
  apply (merge_keeps_names_unique Reference.rt
           [manual_call (lit "A"); manual_call (lit "A")]
           [ (lit "config.yaml",
              VDict [ (lit "proxy-groups",
                       VList [ select_group [VStr (lit "DIRECT")] ]) ]) ]
           [ (lit "config.yaml",
              VDict [ (lit "proxy-groups",
                       VList [ select_group [VStr (lit "DIRECT");
                                             VStr (lit "A")] ]);
                      (lit "proxies",
                       VList [VDict (proxy_named (lit "A"));
                              VDict (proxy_named (lit "A"))]) ]) ]
           (lit "config.yaml") (lit "config.yaml")
           (VDict [ (lit "proxy-groups",
                     VList [ select_group [VStr (lit "DIRECT")] ]) ])
           (select_group [VStr (lit "DIRECT")])
           [VStr (lit "DIRECT")] 0%nat (lit "A"));
    try reflexivity.
  vm_compute. lia.
Defined.

End MergeFacts.

(** ** The decoders: errors, optional blocks, names and ports *)
Module ConvertersExtra.
Import Py Val Lib Converters Spec RecordSpec PyFacts DictFacts Base64Facts
  Utf8Facts ConvertersFacts ShadowsocksFacts.

Section WithRuntime.
Variable rt : runtime.

(** The record of a VMess link in terms of its JSON object. *)
Lemma vmess_body_record link p :
  vmess_body rt link = Ret p ->
  exists payload raw text d,
    nth_error (split (lit "vmess://") link) 1 = Some payload
    /\ Base64.b64decode payload = Some raw
    /\ Utf8.decode Utf8.Strict raw = Some text
    /\ json_loads rt text = Some (VDict d)
    /\ p = vmess_record d.
Proof.
  unfold vmess_body.
  destruct (nth_error _ 1) as [payload|] eqn:E1; [|discriminate].
  cbn [orelse bind].
  destruct (Base64.b64decode payload) as [raw|] eqn:E2; [|discriminate].
  cbn [orelse bind].
  destruct (Utf8.decode Utf8.Strict raw) as [text|] eqn:E3; [|discriminate].
  cbn [orelse bind].
  destruct (json_loads rt text) as [data|] eqn:E4; [|discriminate].
  cbn [orelse bind].
  destruct data as [| | | | |d]; try discriminate.
  cbn [get bind]. lookup. cbn [orelse bind truthy].
  intros H. exists payload, raw, text, d. repeat (split; [assumption|]).
  unfold vmess_record, get_or, set_if. cbv zeta.
  destruct (py_eqb _ (VStr (lit "tls"))); cbn [bind] in H |- *;
    revert H; lookup; cbn [orelse bind];
    destruct (py_eqb _ (VStr (lit "ws"))); cbn [bind]; lookup;
    cbn [orelse bind];
    destruct (py_eqb _ (VStr (lit "grpc"))); cbn [bind];
    intros H; now injection H as <-.
Qed.


Lemma trojan_body_record link p :
  trojan_body rt link = Ret p ->
  exists link' tag u po,
    split_n (lit "#") 1 link = link' :: tag
    /\ urlparse rt link' = Some u
    /\ port u = Ret po
    /\ p = [ (lit "name",
              VStr match tag with
                   | t :: _ => unquote t
                   | [] => lit "Trojan_Node"
                   end);
             (lit "type", VStr (lit "trojan"));
             (lit "server", of_opt_str (hostname rt u));
             (lit "port", of_opt_int po);
             (lit "password", of_opt_str (username u));
             (lit "udp", VBool true);
             (lit "sni",
              match assoc (lit "sni") (parse_qs (query u)) with
              | Some (v, _) => VStr v
              | None => of_opt_str (hostname rt u)
              end) ].
Proof.
  unfold trojan_body.
  destruct (split_n (lit "#") 1 link) as [|link' tag]; [discriminate|].
  destruct (urlparse rt link') as [u|] eqn:Eu; [|discriminate].
  cbn [orelse bind].
  destruct (port u) as [po|] eqn:Ep; [|discriminate].
  cbn [bind]. intros H; injection H as <-.
  exists link', tag, u, po. repeat split; assumption.
Qed.



Lemma cut_none_split (sep s : str) (n : nat) :
  cut sep s = None -> split_n sep n s = [s].
Proof. intros H. destruct n; cbn [split_n]; [reflexivity|now rewrite H]. Qed.

Lemma cut_none_tail (sep : str) (c : Z) (s : str) :
  cut sep (c :: s) = None -> cut sep s = None.
Proof.
  cbn [cut]. destruct (strip_prefix sep (c :: s)); [discriminate|].
  destruct (cut sep s) as [[a b]|]; [discriminate|reflexivity].
Qed.

Lemma contains_app_right (sep a b : str) :
  contains sep (a ++ b) = false -> contains sep b = false.
Proof.
  unfold contains. induction a as [|c a IH]; [auto|].
  cbn [app]. intros H. apply IH.
  destruct (cut sep (c :: a ++ b)) eqn:E; [discriminate|].
  now rewrite (cut_none_tail _ _ _ E).
Qed.

Lemma strip_prefix_app (p s rest : str) :
  strip_prefix p s = Some rest -> s = p ++ rest.
Proof.
  revert s. induction p as [|x p IH]; intros s; cbn [strip_prefix].
  - intros H; now injection H as <-.
  - destruct s as [|y s]; [discriminate|].
    destruct (x =? y) eqn:E; [|discriminate]. apply Z.eqb_eq in E.
    intros H. apply IH in H. cbn [app]. congruence.
Qed.

(** The record of a Shadowsocks link: its name is a string, the text
    after the first [#] or the default one. *)
Lemma ss_body_name link p :
  ss_body rt link = Ret (Some p) ->
  exists uri,
    link = lit "ss://" ++ uri
    /\ assoc (lit "name") p
       = Some (VStr match cut (lit "#") uri with
                    | Some (_, tag) => unquote tag
                    | None => lit "SS_Node"
                    end).
Proof.
  unfold ss_body.
  destruct (strip_prefix (lit "ss://") link) as [uri|] eqn:Ep; [|discriminate].
  apply strip_prefix_app in Ep. unfold contains at 1.
  cbn [split_n]. destruct (cut (lit "#") uri) as [[uri' tag]|] eqn:Ec.
  - cbn [split_n unpack2 bind].
    repeat match goal with
           | |- Val.bind ?m _ = _ -> _ =>
               destruct m as [?|?]; [cbn [bind]|discriminate]
           | |- (let '(_, _) := ?x in _) = _ -> _ => destruct x
           end.
    intros H; injection H as <-. exists uri. rewrite Ec.
    split; [exact Ep|reflexivity].
  - cbn [bind].
    repeat match goal with
           | |- Val.bind ?m _ = _ -> _ =>
               destruct m as [?|?]; [cbn [bind]|discriminate]
           | |- (let '(_, _) := ?x in _) = _ -> _ => destruct x
           end.
    intros H; injection H as <-. exists uri. rewrite Ec.
    split; [exact Ep|reflexivity].
Qed.

(** A prefix without the separator stays in front of the first cut. *)
Lemma cut_char_prefix (x : Z) (a s : str) :
  without x a = true ->
  cut [x] (a ++ s)
  = match cut [x] s with
    | Some (l, r) => Some (a ++ l, r)
    | None => None
    end.
Proof.
  unfold without. induction a as [|c a IH]; intros H.
  - cbn [app]. destruct (cut [x] s) as [[l r]|]; reflexivity.
  - cbn [forallb] in H. apply andb_true_iff in H as [Hc H].
    apply negb_true_iff in Hc. cbn [app cut strip_prefix].
    rewrite Z.eqb_sym, Hc, (IH H).
    destruct (cut [x] s) as [[l r]|]; reflexivity.
Qed.

(** The forward reading of [vmess_body]: a payload that decodes to a JSON
    object gives the record of that object. *)
Lemma vmess_body_of_json link payload raw text d :
  nth_error (split (lit "vmess://") link) 1 = Some payload ->
  Base64.b64decode payload = Some raw ->
  Utf8.decode Utf8.Strict raw = Some text ->
  json_loads rt text = Some (VDict d) ->
  vmess_body rt link = Ret (vmess_record d).
Proof.
  intros E1 E2 E3 E4. unfold vmess_body.
  rewrite E1. cbn [orelse bind]. rewrite E2. cbn [orelse bind].
  rewrite E3. cbn [orelse bind]. rewrite E4. cbn [orelse bind get].
  lookup. cbn [orelse bind truthy].
  unfold vmess_record, get_or, set_if. cbv zeta.
  destruct (py_eqb _ (VStr (lit "tls"))); cbn [bind];
    lookup; cbn [orelse bind];
    destruct (py_eqb _ (VStr (lit "ws"))); cbn [bind]; lookup;
    cbn [orelse bind];
    destruct (py_eqb _ (VStr (lit "grpc"))); cbn [bind]; reflexivity.
Qed.

Lemma strip_prefix_self (p s : str) : strip_prefix p (p ++ s) = Some s.
Proof.
  induction p as [|x p IH]; [reflexivity|].
  cbn [app strip_prefix]. now rewrite Z.eqb_refl.
Qed.

Lemma strip_prefix_in (x : Z) (p s r : str) :
  strip_prefix p s = Some r -> In x p -> In x s.
Proof.
  revert s. induction p as [|y p IH]; intros s; [intros _ []|].
  cbn [strip_prefix]. destruct s as [|c s]; [discriminate|].
  destruct (y =? c) eqn:E; [|discriminate]. apply Z.eqb_eq in E. subst c.
  intros H [->|Hx]; [now left|right; eauto].
Qed.

Lemma cut_self (sep s : str) : cut sep (sep ++ s) = Some ([], s).
Proof.
  assert (H : forall t, cut sep t
                = match strip_prefix sep t with
                  | Some rest => Some ([], rest)
                  | None =>
                      match t with
                      | [] => None
                      | c :: t' =>
                          match cut sep t' with
                          | Some (a, b) => Some (c :: a, b)
                          | None => None
                          end
                      end
                  end) by (intros []; reflexivity).
  now rewrite H, strip_prefix_self.
Qed.

Lemma split_prefix (sep s : str) :
  sep <> [] -> cut sep s = None -> split sep (sep ++ s) = [[]; s].
Proof.
  intros Hs Hc. unfold split. rewrite length_app.
  destruct sep as [|c sep]; [congruence|].
  cbn [List.length Nat.add split_n].
  now rewrite cut_self, cut_none_split.
Qed.

(** A separator with a character the text lacks does not occur in it. *)
Lemma cut_none_without (x : Z) (sep s : str) :
  In x sep -> without x s = true -> cut sep s = None.
Proof.
  intros Hx. unfold without. induction s as [|c s IH]; intros H.
  - cbn [cut]. destruct (strip_prefix sep []) eqn:E; [|reflexivity].
    destruct (strip_prefix_in x _ _ _ E Hx).
  - cbn [forallb] in H. apply andb_true_iff in H as [Hc H].
    cbn [cut]. destruct (strip_prefix sep (c :: s)) eqn:E.
    + apply (strip_prefix_in x) in E; [|exact Hx].
      rewrite forallb_forall in H. destruct E as [->|E].
      * rewrite Z.eqb_refl in Hc. discriminate.
      * apply H in E. rewrite Z.eqb_refl in E. discriminate.
    + now rewrite (IH H).
Qed.

Lemma split_nonempty (sep s : str) :
  exists first rest, split sep s = first :: rest.
Proof.
  unfold split. destruct (List.length s); cbn [split_n]; [eauto|].
  destruct (cut sep s) as [[a b]|]; eauto.
Qed.

Lemma run_parser_returns (k : parser) (link : str) :
  exists r, run_parser rt k link = Ret r.
Proof.
  destruct k; simpl; unfold vless_to_clash, vmess_to_clash,
    trojan_to_clash, ss_to_clash, except_none;
    match goal with |- exists r, match ?m with _ => _ end = _ =>
      destruct m; eexists; reflexivity end.
Qed.

Lemma run_parser_type (k : parser) (link : str) (p : dict) :
  run_parser rt k link = Ret (Some p) ->
  assoc (lit "type") p = Some (VStr (scheme_name k)).
Proof.
  destruct k; simpl; intros H.
  - apply except_none_some in H. apply vless_body_record in H.
    destruct H as (l & t & u & po & _ & _ & _ & ->).
    apply vless_record_fields.
  - apply except_none_some in H. now apply vmess_body_fields in H.
  - apply except_none_some in H. now apply trojan_body_fields in H.
  - apply except_none_ret in H. now apply ss_body_fields in H.
Qed.

Lemma PARSERS_get_name (protocol : str) (k : parser) :
  PARSERS_get protocol = Some k -> scheme_name k = protocol.
Proof.
  unfold PARSERS_get.
  repeat match goal with
         | |- context [if str_eqb ?a ?b then _ else _] =>
             destruct (str_eqb a b) eqn:?
         end; intros H; try discriminate; injection H as <-;
    symmetry; now apply str_eqb_eq.
Qed.

End WithRuntime.

(** X1: no exception escapes [link_to_clash]: for every link it returns,
    a record or [None]. *)
Theorem link_to_clash_never_raises (rt : runtime) (link : str) :
  exists r, link_to_clash rt link = Ret r.
Proof.
  unfold link_to_clash.
  destruct (split_nonempty (lit "://") link) as (first & rest & ->).
  cbn [nth_error orelse bind].
  destruct (PARSERS_get _) as [k|]; [|eexists; reflexivity].
  destruct (run_parser_returns rt k link) as (r & ->). now exists r.
Qed.

(** X2: the type of the record [link_to_clash] returns is the scheme of
    the link, the text before its first [://], in lower case. *)
Theorem link_to_clash_type (rt : runtime) (link : str) (p : dict) :
  link_to_clash rt link = Ret (Some p) ->
  exists first,
    nth_error (split (lit "://") link) 0 = Some first
    /\ assoc (lit "type") p = Some (VStr (str_lower rt first)).
Proof.
  unfold link_to_clash.
  destruct (split_nonempty (lit "://") link) as (first & rest & ->).
  cbn [nth_error orelse bind]. intros H. exists first. split; [reflexivity|].
  destruct (PARSERS_get _) as [k|] eqn:Ek; [|discriminate].
  apply PARSERS_get_name in Ek. rewrite <- Ek.
  apply (run_parser_type rt k link).
  destruct (run_parser rt k link) as [r|e] eqn:Er; [|].
  - cbn [except_index_error] in H. exact H.
  - destruct (run_parser_returns rt k link) as (r & Hr). congruence.
Qed.

Lemma link_to_clash_type_witness :
  exists first,
    nth_error (split (lit "://") (lit "Trojan://pw@h.example:443")) 0
    = Some first
    /\ assoc (lit "type")
         [ (lit "name", VStr (lit "Trojan_Node"));
           (lit "type", VStr (lit "trojan"));
           (lit "server", VStr (lit "h.example")); (lit "port", VInt 443);
           (lit "password", VStr (lit "pw")); (lit "udp", VBool true);
           (lit "sni", VStr (lit "h.example")) ]
       = Some (VStr (str_lower Reference.rt first)).
Proof.
  apply (link_to_clash_type Reference.rt (lit "Trojan://pw@h.example:443")).
  vm_compute. reflexivity.
Defined.

(** X3: the Shadowsocks and the VMess decoder want their scheme in lower
    case: a link that the dispatcher hands to one of them, and that does
    not start with [ss://], or has no [vmess://] in it, gives [None]. *)
Theorem capital_scheme_gives_none (rt : runtime) (link first : str)
    (k : parser) :
  nth_error (split (lit "://") link) 0 = Some first ->
  PARSERS_get (str_lower rt first) = Some k ->
  (k = Ss /\ startswith link (lit "ss://") = false)
  \/ (k = Vmess /\ contains (lit "vmess://") link = false) ->
  link_to_clash rt link = Ret None.
Proof.
  intros H1 H2 H. unfold link_to_clash. rewrite H1. cbn [orelse bind].
  rewrite H2. destruct H as [[-> H]|[-> H]]; cbn [run_parser].
  - unfold ss_to_clash, ss_body. unfold startswith in H.
    destruct (strip_prefix (lit "ss://") link); [discriminate|reflexivity].
  - unfold vmess_to_clash, vmess_body, split. unfold contains in H.
    destruct (cut (lit "vmess://") link) eqn:E; [discriminate|].
    now rewrite (cut_none_split _ _ _ E).
Qed.

Lemma capital_scheme_gives_none_witness :
  link_to_clash Reference.rt
    (lit "SS://YWVzLTI1Ni1nY206cGFzc3dvcmQ@1.2.3.4:8388")
  = Ret None.
Proof.
  apply (capital_scheme_gives_none Reference.rt _ (lit "SS") Ss);
    [reflexivity|reflexivity|left; split; reflexivity].
Defined.




(** X5: in a VLESS record the optional blocks follow the fields: [ws-opts]
    is there exactly when the network is [ws], [grpc-opts] exactly when it
    is [grpc], [servername] exactly when [tls] is true, and a record with
    [reality-opts] has [tls] true. *)
Theorem vless_optional_blocks (rt : runtime) (link : str) (p : dict) :
  vless_to_clash rt link = Ret (Some p) ->
  exists network tls,
    assoc (lit "network") p = Some network
    /\ assoc (lit "tls") p = Some (VBool tls)
    /\ has_key (lit "ws-opts") p = py_eqb network (VStr (lit "ws"))
    /\ has_key (lit "grpc-opts") p = py_eqb network (VStr (lit "grpc"))
    /\ has_key (lit "servername") p = tls
    /\ (has_key (lit "reality-opts") p = true -> tls = true).
Proof.
  intros H. apply except_none_some in H. apply vless_body_record in H.
  destruct H as (l & t & u & po & _ & _ & _ & ->).
  unfold vless_record. cbv zeta. eexists _, _.
  unfold has_key. lookup. split; [reflexivity|]. split; [reflexivity|].
  repeat first [progress lookup | rewrite assoc_set_if_same].
  repeat split.
  - now destruct (py_eqb _ (VStr (lit "ws"))).
  - now destruct (py_eqb _ (VStr (lit "grpc"))).
  - now destruct (py_in _ _).
  - destruct (py_eqb _ (VStr (lit "reality"))) eqn:E; [|discriminate].
    intros _. apply py_eqb_str in E. now rewrite E.
Qed.

Lemma vless_optional_blocks_witness :
  exists network tls,
    assoc (lit "network") vless_ws_record = Some network
    /\ assoc (lit "tls") vless_ws_record = Some (VBool tls)
    /\ has_key (lit "ws-opts") vless_ws_record
       = py_eqb network (VStr (lit "ws"))
    /\ has_key (lit "grpc-opts") vless_ws_record
       = py_eqb network (VStr (lit "grpc"))
    /\ has_key (lit "servername") vless_ws_record = tls
    /\ (has_key (lit "reality-opts") vless_ws_record = true -> tls = true).
Proof.
  apply (vless_optional_blocks Reference.rt vless_ws_link).
  vm_compute. reflexivity.
Defined.

(** X6: in a VMess record [tls] is a boolean and the optional blocks
    follow the fields: [servername] is there exactly when [tls] is true,
    [ws-opts] exactly when the network is [ws], [grpc-opts] exactly when
    it is [grpc]. *)
Theorem vmess_optional_blocks (rt : runtime) (link : str) (p : dict) :
  vmess_to_clash rt link = Ret (Some p) ->
  exists network tls,
    assoc (lit "network") p = Some network
    /\ assoc (lit "tls") p = Some (VBool tls)
    /\ has_key (lit "servername") p = tls
    /\ has_key (lit "ws-opts") p = py_eqb network (VStr (lit "ws"))
    /\ has_key (lit "grpc-opts") p = py_eqb network (VStr (lit "grpc")).
Proof.
  intros H. apply except_none_some in H. apply vmess_body_record in H.
  destruct H as (payload & raw & text & d & _ & _ & _ & _ & ->).
  unfold vmess_record. cbv zeta. eexists _, _.
  unfold has_key. lookup. split; [reflexivity|]. split; [reflexivity|].
  repeat first [progress lookup | rewrite assoc_set_if_same].
  repeat split.
  - now destruct (py_eqb _ (VStr (lit "tls"))).
  - now destruct (py_eqb _ (VStr (lit "ws"))).
  - now destruct (py_eqb _ (VStr (lit "grpc"))).
Qed.

Lemma vmess_optional_blocks_witness :
  exists network tls,
    assoc (lit "network") vmess_ws_record = Some network
    /\ assoc (lit "tls") vmess_ws_record = Some (VBool tls)
    /\ has_key (lit "servername") vmess_ws_record = tls
    /\ has_key (lit "ws-opts") vmess_ws_record
       = py_eqb network (VStr (lit "ws"))
    /\ has_key (lit "grpc-opts") vmess_ws_record
       = py_eqb network (VStr (lit "grpc")).
Proof.
  apply (vmess_optional_blocks Reference.rt vmess_ws_link).
  vm_compute. reflexivity.
Defined.

(** X7: decoding undoes the usual encoding of a VMess link: for a text
    that [json.loads] reads as an object, [vmess://] followed by the
    standard base64 of its UTF-8 bytes gives the record of that object,
    every field taken from the object as it is or from its default. *)
Theorem vmess_of_encoded_json (rt : runtime) (text : str) (bs : bytes)
    (d : dict) :
  Utf8.encode text = Some bs ->
  json_loads rt text = Some (VDict d) ->
  vmess_to_clash rt (lit "vmess://" ++ Base64.b64encode bs)
  = Ret (Some (vmess_record d)).
Proof.
  intros He Hj. unfold vmess_to_clash.
  assert (Hb : Base64.is_octets bs = true)
    by exact (utf8_encode_octets _ _ He).
  rewrite (vmess_body_of_json rt _ (Base64.b64encode bs) bs text d);
    [reflexivity| | | |exact Hj].
  - rewrite split_prefix; [reflexivity|discriminate|].
    apply cut_none_without with (x := 58); [cbn; tauto|].
    apply encode_without_char; [exact Hb|reflexivity|lia].
  - now apply b64decode_b64encode.
  - now apply utf8_decode_encode.
Qed.

Lemma vmess_of_encoded_json_witness :
  vmess_to_clash Reference.rt
    (lit "vmess://" ++ Base64.b64encode json_ws_text)
  = Ret (Some (vmess_record [ (lit "net", VStr (lit "ws")) ])).
Proof.
  apply (vmess_of_encoded_json Reference.rt json_ws_text json_ws_text);
    vm_compute; reflexivity.
Defined.

(** X8: the name of a VLESS, Trojan or Shadowsocks record is a string: the
    percent-decoded text after the first [#] of the link, and the
    decoder's default name for a link without [#]. *)
Theorem record_name (rt : runtime) (k : parser) (link : str) (p : dict) :
  k <> Vmess ->
  run_parser rt k link = Ret (Some p) ->
  assoc (lit "name") p
  = Some (VStr match cut (lit "#") link with
               | Some (_, tag) => unquote tag
               | None => default_name k
               end).
Proof.
  intros Hk H. destruct k; [| congruence | |]; cbn [run_parser] in H.
  - apply except_none_some in H. apply vless_body_record in H.
    destruct H as (l & t & u & po & Hs & _ & _ & ->).
    unfold vless_record. cbv zeta. lookup. cbn [split_n] in Hs.
    destruct (cut (lit "#") link) as [[a b]|];
      injection Hs as <- <-; reflexivity.
  - apply except_none_some in H. apply trojan_body_record in H.
    destruct H as (l & t & u & po & Hs & _ & _ & ->).
    lookup. cbn [split_n] in Hs.
    destruct (cut (lit "#") link) as [[a b]|];
      injection Hs as <- <-; reflexivity.
  - apply except_none_ret in H. apply ss_body_name in H.
    destruct H as (uri & -> & ->).
    change (lit "#") with [35]. rewrite cut_char_prefix by reflexivity.
    destruct (cut [35] uri) as [[a b]|]; reflexivity.
Qed.

Lemma record_name_witness :
  assoc (lit "name") vless_ws_record
  = Some (VStr match cut (lit "#") vless_ws_link with
               | Some (_, tag) => unquote tag
               | None => default_name Vless
               end).
Proof.
  apply (record_name Reference.rt Vless vless_ws_link).
  - discriminate.
  - vm_compute. reflexivity.
Defined.

End ConvertersExtra.

(** ** The subscription decoder: the shape of its lines *)
Module SubscriptionExtra.
Import Py Val ConvertSubscription SubscriptionSpec PyFacts LineFacts.

Lemma lstrip_head (s : str) :
  match lstrip s with
  | [] => True
  | c :: _ => is_space c = false
  end.
Proof.
  induction s as [|c s IH]; [exact I|]. cbn [lstrip].
  destruct (is_space c) eqn:Ec; [exact IH|exact Ec].
Qed.

Lemma lstrip_head_fixed (s : str) :
  match s with [] => True | c :: _ => is_space c = false end ->
  lstrip s = s.
Proof. destruct s as [|c s]; [reflexivity|]. cbn [lstrip]. now intros ->. Qed.

Lemma lstrip_idempotent (s : str) : lstrip (lstrip s) = lstrip s.
Proof. apply lstrip_head_fixed, lstrip_head. Qed.

Lemma rstrip_idempotent (s : str) : rstrip (rstrip s) = rstrip s.
Proof. unfold rstrip. now rewrite rev_involutive, lstrip_idempotent. Qed.

(** What is left of a text that starts with a visible character starts
    with it. *)
Lemma rstrip_head (s : str) :
  match s with [] => True | c :: _ => is_space c = false end ->
  match rstrip s with [] => True | c :: _ => is_space c = false end.
Proof.
  destruct s as [|c s]; intros Hc.
  - exact I.
  - destruct (rstrip_split (c :: s)) as (ws & Hws & E).
    destruct (rstrip (c :: s)) as [|d r].
    + exact I.
    + cbn [app] in E. now injection E as <- _.
Qed.

Lemma strip_idempotent (s : str) : strip (strip s) = strip s.
Proof.
  unfold strip.
  rewrite (lstrip_head_fixed (rstrip (lstrip s)))
    by apply rstrip_head, lstrip_head.
  apply rstrip_idempotent.
Qed.

Lemma strip_empty (s : str) : strip s = [] -> all_space s.
Proof.
  unfold strip. intros H.
  destruct (lstrip_split s) as (ws & Hws & E).
  destruct (rstrip_split (lstrip s)) as (ws' & Hws' & E').
  rewrite H in E'. cbn [app] in E'. rewrite E, E'.
  unfold all_space in *. rewrite forallb_app. now rewrite Hws, Hws'.
Qed.

Lemma no_linebreak_app (a b : str) :
  no_linebreak (a ++ b) = no_linebreak a && no_linebreak b.
Proof. apply forallb_app. Qed.

Lemma strip_no_linebreak (s : str) :
  no_linebreak s = true -> no_linebreak (strip s) = true.
Proof.
  unfold strip. intros H.
  destruct (lstrip_split s) as (ws & _ & E).
  destruct (rstrip_split (lstrip s)) as (ws' & _ & E').
  rewrite E, E', !no_linebreak_app in H.
  apply andb_true_iff in H as [_ H]. now apply andb_true_iff in H as [H _].
Qed.

(** No line of [splitlines] holds a line boundary. *)
Lemma splitlines_no_linebreak_aux (n : nat) :
  forall s, (List.length s <= n)%nat ->
  forall x, In x (splitlines s) -> no_linebreak x = true.
Proof.
  induction n as [|n IH]; intros s Hn x.
  - destruct s; [intros []|simpl in Hn; lia].
  - destruct s as [|c s]; [intros []|]. cbn [List.length] in Hn.
    cbn [splitlines]. destruct (is_linebreak c) eqn:Ec.
    + intros [<-|Hx]; [reflexivity|].
      destruct s as [|d s]; [destruct Hx|]. cbn [List.length] in Hn.
      destruct ((c =? 13) && (d =? 10)).
      * apply (IH s); [lia|exact Hx].
      * apply (IH (d :: s)); [cbn [List.length]; lia|exact Hx].
    + assert (IHs := IH s ltac:(lia)).
      destruct (splitlines s) as [|l ls]; cbn [cons_line].
      * intros [<-|[]]. unfold no_linebreak. cbn [forallb].
        now rewrite Ec.
      * intros [<-|Hx].
        -- unfold no_linebreak. cbn [forallb]. rewrite Ec. cbn [negb andb].
           apply (IHs l). now left.
        -- apply IHs. now right.
Qed.

Lemma splitlines_no_linebreak (s x : str) :
  In x (splitlines s) -> no_linebreak x = true.
Proof. now apply (splitlines_no_linebreak_aux (List.length s)). Qed.

(** A text whose lines are white space is white space. *)
Lemma splitlines_all_space_aux (n : nat) :
  forall s, (List.length s <= n)%nat ->
  (forall x, In x (splitlines s) -> all_space x) -> all_space s.
Proof.
  induction n as [|n IH]; intros s Hn.
  - destruct s; [reflexivity|simpl in Hn; lia].
  - destruct s as [|c s]; [reflexivity|]. cbn [List.length] in Hn.
    cbn [splitlines]. destruct (is_linebreak c) eqn:Ec.
    + intros H. unfold all_space. cbn [forallb].
      rewrite (linebreak_is_space c Ec). cbn [andb].
      destruct s as [|d s]; [reflexivity|]. cbn [List.length] in Hn.
      destruct ((c =? 13) && (d =? 10)) eqn:E.
      * apply andb_true_iff in E as [_ E]. apply Z.eqb_eq in E. subst d.
        cbn [forallb]. change (is_space 10) with true. cbn [andb].
        apply (IH s); [lia|]. intros x Hx. apply H. now right.
      * apply (IH (d :: s)); [cbn [List.length]; lia|].
        intros x Hx. apply H. now right.
    + assert (IHs := IH s ltac:(lia)).
      destruct (splitlines s) as [|l ls]; cbn [cons_line]; intros H.
      * assert (Hc := H [c] (or_introl eq_refl)).
        unfold all_space in *. cbn [forallb] in *.
        apply andb_true_iff in Hc as [-> _]. cbn [andb].
        apply IHs. intros x [].
      * assert (Hc := H (c :: l) (or_introl eq_refl)).
        unfold all_space in Hc. cbn [forallb] in Hc.
        apply andb_true_iff in Hc as [Hc Hl].
        unfold all_space. cbn [forallb]. rewrite Hc. cbn [andb].
        apply IHs. intros x [<-|Hx]; [exact Hl|]. apply H. now right.
Qed.

Lemma stripped_lines_empty (s : str) : stripped_lines s = [] -> all_space s.
Proof.
  intros H. apply (splitlines_all_space_aux (List.length s)); [lia|].
  intros x Hx. apply strip_empty.
  unfold stripped_lines in H. apply map_eq_nil in H.
  destruct (strip x) as [|c r] eqn:E; [reflexivity|].
  assert (Hin : In x (filter (fun line => nonempty (strip line))
                        (splitlines s))).
  { apply filter_In. split; [exact Hx|]. now rewrite E. }
  rewrite H in Hin. destruct Hin.
Qed.

Lemma stripped_lines_shape (s l : str) :
  In l (stripped_lines s) ->
  l <> [] /\ strip l = l /\ no_linebreak l = true.
Proof.
  unfold stripped_lines. intros H. apply in_map_iff in H as (x & <- & Hx).
  apply filter_In in Hx as [Hx Hne]. split; [|split].
  - intros E. now rewrite E in Hne.
  - apply strip_idempotent.
  - apply strip_no_linebreak. now apply (splitlines_no_linebreak s).
Qed.

(** The lines [parse_subscription] returns are the stripped lines of some
    text. *)
Lemma parse_subscription_lines (content : str) :
  exists text, parse_subscription content = stripped_lines text.
Proof.
  unfold parse_subscription.
  destruct (negb (nonempty (strip content))); [now exists []|].
  unfold try_base64.
  destruct (Base64.b64decode _) as [raw|]; cbn [orelse bind]; [|eauto].
  destruct (existsb _ _); eauto.
Qed.

(** X9: every line [parse_subscription] returns, from the base64 reading
    or from the text itself, is not empty, has no white space at either
    end and holds no line boundary. *)
Theorem parse_subscription_line_shape (content l : str) :
  In l (parse_subscription content) ->
  l <> [] /\ strip l = l /\ no_linebreak l = true.
Proof.
  destruct (parse_subscription_lines content) as (text & ->).
  apply stripped_lines_shape.
Qed.

Lemma parse_subscription_line_shape_witness :
  lit "trojan://c@d:2" <> []
  /\ strip (lit "trojan://c@d:2") = lit "trojan://c@d:2"
  /\ no_linebreak (lit "trojan://c@d:2") = true.
Proof.
  apply (parse_subscription_line_shape
           (lit "  vless://a@b:1" ++ [13; 10] ++ lit " trojan://c@d:2 ")).
  vm_compute. right. left. reflexivity.
Defined.

(** X10: [parse_subscription] returns no line exactly for a text of
    nothing but white space: any other text gives at least one line. *)
Theorem parse_subscription_empty_iff (content : str) :
  parse_subscription content = [] <-> forallb is_space content = true.
Proof.
  split.
  - unfold parse_subscription.
    destruct (strip content) as [|c s] eqn:Es.
    + intros _. now apply strip_empty.
    + cbn [nonempty negb]. rewrite <- Es. unfold try_base64.
      assert (Hplain : stripped_lines (strip content) = [] ->
                       forallb is_space content = true).
      { rewrite stripped_lines_strip. apply stripped_lines_empty. }
      destruct (Base64.b64decode _) as [raw|]; cbn [orelse bind];
        [|exact Hplain].
      destruct (existsb _ (stripped_lines (Utf8.decode_replace raw))) eqn:E;
        [|exact Hplain].
      intros H. rewrite H in E. discriminate.
  - intros H. unfold parse_subscription.
    now rewrite (strip_all_space content H).
Qed.

End SubscriptionExtra.

(** ** Conversion and merge: results, errors and what is written *)
Module MergeExtra.
Import Py Val Lib Converters ConvertSubscription MergeSpec RecordSpec
  PipelineSpec PyFacts DictFacts ConvertersFacts ConvertersExtra MergeFacts.

Section WithRuntime.
Variable rt : runtime.

Lemma convert_links_decoded (links : list str) :
  convert_links_to_proxies rt links = Ret (decoded rt links).
Proof.
  induction links as [|link links IH]; [reflexivity|].
  cbn [convert_links_to_proxies decoded flat_map].
  destruct (link_to_clash_returns rt link) as (r & ->).
  cbn [bind]. rewrite IH. cbn [bind]. now destruct r.
Qed.




End WithRuntime.

(** *** [os.path.splitext] *)

Lemma cut_app (sep s a b : str) :
  cut sep s = Some (a, b) -> s = a ++ sep ++ b.
Proof.
  revert a. induction s as [|c s IH]; intros a; cbn [cut].
  - destruct (strip_prefix sep []) as [rest|] eqn:E; [|discriminate].
    intros H; injection H as <- <-. now apply strip_prefix_app in E.
  - destruct (strip_prefix sep (c :: s)) as [rest|] eqn:E.
    + intros H; injection H as <- <-. now apply strip_prefix_app in E.
    + destruct (cut sep s) as [[a' b']|]; [|discriminate].
      intros H; injection H as <- <-. cbn [app]. f_equal. now apply IH.
Qed.

Lemma rpartition_app (x : Z) (s : str) :
  let '(a, found, b) := rpartition [x] s in
  s = a ++ (if found then [x] else []) ++ b.
Proof.
  unfold rpartition. cbn [rev app].
  destruct (cut [x] (rev s)) as [[b a]|] eqn:E; [|reflexivity].
  apply cut_app in E. apply (f_equal (@rev Z)) in E.
  rewrite rev_involutive in E. rewrite E, !rev_app_distr.
  cbn [rev app]. now rewrite <- app_assoc.
Qed.

Lemma firstn_prefix (x rest : str) :
  firstn (List.length (x ++ rest) - List.length rest) (x ++ rest) = x.
Proof.
  rewrite length_app.
  replace (List.length x + List.length rest - List.length rest)%nat
    with (List.length x + 0)%nat by lia.
  rewrite firstn_app_2. cbn [firstn]. apply app_nil_r.
Qed.

(** The two parts [splitext] returns make up the path. *)
Lemma splitext_app (p : str) : fst (splitext p) ++ snd (splitext p) = p.
Proof.
  unfold splitext.
  assert (Hd := rpartition_app 47 p).
  destruct (rpartition [47] p) as [[a found] name].
  assert (Hdir : firstn (List.length p - List.length name) p ++ name = p).
  { rewrite Hd at 1 2. rewrite app_assoc, firstn_prefix.
    now rewrite <- app_assoc. }
  assert (Hn := rpartition_app 46 name).
  destruct (rpartition [46] name) as [[base [|]] ext]; cbn [fst snd];
    [|apply app_nil_r].
  destruct (forallb _ base); cbn [fst snd]; [apply app_nil_r|].
  rewrite <- app_assoc. rewrite Hn in Hdir at 2. exact Hdir.
Qed.

(** X11: [convert_links_to_proxies] raises nothing: its result is the
    records of the links that [link_to_clash] decodes, in the order of
    the links, so it has at most as many records as there are links. *)
Theorem convert_links_to_proxies_decoded (rt : runtime) (links : list str) :
  convert_links_to_proxies rt links = Ret (decoded rt links)
  /\ (List.length (decoded rt links) <= List.length links)%nat.
Proof.
  split; [apply convert_links_decoded|].
  unfold decoded. induction links as [|link links IH]; [reflexivity|].
  cbn [flat_map]. rewrite length_app. cbn [List.length].
  destruct (link_to_clash rt link) as [[p|]|]; cbn [List.length]; lia.
Qed.

(** X16: without an output path, or with an empty one, [update_yaml]
    writes to the path of the configuration with [_merged] put in front
    of its extension ([.yaml] when it has none).  That is never the path
    of the configuration, and every file but the one written, the
    configuration among them, is left as it was. *)
Theorem update_yaml_default_output (rt : runtime) (files files' : fs)
    (config_path path : str) (proxies : list dict)
    (add_to_speedtest add_to_manual : bool) (output_path : option str) :
  output_path = None \/ output_path = Some [] ->
  update_yaml rt files config_path proxies add_to_speedtest add_to_manual
    output_path = (files', Ret path) ->
  path = fst (splitext config_path) ++ lit "_merged"
         ++ (if nonempty (snd (splitext config_path))
             then snd (splitext config_path) else lit ".yaml")
  /\ path <> config_path
  /\ forall other, other <> path -> assoc other files' = assoc other files.
Proof.
  intros Ho H.
  assert (Hp : path = fst (splitext config_path) ++ lit "_merged"
                      ++ (if nonempty (snd (splitext config_path))
                          then snd (splitext config_path)
                          else lit ".yaml")
               /\ exists d', files' = assoc_set path d' files).
  { unfold update_yaml in H.
    destruct (assoc config_path files) as [loaded|]; [|discriminate].
    destruct (merge rt loaded proxies add_to_speedtest add_to_manual)
      as [d'|]; [|discriminate].
    destruct (splitext config_path) as [base ext]. cbn [fst snd].
    destruct Ho as [-> | ->]; injection H as <- <-; eauto. }
  destruct Hp as (Hp & d' & ->). split; [exact Hp|]. split.
  - intros E. apply (f_equal (@List.length Z)) in E.
    assert (Hlen : List.length config_path
                   = (List.length (fst (splitext config_path))
                      + List.length (snd (splitext config_path)))%nat)
      by now rewrite <- length_app, splitext_app.
    rewrite Hp, !length_app in E. revert E Hlen.
    destruct (snd (splitext config_path)); cbn; lia.
  - intros other Ho'. apply assoc_set_other.
    now apply str_eqb_neq.
Qed.

Lemma update_yaml_default_output_witness :
  lit "conf.d/config_merged.yml"
  = fst (splitext (lit "conf.d/config.yml")) ++ lit "_merged"
    ++ (if nonempty (snd (splitext (lit "conf.d/config.yml")))
        then snd (splitext (lit "conf.d/config.yml")) else lit ".yaml")
  /\ lit "conf.d/config_merged.yml" <> lit "conf.d/config.yml"
  /\ forall other, other <> lit "conf.d/config_merged.yml" ->
       assoc other
         [ (lit "conf.d/config.yml", VDict []);
           (lit "conf.d/config_merged.yml",
            VDict [ (lit "proxies", VList [VDict (proxy_named (lit "A"))]) ]) ]
       = assoc other [ (lit "conf.d/config.yml", VDict []) ].
Proof.
  apply (update_yaml_default_output Reference.rt
           [ (lit "conf.d/config.yml", VDict []) ] _
           (lit "conf.d/config.yml") _ [proxy_named (lit "A")]
           false false None).
  - now left.
  - vm_compute. reflexivity.
Defined.

End MergeExtra.

(** ** The merge with shared lists: what changes and what does not *)
Module SharedFacts.
Import Py Val Lib Converters ConvertSubscription Shared SharedSpec RecordSpec
  PipelineSpec PyFacts DictFacts MergeExtra.
Local Open Scope py_scope.

(** *** Lists of the store *)

Lemma append_at_length (l : nat) (x : dval) (st : store) :
  List.length (append_at l x st) = List.length st.
Proof.
  revert l. induction st as [|old st IH]; intros [|l]; cbn; auto.
Qed.

Lemma append_at_same (l : nat) (x : dval) (st : store) old :
  nth_error st l = Some old ->
  nth_error (append_at l x st) l = Some (old ++ [x]).
Proof.
  revert l. induction st as [|y st IH]; intros [|l]; cbn; try discriminate.
  - intros H; now injection H as <-.
  - apply IH.
Qed.

Lemma append_at_other (l l' : nat) (x : dval) (st : store) :
  l' <> l -> nth_error (append_at l x st) l' = nth_error st l'.
Proof.
  revert l l'. induction st as [|y st IH]; intros [|l] [|l'] H; cbn;
    try reflexivity; try congruence.
  apply IH. congruence.
Qed.

Lemma list_at_nth_error (st : store) (l : nat) old :
  nth_error st l = Some old -> list_at st l = old.
Proof. intros H. unfold list_at. now apply nth_error_nth. Qed.

Lemma list_at_outside (st : store) (l : nat) :
  (List.length st <= l)%nat -> list_at st l = [].
Proof. intros H. unfold list_at. now apply nth_overflow. Qed.

Lemma list_at_inside (st : store) (l : nat) :
  (l < List.length st)%nat -> nth_error st l = Some (list_at st l).
Proof. intros H. unfold list_at. now apply nth_error_nth'. Qed.

Lemma list_at_app (st new : store) (l : nat) :
  (l < List.length st)%nat -> list_at (st ++ new) l = list_at st l.
Proof. intros H. unfold list_at. now apply app_nth1. Qed.

Lemma gains_refl (may : nat -> dval -> Prop) (st : store) : gains may st st.
Proof.
  intros l old H. exists []. rewrite app_nil_r. split; [exact H|intros x []].
Qed.

Lemma gains_step (may may' : nat -> dval -> Prop) (st1 st2 st3 : store) :
  gains may st1 st2 -> gains may' st2 st3 ->
  (forall l x, (l < List.length st1)%nat -> may' l x -> may l x) ->
  gains may st1 st3.
Proof.
  intros H12 H23 Hm l old H.
  destruct (H12 l old H) as (a1 & H1 & Hc1).
  destruct (H23 l _ H1) as (a2 & H2 & Hc2).
  exists (a1 ++ a2). split; [now rewrite app_assoc|].
  intros x Hx. apply in_app_or in Hx as [Hx|Hx]; [now apply Hc1|].
  apply Hm; [|now apply Hc2]. apply nth_error_Some. congruence.
Qed.

Lemma gains_weaken (may may' : nat -> dval -> Prop) (st st' : store) :
  (forall l x, (l < List.length st)%nat -> may l x -> may' l x) ->
  gains may st st' -> gains may' st st'.
Proof.
  intros Hm H l old Hl. destruct (H l old Hl) as (added & H1 & H2).
  exists added. split; [exact H1|]. intros x Hx.
  apply Hm; [apply nth_error_Some; congruence|now apply H2].
Qed.

Lemma gains_same (may : nat -> dval -> Prop) (st st' : store) (l : nat) old :
  gains may st st' -> nth_error st l = Some old ->
  (forall x, ~ may l x) -> nth_error st' l = Some old.
Proof.
  intros H Hl Hn. destruct (H l old Hl) as ([|x added] & H1 & H2).
  - now rewrite app_nil_r in H1.
  - destruct (Hn x). apply H2. now left.
Qed.

Lemma gains_app (may : nat -> dval -> Prop) (st new : store) :
  gains may st (st ++ new).
Proof.
  intros l old H. exists []. rewrite app_nil_r. split; [|intros x []].
  rewrite nth_error_app1; [exact H|].
  apply nth_error_Some. congruence.
Qed.

Lemma gains_append_at (may : nat -> dval -> Prop) (l : nat) (x : dval)
    (st : store) :
  may l x -> gains may st (append_at l x st).
Proof.
  intros Hc l' old H. destruct (Nat.eq_dec l' l) as [->|Hne].
  - exists [x]. split; [now apply append_at_same|].
    intros y [<-|[]]. exact Hc.
  - exists []. rewrite app_nil_r, append_at_other by exact Hne.
    split; [exact H|intros y []].
Qed.

Lemma gains_length (may : nat -> dval -> Prop) (st st' : store) :
  gains may st st' -> (List.length st <= List.length st')%nat.
Proof.
  intros H. destruct (Nat.le_gt_cases (List.length st) (List.length st'))
    as [Hle|Hgt]; [exact Hle|].
  destruct (nth_error st (List.length st')) as [old|] eqn:E.
  - destruct (H _ _ E) as (added & H1 & _).
    assert (nth_error st' (List.length st') = None)
      by (apply nth_error_None; lia).
    congruence.
  - apply nth_error_None in E. lia.
Qed.

Lemma gains_fold_append (may : nat -> dval -> Prop) (l : nat)
    (records : list dval) :
  (forall x, In x records -> may l x) ->
  forall st,
    gains may st (fold_left (fun st p => append_at l p st) records st).
Proof.
  induction records as [|r records IH]; intros H st; cbn [fold_left].
  - apply gains_refl.
  - eapply gains_step.
    + apply gains_append_at. apply H. now left.
    + apply IH. intros x Hx. apply H. now right.
    + auto.
Qed.

Lemma fold_append_at_length (l : nat) (records : list dval) (st : store) :
  List.length (fold_left (fun st p => append_at l p st) records st)
  = List.length st.
Proof.
  revert st. induction records as [|r records IH]; intros st; cbn [fold_left].
  - reflexivity.
  - now rewrite IH, append_at_length.
Qed.

Lemma fold_append_at_same (l : nat) (records : list dval) (st : store) old :
  nth_error st l = Some old ->
  nth_error (fold_left (fun st p => append_at l p st) records st) l
  = Some (old ++ records).
Proof.
  revert st old. induction records as [|r records IH]; intros st old H;
    cbn [fold_left].
  - now rewrite app_nil_r.
  - rewrite (IH _ (old ++ [r])); [now rewrite <- app_assoc|].
    now apply append_at_same.
Qed.

Lemma fold_append_at_other (l l' : nat) (records : list dval) (st : store) :
  l' <> l ->
  nth_error (fold_left (fun st p => append_at l p st) records st) l'
  = nth_error st l'.
Proof.
  intros Hne. revert st. induction records as [|r records IH]; intros st;
    cbn [fold_left]; [reflexivity|].
  now rewrite IH, append_at_other.
Qed.

Lemma combine_map_snd {A B : Type} (a : list A) (b : list B) :
  List.length b = List.length a -> map snd (combine a b) = b.
Proof.
  revert b. induction a as [|x a IH]; intros [|y b]; cbn; try discriminate;
    [reflexivity|].
  intros H. f_equal. apply IH. lia.
Qed.

Lemma assoc_in {A : Type} (k : str) (v : A) (d : list (str * A)) :
  assoc k d = Some v -> In (k, v) d.
Proof.
  induction d as [|[k' v'] d IH]; cbn [assoc]; [discriminate|].
  destruct (str_eqb k k') eqn:E.
  - intros H; injection H as ->. apply str_eqb_eq in E. subst. now left.
  - intros H. right. now apply IH.
Qed.

(** *** Records put into the store *)

Lemma inject_dict_cons (base : nat) (k : str) (x : pyval) (d : dict) :
  inject base (VDict ((k, x) :: d))
  = let '(new1, x') := inject base x in
    let '(new2, rest) := inject (base + List.length new1) (VDict d) in
    (new1 ++ new2,
     DDict ((k, x') :: match rest with DDict e => e | _ => [] end)).
Proof.
  cbn [inject]. destruct (inject base x) as [new1 x'].
  destruct ((fix go (base0 : nat) (d0 : dict) {struct d0} :
               list (list dval) * ddict :=
               match d0 with
               | [] => ([], [])
               | (k0, x0) :: d' =>
                   let '(new0, x'0) := inject base0 x0 in
                   let '(new3, e) := go (base0 + List.length new0)%nat d' in
                   (new0 ++ new3, (k0, x'0) :: e)
               end) (base + List.length new1)%nat d) as [new2 e].
  reflexivity.
Qed.

Lemma inject_place (base : nat) (v : pyval) new (l : nat) :
  inject base v = (new, DList l) -> (base <= l)%nat.
Proof.
  destruct v as [| | | |items|d]; cbn [inject]; try discriminate.
  - destruct ((fix go (base0 : nat) (l0 : list pyval) {struct l0} :
                 list (list dval) * list dval := _) base items) as [n xs].
    intros H; injection H as _ <-. lia.
  - destruct ((fix go (base0 : nat) (d0 : dict) {struct d0} :
                 list (list dval) * ddict := _) base d) as [n e].
    discriminate.
Qed.

(** A record in the store has the keys of the record, and the lists it
    holds are new. *)
Lemma inject_record (p : dict) :
  forall base,
  exists new e,
    inject base (VDict p) = (new, DDict e)
    /\ (forall k, assoc k e = None <-> assoc k p = None)
    /\ (forall k l, assoc k e = Some (DList l) -> (base <= l)%nat).
Proof.
  induction p as [|[k x] p IH]; intros base.
  - exists [], []. cbn. repeat split; auto; discriminate.
  - rewrite inject_dict_cons.
    destruct (inject base x) as [new1 x'] eqn:Ex.
    destruct (IH (base + List.length new1)%nat) as (new2 & e & -> & Hk & Hl).
    exists (new1 ++ new2), ((k, x') :: e). split; [reflexivity|]. split.
    + intros k0. cbn [assoc]. destruct (str_eqb k0 k); [|apply Hk].
      split; discriminate.
    + intros k0 l. cbn [assoc]. destruct (str_eqb k0 k).
      * intros H; injection H as ->. now apply inject_place in Ex.
      * intros H. apply Hl in H. lia.
Qed.

Lemma inject_all_records (proxies : list dict) :
  forall base,
  List.length (snd (inject_all base proxies)) = List.length proxies
  /\ forall p record,
       In (p, record) (combine proxies (snd (inject_all base proxies))) ->
       exists e, record = DDict e
                 /\ (forall k, assoc k e = None <-> assoc k p = None)
                 /\ (forall k l, assoc k e = Some (DList l) ->
                                 (base <= l)%nat).
Proof.
  induction proxies as [|p proxies IH]; intros base.
  - cbn. split; [reflexivity|]. intros p record [].
  - cbn [inject_all].
    destruct (inject_record p base) as (new1 & e & -> & Hk & Hl).
    destruct (IH (base + List.length new1)%nat) as [Hlen Hin].
    destruct (inject_all (base + List.length new1) proxies)
      as [new2 records].
    cbn [snd] in *. split; [cbn [List.length]; now rewrite Hlen|].
    cbn [combine]. intros q record [H|H].
    + injection H as <- <-. eauto.
    + destruct (Hin q record H) as (e' & -> & Hk' & Hl').
      exists e'. split; [reflexivity|]. split; [exact Hk'|].
      intros k l Hkl. apply Hl' in Hkl. lia.
Qed.

Lemma inject_all_fresh (proxies : list dict) :
  forall base record,
    In record (snd (inject_all base proxies)) ->
    exists e, record = DDict e
              /\ forall k l, assoc k e = Some (DList l) -> (base <= l)%nat.
Proof.
  induction proxies as [|p proxies IH]; intros base record.
  - intros [].
  - cbn [inject_all].
    destruct (inject_record p base) as (new1 & e & -> & _ & Hl).
    specialize (IH (base + List.length new1)%nat).
    destruct (inject_all (base + List.length new1) proxies)
      as [new2 records].
    cbn [snd] in *. intros [<-|H]; [eauto|].
    destruct (IH record H) as (e' & -> & Hl').
    exists e'. split; [reflexivity|].
    intros k l Hkl. apply Hl' in Hkl. lia.
Qed.

(** *** Reading the records back *)







(** *** Documents *)

Lemma closed_val_dict (n : nat) (d : ddict) :
  closed_val n (DDict d) = true ->
  forall k x, In (k, x) d -> closed_val n x = true.
Proof.
  induction d as [|[k0 x0] d IH]; intros H k x; [intros []|].
  cbn [closed_val] in H. apply andb_true_iff in H as [H0 H].
  intros [E|Hin]; [now injection E as <- <-|].
  now apply (IH H k x).
Qed.

Lemma closed_val_assoc (n : nat) (d : ddict) (k : str) (v : dval) :
  closed_val n (DDict d) = true -> assoc k d = Some v ->
  closed_val n v = true.
Proof.
  intros H Hk. apply (closed_val_dict n d H k v). now apply assoc_in.
Qed.

Lemma closed_top_level (n : nat) (loaded : dval) :
  closed_val n loaded = true -> closed_val n (DDict (top_level loaded)) = true.
Proof. destruct loaded; try reflexivity. auto. Qed.

(** The lists met from a value of a document are lists of the store. *)
Lemma closed_lists_of (st : store) (n : nat) :
  forallb (forallb (closed_val n)) st = true ->
  forall fuel v, closed_val n v = true ->
  forall l, In l (lists_of fuel st v) -> (l < n)%nat.
Proof.
  intros Hst. induction fuel as [|fuel IH]; intros v Hv l; cbn [lists_of];
    [intros []|].
  destruct v as [| | | |place|d]; try (now intros []).
  - intros [<-|Hin]; [now apply Nat.ltb_lt|].
    apply in_flat_map in Hin as (x & Hx & Hl).
    apply (IH x); [|exact Hl].
    unfold list_at in Hx.
    destruct (Nat.lt_ge_cases place (List.length st)) as [Hlt|Hge].
    + rewrite forallb_forall in Hst.
      specialize (Hst (nth place st []) (nth_In st [] Hlt)).
      rewrite forallb_forall in Hst. now apply Hst.
    + rewrite nth_overflow in Hx by exact Hge. destruct Hx.
  - intros Hin. apply in_flat_map in Hin as ([k x] & Hx & Hl).
    apply (IH x); [|exact Hl]. now apply (closed_val_dict n d Hv k x).
Qed.

(** A value reads the same when none of the lists met on the way has
    got an entry. *)
Lemma value_of_gains (may : nat -> dval -> Prop) (st st' : store) :
  gains may st st' ->
  forall fuel v,
    (forall l, In l (lists_of fuel st v) ->
               (l < List.length st)%nat /\ forall x, ~ may l x) ->
    value_of fuel st' v = value_of fuel st v.
Proof.
  intros Hg. induction fuel as [|fuel IH]; intros v Hv; [reflexivity|].
  cbn [value_of lists_of] in *.
  destruct v as [| | | |place|d]; try reflexivity.
  - destruct (Hv place (or_introl eq_refl)) as [Hlt Hnot].
    assert (E : list_at st' place = list_at st place).
    { apply list_at_nth_error.
      apply (gains_same may st st' place _ Hg (list_at_inside st place Hlt)
               Hnot). }
    rewrite E. f_equal. apply map_ext_in. intros x Hx. apply IH.
    intros l Hl. apply Hv. right. apply in_flat_map. now exists x.
  - f_equal. apply map_ext_in. intros [k x] Hx. cbn [fst snd]. f_equal.
    apply IH. intros l Hl. apply Hv. apply in_flat_map. now exists (k, x).
Qed.

Section WithRuntime.
Variable rt : runtime.
Variable str_of_node : store -> dval -> str.

(** *** The names *)



Lemma names_of_fields (proxies : list (dict * dval)) :
  forall names,
  names_of proxies = Ret names ->
  forall name object, In (name, object) names ->
    exists p record,
      In (p, record) proxies
      /\ assoc (lit "name") p = Some name
      /\ field (lit "name") record = Some object.
Proof.
  induction proxies as [|[p record] proxies IH]; intros names; cbn [names_of].
  - intros H; injection H as <-. intros name object [].
  - destruct (assoc (lit "name") p) as [n|] eqn:Ep; [|discriminate].
    destruct (field (lit "name") record) as [o|] eqn:Er; [|discriminate].
    destruct (names_of proxies) as [rest|]; [|discriminate].
    cbn [bind]. intros H; injection H as <-.
    intros name object [H|H].
    + injection H as <- <-. exists p, record. split; [now left|auto].
    + destruct (IH rest eq_refl name object H) as (q & r & Hq & Hn).
      exists q, r. split; [now right|exact Hn].
Qed.

(** *** The loop over the groups *)

Lemma append_new_gains (may : nat -> dval -> Prop)
    (names : list (pyval * dval)) (l : nat) :
  (forall name object, In (name, object) names -> may l object) ->
  forall st, gains may st (append_new names l st).
Proof.
  induction names as [|[name object] names IH]; intros H st;
    cbn [append_new]; [apply gains_refl|].
  assert (Hrest : forall n o, In (n, o) names -> may l o)
    by (intros n o Hno; apply (H n o); now right).
  destruct (negb (existsb _ _)); [|now apply IH].
  eapply gains_step; [|now apply IH|auto].
  apply gains_append_at. apply (H name object). now left.
Qed.

Lemma update_group_gains proxies s m st group st' :
  update_group rt str_of_node proxies s m st group = Ret st' ->
  gains (fun l x => group_list group = Some l
                    /\ name_of (map snd proxies) x) st st'.
Proof.
  destruct group as [| | | | |g]; cbn [update_group];
    try (intros H; injection H as <-; apply gains_refl).
  cbn [group_list].
  destruct (assoc (lit "proxies") g) as [[| | | |l|]|];
    try (intros H; injection H as <-; apply gains_refl).
  match goal with
  | |- Val.bind ?x _ = _ -> _ =>
      destruct x as [names|] eqn:En; [|discriminate]
  end.
  cbn [bind]. intros H; injection H as <-.
  apply append_new_gains. intros name object Hno. split; [reflexivity|].
  assert (Hn : names_of proxies = Ret names \/ names = []).
  { destruct (s && _) in En; [now left|].
    destruct (m && _) in En; [now left|]. right. now injection En as <-. }
  destruct Hn as [Hn| ->]; [|destruct Hno].
  destruct (names_of_fields _ _ Hn name object Hno)
    as (p & record & Hin & _ & Hf).
  exists record. split; [|exact Hf].
  apply in_map_iff. now exists (p, record).
Qed.

Lemma update_groups_gains proxies s m groups :
  forall st st',
  update_groups rt str_of_node proxies s m st groups = Ret st' ->
  gains (fun l x => (exists group,
                       In group groups /\ group_list group = Some l)
                    /\ name_of (map snd proxies) x) st st'.
Proof.
  induction groups as [|group groups IH]; intros st st';
    cbn [update_groups].
  - intros H; injection H as <-. apply gains_refl.
  - destruct (update_group rt str_of_node proxies s m st group)
      as [st1|] eqn:E1; [|discriminate].
    cbn [bind]. intros H. apply IH in H. apply update_group_gains in E1.
    eapply gains_step.
    + eapply gains_weaken; [|exact E1]. intros l x _ [Hl Hx].
      split; [|exact Hx]. exists group. split; [now left|exact Hl].
    + exact H.
    + intros l x _ [(g & Hg & Hl) Hx]. split; [|exact Hx].
      exists g. split; [now right|exact Hl].
Qed.





(** *** The merge *)

(** The document [merge] works on. *)
Lemma merge_top_level (st : store) (loaded : dval) (proxies : list dict)
    (s m : bool) :
  (truthy st loaded = true /\ (forall d, loaded <> DDict d)
   /\ merge rt str_of_node st loaded proxies s m = Raise AttributeError)
  \/ merge rt str_of_node st loaded proxies s m
     = merge rt str_of_node st (DDict (top_level loaded)) proxies s m.
Proof.
  destruct (truthy st loaded) eqn:Et.
  - destruct loaded as [| | | | |d];
      try (left; split; [reflexivity|]; split; [discriminate|];
           unfold merge; now rewrite Et).
    now right.
  - right. unfold merge. rewrite Et.
    destruct loaded as [| | | | |[|]]; try reflexivity. discriminate.
Qed.

(** What the two loops do to the lists of the store. *)
Lemma merge_records_gains (st0 : store) (root0 : ddict) (section : nat)
    (proxies : list dict) (s m : bool) (st' : store) (old : list dval) :
  nth_error st0 section = Some old ->
  (forall groups, assoc (lit "proxy-groups") root0 = Some (DList groups) ->
                  (groups < List.length st0)%nat) ->
  merge_records rt str_of_node st0 root0 section proxies s m = Ret st' ->
  exists rest,
    nth_error st' section
    = Some (old ++ snd (inject_all (List.length st0) proxies) ++ rest)
    /\ (forall x, In x rest ->
          s || m = true
          /\ name_of (snd (inject_all (List.length st0) proxies)) x)
    /\ (s || m = false ->
        forall i y,
          nth_error (fst (inject_all (List.length st0) proxies)) i = Some y ->
          nth_error st' (List.length st0 + i) = Some y)
    /\ gains (fun l x =>
                (l = section
                 /\ In x (snd (inject_all (List.length st0) proxies)))
                \/ (s || m = true
                    /\ (exists group,
                          In group (groups_of st0 root0)
                          /\ group_list group = Some l)
                    /\ name_of (snd (inject_all (List.length st0) proxies))
                         x))
         st0 st'.
Proof.
  intros Hold Hgroups. unfold merge_records.
  destruct (inject_all_records proxies (List.length st0)) as [Hlen _].
  pose proof (inject_all_fresh proxies (List.length st0)) as Hfresh.
  destruct (inject_all (List.length st0) proxies) as [new records].
  cbn [fst snd] in *. cbv beta iota zeta.
  set (st1 := fold_left (fun st p => append_at section p st) records
                (st0 ++ new)).
  assert (F1 : gains (fun l x => l = section /\ In x records) st0 st1).
  { apply (gains_step _ (fun l x => l = section /\ In x records)
             st0 (st0 ++ new) st1); [apply gains_app| |auto].
    unfold st1. apply gains_fold_append. intros x Hx. now split. }
  assert (F2 : nth_error st1 section = Some (old ++ records)).
  { unfold st1. apply fold_append_at_same.
    rewrite nth_error_app1; [exact Hold|]. apply nth_error_Some. congruence. }
  assert (Fother : forall l, l <> section -> (l < List.length st0)%nat ->
                             list_at st1 l = list_at st0 l).
  { intros l Hne Hlt. apply list_at_nth_error. unfold st1.
    rewrite fold_append_at_other by exact Hne.
    rewrite nth_error_app1 by exact Hlt. now apply list_at_inside. }
  assert (Fnew : forall i y, nth_error new i = Some y ->
                             nth_error st1 (List.length st0 + i) = Some y).
  { intros i y Hi. unfold st1.
    assert (section < List.length st0)%nat
      by (apply nth_error_Some; congruence).
    rewrite fold_append_at_other by lia.
    rewrite nth_error_app2 by lia.
    now replace (List.length st0 + i - List.length st0)%nat with i by lia. }
  assert (Hplain : Ret st1 = Ret st' ->
    exists rest,
      nth_error st' section = Some (old ++ records ++ rest)
      /\ (forall x, In x rest -> s || m = true /\ name_of records x)
      /\ (s || m = false ->
          forall i y, nth_error new i = Some y ->
                      nth_error st' (List.length st0 + i) = Some y)
      /\ gains (fun l x =>
                  (l = section /\ In x records)
                  \/ (s || m = true
                      /\ (exists group,
                            In group (groups_of st0 root0)
                            /\ group_list group = Some l)
                      /\ name_of records x)) st0 st').
  { intros H; injection H as <-. exists []. rewrite app_nil_r.
    split; [exact F2|]. split; [intros x []|]. split; [intros _; exact Fnew|].
    eapply gains_weaken; [|exact F1]. intros l x _ Hx. now left. }
  revert Hplain. destruct (s || m) eqn:Esm; intros Hplain; [|exact Hplain].
  destruct (assoc (lit "proxy-groups") root0) as [[| | | |groups|]|] eqn:Epg;
    try discriminate; [|exact Hplain].
  intros Eu. apply update_groups_gains in Eu.
  rewrite (combine_map_snd proxies records Hlen) in Eu.
  destruct (Eu section _ F2) as (rest & Hrest & Hmay).
  exists rest. split; [now rewrite <- app_assoc in Hrest|]. split.
  { intros x Hx. split; [reflexivity|]. now apply Hmay. }
  split; [discriminate|].
  refine (gains_step _ _ st0 st1 st' _ Eu _).
  { eapply gains_weaken; [|exact F1]. intros l x _ Hx. now left. }
  intros l x Hlt [(group & Hin & Hl) Hx]. right.
  split; [reflexivity|]. split; [|exact Hx].
  exists group. split; [|exact Hl].
  unfold groups_of. rewrite Epg. specialize (Hgroups groups eq_refl).
  destruct (Nat.eq_dec groups section) as [->|Hne].
  - rewrite (list_at_nth_error _ _ _ F2) in Hin.
    rewrite (list_at_nth_error _ _ _ Hold).
    apply in_app_or in Hin as [Hin|Hin]; [exact Hin|].
    destruct (Hfresh group Hin) as (e & -> & Hl'). cbn [group_list] in Hl.
    destruct (assoc (lit "proxies") e) as [[| | | |l'|]|] eqn:El;
      try discriminate.
    injection Hl as ->. apply Hl' in El. lia.
  - now rewrite Fother in Hin.
Qed.

(** What a merge that returns has done: the top-level mapping has its
    entries but for [proxies], which is bound to a list; that list has
    its old entries, the records and what the loop over the groups added
    to it; and the lists of the document have got what [merged] allows
    at most. *)
Lemma merge_gains (st : store) (root : ddict) (proxies : list dict)
    (s m : bool) (st' : store) (root' : ddict) :
  closed st (DDict root) = true ->
  merge rt str_of_node st (DDict root) proxies s m = Ret (st', root') ->
  exists base section rest,
    (List.length st <= base)%nat
    /\ others root' = others root
    /\ (forall k, str_eqb k (lit "proxies") = false ->
                  assoc k root' = assoc k root)
    /\ assoc (lit "proxies") root' = Some (DList section)
    /\ nth_error st' section
       = Some (proxies_of st root ++ snd (inject_all base proxies) ++ rest)
    /\ (forall x, In x rest ->
          s || m = true /\ name_of (snd (inject_all base proxies)) x)
    /\ (s || m = false ->
        forall i y, nth_error (fst (inject_all base proxies)) i = Some y ->
                    nth_error st' (base + i) = Some y)
    /\ gains (merged s m st root (snd (inject_all base proxies))) st st'.
Proof.
  intros Hc. apply andb_true_iff in Hc as [Hroot Hst].
  assert (Hpg : forall groups,
            assoc (lit "proxy-groups") root = Some (DList groups) ->
            (groups < List.length st)%nat).
  { intros groups Hg. apply Nat.ltb_lt.
    apply (closed_val_assoc _ _ _ _ Hroot Hg). }
  assert (Hfresh : proxies_of st root = [] ->
    (st1 <- merge_records rt str_of_node (st ++ [[]])
              (assoc_set (lit "proxies") (DList (List.length st)) root)
              (List.length st) proxies s m ;;
     Ret (st1, assoc_set (lit "proxies") (DList (List.length st)) root))
    = Ret (st', root') ->
    (forall l, assoc (lit "proxies") root <> Some (DList l)) ->
    exists base section rest,
      (List.length st <= base)%nat
      /\ others root' = others root
      /\ (forall k, str_eqb k (lit "proxies") = false ->
                    assoc k root' = assoc k root)
      /\ assoc (lit "proxies") root' = Some (DList section)
      /\ nth_error st' section
         = Some (proxies_of st root ++ snd (inject_all base proxies) ++ rest)
      /\ (forall x, In x rest ->
            s || m = true /\ name_of (snd (inject_all base proxies)) x)
      /\ (s || m = false ->
          forall i y, nth_error (fst (inject_all base proxies)) i = Some y ->
                      nth_error st' (base + i) = Some y)
      /\ gains (merged s m st root (snd (inject_all base proxies))) st st').
  { intros Hold H Hno.
    destruct (merge_records rt str_of_node (st ++ [[]]) _ _ proxies s m)
      as [st1|] eqn:Em; [|discriminate].
    cbn [bind] in H. injection H as <- <-.
    apply (merge_records_gains _ _ _ _ _ _ _ []) in Em.
    - destruct Em as (rest & Hsec & Hrest & Hnew & Hg).
      exists (List.length (st ++ [[]])), (List.length st), rest.
      split; [rewrite length_app; lia|].
      split; [apply assoc_set_filter; reflexivity|].
      split; [intros k Hk; now apply assoc_set_other|].
      split; [apply assoc_set_same|].
      split; [now rewrite Hold|]. split; [exact Hrest|].
      split; [exact Hnew|].
      refine (gains_step _ _ st (st ++ [[]]) st1 (gains_app _ _ _) Hg _).
      intros l x Hlt [[-> _]|(Hsm & (group & Hin & Hl) & Hx)]; [lia|].
      right. split; [exact Hsm|]. split; [|exact Hx].
      exists group. split; [|exact Hl].
      unfold groups_of in *.
      rewrite assoc_set_other in Hin by reflexivity.
      destruct (assoc (lit "proxy-groups") root) as [[| | | |groups|]|] eqn:Eg;
        try exact Hin.
      rewrite list_at_app in Hin; [exact Hin|now apply Hpg].
    - rewrite nth_error_app2, Nat.sub_diag by lia. reflexivity.
    - intros groups. rewrite assoc_set_other by reflexivity.
      intros Hg. apply Hpg in Hg. rewrite length_app. lia. }
  unfold merge.
  replace (if truthy st (DDict root) then DDict root else DDict [])
    with (DDict root) by now destruct root.
  destruct (assoc (lit "proxies") root) as [[| | | |section|]|] eqn:Ep;
    cbv beta iota; try discriminate.
  - intros H. apply Hfresh; [unfold proxies_of; now rewrite Ep|exact H|].
    intros l. discriminate.
  - assert (Hlt : (section < List.length st)%nat).
    { apply Nat.ltb_lt. apply (closed_val_assoc _ _ _ _ Hroot Ep). }
    destruct (merge_records rt str_of_node st root section proxies s m)
      as [st1|] eqn:Em; [|discriminate].
    cbn [bind]. intros H; injection H as <- <-.
    apply (merge_records_gains _ _ _ _ _ _ _ (list_at st section)) in Em;
      [|now apply list_at_inside|exact Hpg].
    destruct Em as (rest & Hsec & Hrest & Hnew & Hg).
    exists (List.length st), section, rest.
    split; [lia|]. split; [reflexivity|]. split; [reflexivity|].
    split; [exact Ep|].
    split; [unfold proxies_of; now rewrite Ep|]. split; [exact Hrest|].
    split; [exact Hnew|].
    eapply gains_weaken; [|exact Hg].
    intros l x _ [[-> Hx]|H]; [left; now split|now right].
  - intros H. apply Hfresh; [unfold proxies_of; now rewrite Ep|exact H|].
    intros l. discriminate.
Qed.

(** *** When the merge returns and when it raises *)







(** *** The files *)

Lemma update_yaml_written (writable : str -> bool) (files : fs)
    (config_path : str) (proxies : list dict) (s m : bool)
    (output_path : option str) (files' : fs) (path : str) :
  update_yaml rt str_of_node writable files config_path proxies s m
    output_path = (files', Ret path) ->
  exists st loaded st' root',
    assoc config_path files = Some (Yaml st loaded)
    /\ merge rt str_of_node st loaded proxies s m = Ret (st', root')
    /\ path = output_file config_path output_path
    /\ writable path = true
    /\ files' = assoc_set path (Yaml st' (DDict root')) files.
Proof.
  unfold update_yaml.
  destruct (assoc config_path files) as [[st loaded|e]|]; try discriminate.
  destruct (merge rt str_of_node st loaded proxies s m) as [[st' root']|]
    eqn:Em; [|discriminate].
  match goal with
  | |- context [writable ?p] =>
      change p with (output_file config_path output_path)
  end.
  destruct (writable (output_file config_path output_path)) eqn:Ew;
    [|discriminate].
  intros H; injection H as <- <-.
  exists st, loaded, st', root'. auto.
Qed.

End WithRuntime.

Lemma document_closed (st : store) (loaded : dval) :
  document st loaded = true -> closed st (DDict (top_level loaded)) = true.
Proof.
  intros H. apply andb_true_iff in H as [H _].
  apply andb_true_iff in H as [Hv Hst]. unfold closed.
  now rewrite (closed_top_level _ _ Hv), Hst.
Qed.

(** A call of [update_yaml] that returns, on a document of the model. *)
Lemma update_yaml_merged (rt : runtime) (str_of_node : store -> dval -> str)
    (writable : str -> bool) (files files' : fs) (config_path path : str)
    (st : store) (loaded : dval) (proxies : list dict) (s m : bool)
    (output_path : option str) :
  assoc config_path files = Some (Yaml st loaded) ->
  update_yaml rt str_of_node writable files config_path proxies s m
    output_path = (files', Ret path) ->
  exists st' root',
    assoc path files' = Some (Yaml st' (DDict root'))
    /\ merge rt str_of_node st (DDict (top_level loaded)) proxies s m
       = Ret (st', root').
Proof.
  intros Hf H. apply update_yaml_written in H.
  destruct H as (st0 & loaded0 & st' & root' & Hf0 & Hm & _ & _ & ->).
  rewrite Hf in Hf0. injection Hf0 as <- <-.
  exists st', root'. split; [apply assoc_set_same|].
  destruct (merge_top_level rt str_of_node st loaded proxies s m)
    as [(_ & _ & He)|He]; [congruence|now rewrite <- He].
Qed.

(** C6, for a document whose lists are objects that several places can
    hold: in the document [update_yaml] writes, the top-level keys other
    than [proxies] and [proxy-groups] are bound, in their order, to the
    values they had; a list of the document has got entries behind its
    old ones at most, and none unless it is the list under [proxies] or,
    with a flag set, the [proxies] list of a group; so a key other than
    the two reads as before when its value holds none of these lists. *)
Theorem update_yaml_others_kept (rt : runtime)
    (str_of_node : store -> dval -> str) (writable : str -> bool)
    (files files' : fs) (config_path path : str) (st : store)
    (loaded : dval) (proxies : list dict)
    (add_to_speedtest add_to_manual : bool) (output_path : option str) :
  assoc config_path files = Some (Yaml st loaded) ->
  document st loaded = true ->
  update_yaml rt str_of_node writable files config_path proxies
    add_to_speedtest add_to_manual output_path = (files', Ret path) ->
  exists st' root',
    assoc path files' = Some (Yaml st' (DDict root'))
    /\ others root' = others (top_level loaded)
    /\ grows (fun l => In l (merged_lists add_to_speedtest add_to_manual st
                               (top_level loaded))) st st'
    /\ forall fuel k,
         MergeSpec.untouched k = true ->
         (forall v l,
            assoc k (top_level loaded) = Some v ->
            In l (lists_of fuel st v) ->
            ~ In l (merged_lists add_to_speedtest add_to_manual st
                      (top_level loaded))) ->
         reading fuel st' root' k = reading fuel st (top_level loaded) k.
Proof.
  intros Hf Hd H. apply document_closed in Hd.
  destruct (update_yaml_merged _ _ _ _ _ _ _ _ _ _ _ _ _ Hf H)
    as (st' & root' & Hout & Hm).
  destruct (merge_gains _ _ _ _ _ _ _ _ _ Hd Hm)
    as (base & section & rest & _ & Ho & Hk & _ & _ & _ & _ & Hg).
  assert (Hgrows : grows (fun l => In l (merged_lists add_to_speedtest
                                           add_to_manual st
                                           (top_level loaded))) st st').
  { eapply gains_weaken; [|exact Hg]. unfold merged_lists.
    intros l x _ [[Hp _]|(Hsm & (group & Hin & Hl) & _)]; apply in_or_app.
    - left. rewrite Hp. now left.
    - right. rewrite Hsm. apply in_flat_map. exists group.
      split; [exact Hin|]. rewrite Hl. now left. }
  exists st', root'. split; [exact Hout|]. split; [exact Ho|].
  split; [exact Hgrows|].
  intros fuel k Hu Hv. unfold reading.
  rewrite Hk.
  2:{ unfold MergeSpec.untouched in Hu. apply negb_true_iff in Hu.
      now apply orb_false_iff in Hu. }
  destruct (assoc k (top_level loaded)) as [v|] eqn:Ev; [|reflexivity].
  cbn [option_map]. f_equal.
  apply (value_of_gains _ _ _ Hgrows). intros l Hl. split.
  - apply andb_true_iff in Hd as [Hroot Hst].
    apply (closed_lists_of st _ Hst fuel v); [|exact Hl].
    apply (closed_val_assoc _ _ _ _ Hroot Ev).
  - intros _. now apply (Hv v l).
Qed.

Lemma update_yaml_others_kept_witness :
  exists st' root',
    assoc (lit "out.yaml")
      (fst (update_yaml Reference.rt no_type all_writable sample_files
              (lit "config.yaml") [MergeSpec.proxy_named (lit "B")]
              false true (Some (lit "out.yaml"))))
    = Some (Yaml st' (DDict root'))
    /\ others root' = others (top_level (DDict aliased_root))
    /\ grows (fun l => In l (merged_lists false true aliased_store
                               (top_level (DDict aliased_root))))
         aliased_store st'
    /\ forall fuel k,
         MergeSpec.untouched k = true ->
         (forall v l,
            assoc k (top_level (DDict aliased_root)) = Some v ->
            In l (lists_of fuel aliased_store v) ->
            ~ In l (merged_lists false true aliased_store
                      (top_level (DDict aliased_root)))) ->
         reading fuel st' root' k
         = reading fuel aliased_store (top_level (DDict aliased_root)) k.
Proof.
  apply (update_yaml_others_kept Reference.rt no_type all_writable
           sample_files _ (lit "config.yaml") (lit "out.yaml") aliased_store
           (DDict aliased_root) [MergeSpec.proxy_named (lit "B")] false true
           (Some (lit "out.yaml")));
    vm_compute; reflexivity.
Defined.

(** C6 as the specification has it fails for a document with an alias:
    with [backup] bound to the list that [proxies] is bound to, a merge
    without a flag leaves [backup] with one entry more than it had. *)
Lemma update_yaml_alias_changed :
  exists files' st' root',
    update_yaml Reference.rt no_type all_writable sample_files
      (lit "config.yaml") [MergeSpec.proxy_named (lit "B")] false false None
    = (files', Ret (lit "config_merged.yaml"))
    /\ assoc (lit "config.yaml") sample_files
       = Some (Yaml aliased_store (DDict aliased_root))
    /\ assoc (lit "config_merged.yaml") files'
       = Some (Yaml st' (DDict root'))
    /\ MergeSpec.untouched (lit "backup") = true
    /\ reading 3 aliased_store aliased_root (lit "backup")
       = Some (VList [VDict (MergeSpec.proxy_named (lit "A"))])
    /\ reading 3 st' root' (lit "backup")
       = Some (VList [VDict (MergeSpec.proxy_named (lit "A"));
                      VDict (MergeSpec.proxy_named (lit "B"))]).
Proof.
  eexists _, _, _. split; [vm_compute; reflexivity|].
  split; [reflexivity|]. split; [reflexivity|].
  split; [reflexivity|]. split; reflexivity.
Qed.







(** X15: what the lists of the document have got when [update_yaml]
    returns: each has its old entries first, in their order; behind
    them the list under [proxies] has the new records, and, with a flag
    set, the [proxies] list of a group has names of new records; no
    other list of the document has got an entry. *)
Theorem update_yaml_lists_gain (rt : runtime)
    (str_of_node : store -> dval -> str) (writable : str -> bool)
    (files files' : fs) (config_path path : str) (st : store)
    (loaded : dval) (proxies : list dict)
    (add_to_speedtest add_to_manual : bool) (output_path : option str) :
  assoc config_path files = Some (Yaml st loaded) ->
  document st loaded = true ->
  update_yaml rt str_of_node writable files config_path proxies
    add_to_speedtest add_to_manual output_path = (files', Ret path) ->
  exists st' root' base,
    assoc path files' = Some (Yaml st' (DDict root'))
    /\ (List.length st <= base)%nat
    /\ gains (merged add_to_speedtest add_to_manual st (top_level loaded)
                (snd (inject_all base proxies))) st st'.
Proof.
  intros Hf Hd H. apply document_closed in Hd.
  destruct (update_yaml_merged _ _ _ _ _ _ _ _ _ _ _ _ _ Hf H)
    as (st' & root' & Hout & Hm).
  destruct (merge_gains _ _ _ _ _ _ _ _ _ Hd Hm)
    as (base & section & rest & Hb & _ & _ & _ & _ & _ & _ & Hg).
  exists st', root', base. auto.
Qed.

Lemma update_yaml_lists_gain_witness :
  exists st' root' base,
    assoc (lit "out.yaml")
      (fst (update_yaml Reference.rt no_type all_writable sample_files
              (lit "plain.yaml") [MergeSpec.proxy_named (lit "B")]
              false true (Some (lit "out.yaml"))))
    = Some (Yaml st' (DDict root'))
    /\ (List.length plain_store <= base)%nat
    /\ gains (merged false true plain_store (top_level (DDict plain_root))
                (snd (inject_all base [MergeSpec.proxy_named (lit "B")])))
         plain_store st'.
Proof.
  apply (update_yaml_lists_gain Reference.rt no_type all_writable
           sample_files _ (lit "plain.yaml") (lit "out.yaml") plain_store
           (DDict plain_root) [MergeSpec.proxy_named (lit "B")] false true
           (Some (lit "out.yaml")));
    vm_compute; reflexivity.
Defined.

(** X20: with the lists as objects as well, when [proxy-groups] is
    there and is not a list, and a flag is set, [update_yaml] raises the
    [TypeError] that names the key and the class of its value, and
    writes no file.  (When [proxies] is not a list either, that is the
    key the error names.) *)
Theorem update_yaml_groups_no_list (rt : runtime)
    (str_of_node : store -> dval -> str) (writable : str -> bool)
    (files : fs) (config_path : str) (st : store) (d : ddict)
    (groups : dval) (proxies : list dict)
    (add_to_speedtest add_to_manual : bool) (output_path : option str) :
  assoc config_path files = Some (Yaml st (DDict d)) ->
  assoc (lit "proxy-groups") d = Some groups ->
  (forall l, groups <> DList l) ->
  add_to_speedtest || add_to_manual = true ->
  let '(key, v) :=
    match assoc (lit "proxies") d with
    | None | Some DNone | Some (DList _) => (lit "proxy-groups", groups)
    | Some v => (lit "proxies", v)
    end in
  assoc key d = Some v
  /\ (forall l, v <> DList l)
  /\ update_yaml rt str_of_node writable files config_path proxies
       add_to_speedtest add_to_manual output_path
     = (files,
        Raise (TypeError (lit "Expected '" ++ key
                          ++ lit "' to be a list, got "
                          ++ type_name rt (kind v)))).
Proof.
  intros Hf Hg Hl Hflag.
  unfold update_yaml, merge. rewrite Hf.
  replace (if truthy st (DDict d) then DDict d else DDict []) with (DDict d)
    by now destruct d.
  assert (Hrec : forall st0 d0 section,
    assoc (lit "proxy-groups") d0 = Some groups ->
    merge_records rt str_of_node st0 d0 section proxies add_to_speedtest
      add_to_manual
    = Raise (expected_list rt (lit "proxy-groups") (kind groups))).
  { intros st0 d0 section Hg0. unfold merge_records.
    destruct (inject_all (List.length st0) proxies) as [new records].
    cbv beta iota zeta. rewrite Hflag, Hg0.
    destruct groups; try reflexivity. now destruct (Hl l). }
  destruct (assoc (lit "proxies") d) as [[| | | |section|]|] eqn:Ep;
    cbv iota beta;
    try (split; [exact Ep|split; [discriminate|reflexivity]]);
    (split; [exact Hg|split; [exact Hl|]]);
    rewrite Hrec; try reflexivity; try exact Hg;
    now rewrite assoc_set_other by reflexivity.
Qed.

Lemma update_yaml_groups_no_list_witness :
  assoc (lit "proxy-groups") [ (lit "proxy-groups", DStr (lit "none")) ]
  = Some (DStr (lit "none"))
  /\ (forall l, DStr (lit "none") <> DList l)
  /\ update_yaml Reference.rt no_type all_writable
       [ (lit "c.yaml",
          Yaml [] (DDict [ (lit "proxy-groups", DStr (lit "none")) ])) ]
       (lit "c.yaml") [MergeSpec.proxy_named (lit "A")] true false None
     = ([ (lit "c.yaml",
           Yaml [] (DDict [ (lit "proxy-groups", DStr (lit "none")) ])) ],
        Raise (TypeError (lit "Expected '" ++ lit "proxy-groups"
                          ++ lit "' to be a list, got "
                          ++ type_name Reference.rt
                               (kind (DStr (lit "none")))))).
Proof.
  apply (update_yaml_groups_no_list Reference.rt no_type all_writable
           [ (lit "c.yaml",
              Yaml [] (DDict [ (lit "proxy-groups", DStr (lit "none")) ])) ]
           (lit "c.yaml") [] [ (lit "proxy-groups", DStr (lit "none")) ]
           (DStr (lit "none")) [MergeSpec.proxy_named (lit "A")] true false
           None);
    try reflexivity.
  intros l. discriminate.
Defined.

(** X21: with the lists as objects as well, a call of [update_yaml]
    that returns has written one file, the one whose path it returns,
    and left every other file as it was; without an output path, or with
    an empty one, that path is the path of the configuration with
    [_merged] put in front of its extension ([.yaml] when it has none),
    which is never the path of the configuration. *)
Theorem update_yaml_writes_one_file (rt : runtime)
    (str_of_node : store -> dval -> str) (writable : str -> bool)
    (files files' : fs) (config_path path : str) (proxies : list dict)
    (add_to_speedtest add_to_manual : bool) (output_path : option str) :
  update_yaml rt str_of_node writable files config_path proxies
    add_to_speedtest add_to_manual output_path = (files', Ret path) ->
  (exists st' root', assoc path files' = Some (Yaml st' (DDict root')))
  /\ (forall other, other <> path -> assoc other files' = assoc other files)
  /\ (output_path = None \/ output_path = Some [] ->
      path = fst (splitext config_path) ++ lit "_merged"
             ++ (if nonempty (snd (splitext config_path))
                 then snd (splitext config_path) else lit ".yaml")
      /\ path <> config_path).
Proof.
  intros H. apply update_yaml_written in H.
  destruct H as (st & loaded & st' & root' & _ & _ & Hp & _ & ->).
  split; [exists st', root'; apply assoc_set_same|]. split.
  - intros other Ho. apply assoc_set_other. now apply str_eqb_neq.
  - intros Ho.
    assert (E : path = fst (splitext config_path) ++ lit "_merged"
                       ++ (if nonempty (snd (splitext config_path))
                           then snd (splitext config_path)
                           else lit ".yaml")).
    { rewrite Hp. unfold output_file.
      destruct (splitext config_path) as [base ext]. cbn [fst snd].
      now destruct Ho as [-> | ->]. }
    split; [exact E|].
    intros E'. rewrite E' in E. apply (f_equal (@List.length Z)) in E.
    assert (Hlen : List.length config_path
                   = (List.length (fst (splitext config_path))
                      + List.length (snd (splitext config_path)))%nat)
      by now rewrite <- length_app, splitext_app.
    rewrite !length_app in E. revert E Hlen.
    destruct (snd (splitext config_path)); cbn; lia.
Qed.

Lemma update_yaml_writes_one_file_witness :
  (exists st' root',
     assoc (lit "config_merged.yaml")
       (fst (update_yaml Reference.rt no_type all_writable sample_files
               (lit "config.yaml") [MergeSpec.proxy_named (lit "B")]
               false true None))
     = Some (Yaml st' (DDict root')))
  /\ (forall other, other <> lit "config_merged.yaml" ->
        assoc other
          (fst (update_yaml Reference.rt no_type all_writable sample_files
                  (lit "config.yaml") [MergeSpec.proxy_named (lit "B")]
                  false true None))
        = assoc other sample_files)
  /\ (@None str = None \/ @None str = Some [] ->
      lit "config_merged.yaml"
      = fst (splitext (lit "config.yaml")) ++ lit "_merged"
        ++ (if nonempty (snd (splitext (lit "config.yaml")))
            then snd (splitext (lit "config.yaml")) else lit ".yaml")
      /\ lit "config_merged.yaml" <> lit "config.yaml").
Proof.
  apply (update_yaml_writes_one_file Reference.rt no_type all_writable
           sample_files _ (lit "config.yaml") (lit "config_merged.yaml")
           [MergeSpec.proxy_named (lit "B")] false true None).
  vm_compute. reflexivity.
Defined.

End SharedFacts.

(** ** The command line: exit status, messages and what is written *)
Module CliFacts.
Import Py Val Lib Converters ConvertSubscription Shared SharedSpec
  SubscriptionSpec RecordSpec PipelineSpec Cli PyFacts DictFacts LineFacts
  SubscriptionExtra MergeExtra SharedFacts.

(** A text with a visible character has a line. *)
Lemma parse_subscription_nil (content : str) :
  parse_subscription content = [] -> all_space content.
Proof.
  unfold parse_subscription.
  destruct (strip content) as [|c s] eqn:Es.
  - intros _. now apply strip_empty.
  - cbn [nonempty negb]. rewrite <- Es. unfold try_base64.
    assert (Hplain : stripped_lines (strip content) = [] ->
                     all_space content).
    { rewrite stripped_lines_strip. apply stripped_lines_empty. }
    destruct (Base64.b64decode _) as [raw|]; cbn [orelse bind];
      [|exact Hplain].
    destruct (existsb _ (stripped_lines (Utf8.decode_replace raw))) eqn:E;
      [|exact Hplain].
    intros H. rewrite H in E. discriminate.
Qed.

Section WithRuntime.
Variable rt : runtime.
Variable str_of_node : store -> dval -> str.
Variable writable : str -> bool.
Variable read_text : str -> option (outcome str).

(** What [main] does once the subscription is read. *)
Lemma main_read (files : fs) (args : arguments) (content : str) :
  read_subscription_input read_text (subscription args) = Ret content ->
  main rt str_of_node writable read_text files args
  = match parse_subscription content with
    | [] =>
        {| run_files := files; run_stderr := no_links_message;
           run_stdout := []; run_result := Ret 1 |}
    | _ :: _ =>
        match decoded rt (parse_subscription content) with
        | [] =>
            {| run_files := files; run_stderr := no_nodes_message;
               run_stdout := []; run_result := Ret 1 |}
        | proxies =>
            match update_yaml rt str_of_node writable files (config args)
                    proxies (speedtest args) (manual args) (output args)
            with
            | (files', Raise e) =>
                {| run_files := files'; run_stderr := [];
                   run_stdout := []; run_result := Raise e |}
            | (files', Ret output_path) =>
                {| run_files := files'; run_stderr := [];
                   run_stdout :=
                     lit "Merged configuration saved to: "
                     ++ output_path ++ [10];
                   run_result := Ret 0 |}
            end
        end
    end.
Proof.
  intros Hr. unfold main. rewrite Hr.
  destruct (parse_subscription content) as [|l ls]; [reflexivity|].
  rewrite convert_links_decoded.
  destruct (decoded rt (l :: ls)); reflexivity.
Qed.

End WithRuntime.

(** X17: once the subscription is read, [main] ends with status 1 and
    the message that no valid link was found, writing no file and
    printing nothing, exactly when the subscription is nothing but white
    space. *)
Theorem main_blank_subscription (rt : runtime)
    (str_of_node : store -> dval -> str) (writable : str -> bool)
    (read_text : str -> option (outcome str)) (files : fs)
    (args : arguments) (content : str) :
  read_subscription_input read_text (subscription args) = Ret content ->
  (all_space content
   <-> main rt str_of_node writable read_text files args
       = {| run_files := files; run_stderr := no_links_message;
            run_stdout := []; run_result := Ret 1 |}).
Proof.
  intros Hr.
  rewrite (main_read rt str_of_node writable read_text files args content Hr).
  split.
  - intros H. unfold parse_subscription.
    now rewrite (strip_all_space content H).
  - destruct (parse_subscription content) as [|l ls] eqn:El.
    + intros _. now apply parse_subscription_nil.
    + destruct (decoded rt (l :: ls)) as [|p ps].
      * intros H. apply (f_equal run_stderr) in H. discriminate H.
      * destruct (update_yaml _ _ _ _ _ _ _ _ _) as [files' [path|e]];
          intros H; apply (f_equal run_result) in H; discriminate H.
Qed.

Lemma main_blank_subscription_witness :
  all_space [32; 10; 9]
  <-> main Reference.rt no_type all_writable no_text_files sample_files
        (merge_arguments [32; 10; 9] (lit "config.yaml"))
      = {| run_files := sample_files; run_stderr := no_links_message;
           run_stdout := []; run_result := Ret 1 |}.
Proof.
  apply (main_blank_subscription Reference.rt no_type all_writable
           no_text_files sample_files
           (merge_arguments [32; 10; 9] (lit "config.yaml")) [32; 10; 9]).
  reflexivity.
Defined.

(** X18: [main] returns 0 or 1.  When it returns 1 it has written no
    file and printed nothing.  When it returns 0 some link of the
    subscription was decoded, [update_yaml] has returned for the records
    of the links, and what is printed names the path it returned. *)
Theorem main_status (rt : runtime) (str_of_node : store -> dval -> str)
    (writable : str -> bool) (read_text : str -> option (outcome str))
    (files : fs) (args : arguments) (status : Z) :
  run_result (main rt str_of_node writable read_text files args)
  = Ret status ->
  (status = 1
   /\ run_files (main rt str_of_node writable read_text files args) = files
   /\ run_stdout (main rt str_of_node writable read_text files args) = [])
  \/ (status = 0
      /\ exists content path,
           read_subscription_input read_text (subscription args)
           = Ret content
           /\ decoded rt (parse_subscription content) <> []
           /\ update_yaml rt str_of_node writable files (config args)
                (decoded rt (parse_subscription content)) (speedtest args)
                (manual args) (output args)
              = (run_files (main rt str_of_node writable read_text files
                              args),
                 Ret path)
           /\ run_stdout (main rt str_of_node writable read_text files args)
              = lit "Merged configuration saved to: " ++ path ++ [10]).
Proof.
  destruct (read_subscription_input read_text (subscription args))
    as [content|e] eqn:Hr.
  - rewrite (main_read rt str_of_node writable read_text files args content
               Hr).
    destruct (parse_subscription content) as [|l ls] eqn:El.
    + cbn [run_result run_files run_stdout].
      intros H; injection H as <-. now left.
    + destruct (decoded rt (l :: ls)) as [|p ps] eqn:Ed.
      * cbn [run_result run_files run_stdout].
        intros H; injection H as <-. now left.
      * destruct (update_yaml _ _ _ _ _ _ _ _ _) as [files' [path|e]] eqn:Eu;
          cbn [run_result run_files run_stdout]; [|discriminate].
        intros H; injection H as <-. right. split; [reflexivity|].
        exists content, path. rewrite El, Ed.
        split; [reflexivity|]. split; [discriminate|].
        split; [exact Eu|reflexivity].
  - unfold main. rewrite Hr. discriminate.
Qed.

Lemma main_status_witness :
  (1 = 1
   /\ run_files (main Reference.rt no_type all_writable no_text_files
                   sample_files
                   (merge_arguments (lit "hysteria2://x")
                      (lit "config.yaml")))
      = sample_files
   /\ run_stdout (main Reference.rt no_type all_writable no_text_files
                    sample_files
                    (merge_arguments (lit "hysteria2://x")
                       (lit "config.yaml")))
      = [])
  \/ (1 = 0
      /\ exists content path,
           read_subscription_input no_text_files
             (subscription (merge_arguments (lit "hysteria2://x")
                              (lit "config.yaml")))
           = Ret content
           /\ decoded Reference.rt (parse_subscription content) <> []
           /\ update_yaml Reference.rt no_type all_writable sample_files
                (config (merge_arguments (lit "hysteria2://x")
                           (lit "config.yaml")))
                (decoded Reference.rt (parse_subscription content))
                (speedtest (merge_arguments (lit "hysteria2://x")
                              (lit "config.yaml")))
                (manual (merge_arguments (lit "hysteria2://x")
                           (lit "config.yaml")))
                (output (merge_arguments (lit "hysteria2://x")
                           (lit "config.yaml")))
              = (run_files (main Reference.rt no_type all_writable
                              no_text_files sample_files
                              (merge_arguments (lit "hysteria2://x")
                                 (lit "config.yaml"))),
                 Ret path)
           /\ run_stdout (main Reference.rt no_type all_writable
                            no_text_files sample_files
                            (merge_arguments (lit "hysteria2://x")
                               (lit "config.yaml")))
              = lit "Merged configuration saved to: " ++ path ++ [10]).
Proof.
  apply (main_status Reference.rt no_type all_writable no_text_files
           sample_files
           (merge_arguments (lit "hysteria2://x") (lit "config.yaml")) 1).
  vm_compute. reflexivity.
Defined.



End CliFacts.
